(** * research/optimizer.py: the two-parameter grid-search [Optimizer]

    A shallow embedding of the [Optimizer] class and the properties of its
    parameter progressions, pair grid, metric extraction and analytics.

    Layout: Part I is the embedding, in the order of the source; Part II
    holds the lemmas and theorems.

    Conventions of the embedding.
    - Python objects reaching [progression] are values of [pyval]: [None],
      [int] (unbounded, [Z]), [float] (IEEE binary64, Rocq's primitive
      floats), [str], [tuple] and [list].  A [bool] behaves as the [int] 0
      or 1 everywhere in this file and is not a constructor of its own.
    - A raised exception is [Raise e] in the [result] monad; the loops stop
      at the first one, as the interpreter does.
    - The collaborators that are not part of this module ([func], [sig_pos],
      [perf]) are one function argument, [backtest], that may raise.
    - pandas containers are modelled by their labels and cells, a missing
      cell (NaN) being [None]. *)

From Stdlib Require Import ZArith QArith List String Ascii Bool Lia.
From Stdlib Require Import Sorting.Permutation Sorting.Sorted.
From Stdlib Require Import Floats.PrimFloat Floats.SpecFloat Floats.FloatOps.
Import ListNotations.

Set Warnings "-inexact-float,-register-all".
Set Implicit Arguments.

Close Scope Q_scope.
Local Open Scope nat_scope.

(* ===================================================================== *)
(** * Part I. The embedding                                               *)
(* ===================================================================== *)

(** ** Exceptions and the error monad *)

Inductive exn : Type :=
| AssertionError (msg : string)
| ValueError (msg : string)
| TypeError
| OverflowError
| KeyError
| IndexError
| CollaboratorError (msg : string).

Inductive result (A : Type) : Type :=
| Ok (a : A)
| Raise (e : exn).

Arguments Ok {A} a.
Arguments Raise {A} e.

Definition bind {A B : Type} (c : result A) (k : A -> result B) : result B :=
  match c with
  | Ok a => k a
  | Raise e => Raise e
  end.

Declare Scope py_scope.
Delimit Scope py_scope with py.
Notation "x <- c ;; k" := (bind c (fun x => k))
  (at level 61, c at next level, right associativity) : py_scope.
Notation "' p <- c ;; k" := (bind c (fun x => let 'p := x in k))
  (at level 61, p pattern, c at next level, right associativity) : py_scope.
Local Open Scope py_scope.

(** A comprehension whose element expression may raise: elements are
    produced left to right and the first exception ends the loop. *)
Fixpoint mapM {A B : Type} (f : A -> result B) (l : list A) : result (list B) :=
  match l with
  | [] => Ok []
  | a :: l' => b <- f a ;; bs <- mapM f l' ;; Ok (b :: bs)
  end.

Definition is_ok {A : Type} (r : result A) : bool :=
  match r with Ok _ => true | Raise _ => false end.

(** The messages of the two [ValueError]s and of the assertion. *)
Definition msg_wrong_parameter : string := "Wrong parameter".
Definition msg_wrong_mode : string := "Wrong mode".
Definition msg_pairs_or_parameters : string := "Either pairs or parameters required".

(** What the specification calls a [ConfigurationError]: a wrong tuple
    length, an unknown mode, or neither pairs nor both specs. *)
Definition is_ConfigurationError (e : exn) : bool :=
  match e with
  | AssertionError m => String.eqb m msg_pairs_or_parameters
  | ValueError m => String.eqb m msg_wrong_parameter || String.eqb m msg_wrong_mode
  | _ => false
  end.

(** ** Python values *)

Inductive pyval : Type :=
| PNone
| PInt (z : Z)
| PFloat (f : float)
| PStr (s : string)
| PTuple (items : list pyval)
| PList (items : list pyval).

(** [isinstance(v, Sequence)] *)
Definition is_Sequence (v : pyval) : bool :=
  match v with
  | PStr _ | PTuple _ | PList _ => true
  | _ => false
  end.

(** [isinstance(v, int)] *)
Definition is_int (v : pyval) : bool :=
  match v with
  | PInt _ => true
  | _ => false
  end.

(** [v == s] for a string literal [s]. *)
Definition eq_str (v : pyval) (s : string) : bool :=
  match v with
  | PStr m => String.eqb m s
  | _ => false
  end.

(** [range(n)] *)
Definition range (n : nat) : list nat := seq 0 n.

(** ** binary64 arithmetic as CPython performs it *)

Module F64.

Local Open Scope Z_scope.

(** [float(z)] for an [int] ([PyLong_AsDouble]): the nearest double, ties
    to even; [OverflowError] when it is out of range. *)
Definition of_int (z : Z) : result float :=
  match binary_normalize prec emax z 0 false with
  | S754_infinity _ => Raise OverflowError
  | r => Ok (SF2Prim r)
  end.

(** [x ** n] for a float [x] and an [int] [n >= 0] ([float_pow]).  The
    special cases are CPython's own; on a finite non-zero base it calls
    the C library's [pow], modelled as the correctly rounded power, the
    exact value [m^n * 2^(e*n)] rounded to nearest-even.  An overflowing
    result raises [OverflowError]; an underflowing one is a zero. *)
Definition pow (x : float) (n : nat) : result float :=
  match n with
  | O => Ok 1%float
  | S _ =>
      match Prim2SF x with
      | S754_nan => Ok x
      | S754_infinity _ => Ok (if Nat.odd n then x else abs x)
      | S754_zero _ => Ok (if Nat.odd n then x else 0%float)
      | S754_finite s m e =>
          match Z.pos m ^ Z.of_nat n with
          | Z.pos p =>
              match binary_round prec emax (s && Nat.odd n) p (e * Z.of_nat n) with
              | S754_infinity _ => Raise OverflowError
              | r => Ok (SF2Prim r)
              end
          | _ => Ok x
          end
      end
  end.

(** [int(x)]: truncation towards zero; infinities and NaN raise. *)
Definition trunc (x : float) : result Z :=
  match Prim2SF x with
  | S754_nan => Raise (ValueError "cannot convert float NaN to integer")
  | S754_infinity _ => Raise OverflowError
  | S754_zero _ => Ok 0
  | S754_finite s m e =>
      let a := if 0 <=? e then Z.pos m * 2 ^ e else Z.pos m / 2 ^ (- e) in
      Ok (if s then - a else a)
  end.

(** The quotient [a / b] ([b > 0]) rounded to the nearest integer, ties
    to the even one. *)
Definition div_half_even (a b : Z) : Z :=
  let q := a / b in
  match 2 * (a mod b) ?= b with
  | Lt => q
  | Gt => q + 1
  | Eq => if Z.even q then q else q + 1
  end.

(** [round(x, 5)] ([float.__round__] with [ndigits = 5], [double_round]):
    the exact value of [x] is rounded half-even to 5 decimals, [n] being
    that decimal times [10^5], and the decimal is read back as the
    nearest double.  NaN and the infinities round to themselves. *)
Definition round5 (x : float) : result float :=
  match Prim2SF x with
  | S754_finite s m e =>
      let n := if 0 <=? e then Z.pos m * 2 ^ e * 100000
               else div_half_even (Z.pos m * 100000) (2 ^ (- e)) in
      match n with
      | Z0 => Ok (SF2Prim (S754_zero s))
      | _ =>
          let '(q, e', l) := SFdiv_core_binary prec emax n 0 100000 0 in
          match binary_round_aux prec emax s q e' l with
          | S754_infinity _ => Raise OverflowError
          | r => Ok (SF2Prim r)
          end
      end
  | _ => Ok x
  end.

(** An [int] and a float are equal when the float is exactly that
    integer. *)
Definition eqb_int (x : float) (z : Z) : bool :=
  match Prim2SF x with
  | S754_zero _ => z =? 0
  | S754_finite s m e =>
      let v := if s then Z.neg m else Z.pos m in
      if 0 <=? e then z =? v * 2 ^ e
      else (v mod 2 ^ (- e) =? 0) && (z =? v / 2 ^ (- e))
  | _ => false
  end.

End F64.

(** ** Python arithmetic on values

    Only numbers take part.  [progression] applies these operators to a
    [start] that is not a sequence, so Python's sequence repetition and
    concatenation never give a result there: with a sequence or [None] for
    [step] or [None] for [start] the expression raises [TypeError], as here. *)

(** [base ** n] for an [int] [n >= 0] *)
Definition py_pow (base : pyval) (n : nat) : result pyval :=
  match base with
  | PInt b => Ok (PInt (b ^ Z.of_nat n))
  | PFloat x => r <- F64.pow x n ;; Ok (PFloat r)
  | _ => Raise TypeError
  end.

(** [a * b] *)
Definition py_mul (a b : pyval) : result pyval :=
  match a, b with
  | PInt x, PInt y => Ok (PInt (x * y))
  | PInt x, PFloat y => fx <- F64.of_int x ;; Ok (PFloat (fx * y))
  | PFloat x, PInt y => fy <- F64.of_int y ;; Ok (PFloat (x * fy))
  | PFloat x, PFloat y => Ok (PFloat (x * y))
  | _, _ => Raise TypeError
  end.

(** [a + b] *)
Definition py_add (a b : pyval) : result pyval :=
  match a, b with
  | PInt x, PInt y => Ok (PInt (x + y))
  | PInt x, PFloat y => fx <- F64.of_int x ;; Ok (PFloat (fx + y))
  | PFloat x, PInt y => fy <- F64.of_int y ;; Ok (PFloat (x + fy))
  | PFloat x, PFloat y => Ok (PFloat (x + y))
  | _, _ => Raise TypeError
  end.

(** [int(v)] on a number *)
Definition py_int (v : pyval) : result pyval :=
  match v with
  | PInt z => Ok (PInt z)
  | PFloat x => z <- F64.trunc x ;; Ok (PInt z)
  | _ => Raise TypeError
  end.

(** [round(v, 5)] on a number: an [int] is returned as it is. *)
Definition py_round5 (v : pyval) : result pyval :=
  match v with
  | PInt z => Ok (PInt z)
  | PFloat x => r <- F64.round5 x ;; Ok (PFloat r)
  | _ => Raise TypeError
  end.

(** ** [Optimizer.progression] *)

(** The tuple unpacking at the head of [progression]. *)
Definition unpack_sp (sp : list pyval) : result (pyval * pyval * pyval) :=
  match sp with
  | [start; step; mode] => Ok (start, step, mode)
  | [start; step] => Ok (start, step, PStr "geo")
  | _ => Raise (ValueError msg_wrong_parameter)
  end.

(** Element [i] of the geometric tuple [_t]: [start * step**i]. *)
Definition geo_elem (start step : pyval) (i : nat) : result pyval :=
  p <- py_pow step i ;; py_mul start p.

(** Element [i] of the linear tuple: [round(start + step*i, 5)]. *)
Definition lin_elem (start step : pyval) (i : nat) : result pyval :=
  m <- py_mul step (PInt (Z.of_nat i)) ;;
  s <- py_add start m ;;
  py_round5 s.

Definition progression (sp : list pyval) : result pyval :=
  '(start, step, mode) <- unpack_sp sp ;;
  if is_Sequence start then Ok start
  else if eq_str mode "geo" then
    _t <- mapM (geo_elem start step) (range 10) ;;
    if is_int start then
      t <- mapM py_int _t ;; Ok (PTuple t)
    else Ok (PTuple _t)
  else if eq_str mode "lin" then
    t <- mapM (lin_elem start step) (range 10) ;; Ok (PTuple t)
  else Raise (ValueError msg_wrong_mode).

(** ** [Optimizer.get_pairs] *)

Definition get_pairs {A B : Type} (sp_1 : list A) (sp_2 : list B) : list (A * B) :=
  flat_map (fun p_1 => map (fun p_2 => (p_1, p_2)) sp_2) sp_1.


(** Iterating over a Python value, as the comprehension of [get_pairs] does
    over the two progressions. *)
Definition chars (s : string) : list pyval :=
  map (fun c => PStr (String c EmptyString)) (list_ascii_of_string s).

Definition py_iter (v : pyval) : result (list pyval) :=
  match v with
  | PTuple l | PList l => Ok l
  | PStr s => Ok (chars s)
  | _ => Raise TypeError
  end.

(** ** Dictionaries

    A [dict] keeps its keys in insertion order; assigning to a key that is
    already there replaces the value and leaves the key where it is.  Keys
    are compared with the equality [keq] of the key type. *)

Definition dict (K V : Type) : Type := list (K * V).

Section Dict.

Variables K V : Type.
Variable keq : K -> K -> bool.

Fixpoint dict_get (k : K) (d : dict K V) : option V :=
  match d with
  | [] => None
  | (k', v) :: d' => if keq k' k then Some v else dict_get k d'
  end.

Fixpoint dict_set (k : K) (v : V) (d : dict K V) : dict K V :=
  match d with
  | [] => [(k, v)]
  | (k', v') :: d' =>
      if keq k' k then (k', v) :: d' else (k', v') :: dict_set k v d'
  end.

Definition dict_keys (d : dict K V) : list K := map fst d.
Definition dict_values (d : dict K V) : list V := map snd d.

(** [{key(i): val(i) for i in l}] *)
Definition dict_comprehension {A : Type} (key : A -> K) (val : A -> V)
    (l : list A) : dict K V :=
  fold_left (fun d i => dict_set (key i) (val i) d) l [].

(** [d[k]], raising [KeyError] *)
Definition dict_item (k : K) (d : dict K V) : result V :=
  match dict_get k d with
  | Some v => Ok v
  | None => Raise KeyError
  end.

End Dict.

(** Equality of two keys that are pairs: component by component. *)
Definition pair_eqb {K : Type} (keq : K -> K -> bool) (p q : K * K) : bool :=
  keq (fst p) (fst q) && keq (snd p) (snd q).

(** Membership of a label in an index. *)
Definition label_in {K : Type} (keq : K -> K -> bool) (k : K) (l : list K) : bool :=
  existsb (fun k' => keq k' k) l.

(** ** Numbers held by pandas

    The cells of the frames are numbers of a type [R] with the operations
    pandas applies to them.  [num_isnan] tells the NaN, which pandas skips.
    Two instances follow the embedding: the binary64 floats the program
    runs on, and the rationals, where the same definitions compute the
    exact values. *)

Class Num (R : Type) : Type := {
  num_zero : R;
  num_one : R;
  num_add : R -> R -> R;
  num_mul : R -> R -> R;
  num_div : R -> R -> R;
  num_of_nat : nat -> R;
  num_leb : R -> R -> bool;
  num_isnan : R -> bool
}.

#[export] Instance Num_float : Num float := {
  num_zero := 0%float;
  num_one := 1%float;
  num_add := PrimFloat.add;
  num_mul := PrimFloat.mul;
  num_div := PrimFloat.div;
  num_of_nat := fun n => SF2Prim (binary_normalize prec emax (Z.of_nat n) 0 false);
  num_leb := PrimFloat.leb;
  num_isnan := PrimFloat.is_nan
}.

#[export] Instance Num_Q : Num Q := {
  num_zero := 0%Q;
  num_one := 1%Q;
  num_add := Qplus;
  num_mul := Qmult;
  num_div := Qdiv;
  num_of_nat := fun n => inject_Z (Z.of_nat n);
  num_leb := Qle_bool;
  num_isnan := fun _ => false
}.

(** ** Hashable keys

    The stores are dictionaries keyed by parameter pairs.  A key type comes
    with Python's equality on it and with the test that a value can be
    hashed at all (a [list] cannot, and using one as a key raises
    [TypeError]). *)

Class Key (K : Type) : Type := {
  key_eqb : K -> K -> bool;
  hashable : K -> bool
}.

(** What Python guarantees of [==] on hashable values. *)
Class KeyLaws (K : Type) {key : Key K} : Prop := {
  key_eqb_refl : forall a : K, key_eqb a a = true;
  key_eqb_sym : forall a b : K, key_eqb a b = key_eqb b a;
  key_eqb_trans : forall a b c : K,
    key_eqb a b = true -> key_eqb b c = true -> key_eqb a c = true
}.

Arguments KeyLaws K {key}.

(** [a == b] on values.  An [int] equals the float of the same value.  A
    dictionary looks a key up by identity before [==]; the model has one
    NaN, which therefore finds itself.  (Several NaN objects, which a
    dictionary keeps as several keys, are outside this model.) *)
Fixpoint py_eqb (a b : pyval) {struct a} : bool :=
  let fix all2 (l m : list pyval) {struct l} : bool :=
    match l, m with
    | [], [] => true
    | x :: l', y :: m' => py_eqb x y && all2 l' m'
    | _, _ => false
    end in
  match a, b with
  | PNone, PNone => true
  | PInt x, PInt y => Z.eqb x y
  | PInt x, PFloat y => F64.eqb_int y x
  | PFloat x, PInt y => F64.eqb_int x y
  | PFloat x, PFloat y => PrimFloat.eqb x y || (is_nan x && is_nan y)
  | PStr x, PStr y => String.eqb x y
  | PTuple l, PTuple m => all2 l m
  | PList l, PList m => all2 l m
  | _, _ => false
  end.

Fixpoint py_hashable (v : pyval) : bool :=
  match v with
  | PList _ => false
  | PTuple l => forallb py_hashable l
  | _ => true
  end.

#[export] Instance Key_pyval : Key pyval := {
  key_eqb := py_eqb;
  hashable := py_hashable
}.

#[export] Instance Key_Z : Key Z := {
  key_eqb := Z.eqb;
  hashable := fun _ => true
}.

(** ** pandas containers *)

(** A [Series] of scalars labelled by strings: a summary-statistics table. *)
Definition Series (R : Type) : Type := list (string * R).

(** [s.index] *)
Definition series_index {R : Type} (s : Series R) : list string := map fst s.

(** [s[label]] *)
Definition series_item {R : Type} (label : string) (s : Series R) : result R :=
  dict_item String.eqb label s.

(** A [DataFrame] of scalars: row labels, column labels (both in the order
    they were added) and the cells that were assigned; any other cell is
    NaN. *)
Record DataFrame (K R : Type) : Type := {
  index : list K;
  columns : list K;
  cells : dict (K * K) R
}.

(** [pd.DataFrame()] *)
Definition empty_frame {K R : Type} : DataFrame K R :=
  {| index := []; columns := []; cells := [] |}.

Section Frames.

Variables K R : Type.
Variable keq : K -> K -> bool.
Context {num : Num R}.

(** [frame.loc[row, col] = v]: the cell is set, and the row and column
    labels are appended when they are new.  A tuple key [frame.loc[p]]
    on a two-dimensional frame is this with [p = (row, col)].  The labels
    are the scalars of a [Tuple[float, float]]; a label that is itself a
    tuple is outside this model. *)
Definition loc_set (p : K * K) (v : R) (t : DataFrame K R) : DataFrame K R :=
  {| index := if label_in keq (fst p) (index t) then index t
              else index t ++ [fst p];
     columns := if label_in keq (snd p) (columns t) then columns t
                else columns t ++ [snd p];
     cells := dict_set (pair_eqb keq) p v (cells t) |}.

(** A NaN value is a missing value. *)
Definition notna (c : option R) : option R :=
  match c with
  | Some v => if num_isnan v then None else Some v
  | None => None
  end.

(** [frame.loc[row, col]], [None] for a NaN or absent cell. *)
Definition loc_get (p : K * K) (t : DataFrame K R) : option R :=
  notna (dict_get (pair_eqb keq) p (cells t)).

(** The values pandas keeps under [skipna]. *)
Definition valid (l : list (option R)) : list R :=
  flat_map (fun c => match notna c with Some v => [v] | None => [] end) l.

(** The sum of a list of values, added from the left.  (The array library
    adds eight or more floats in another order; the result is this one
    with fewer values, and in exact arithmetic.) *)
Definition total (l : list R) : R := fold_left num_add l num_zero.

(** The mean of the values that are there; NaN when there is none. *)
Definition nanmean (l : list (option R)) : option R :=
  match valid l with
  | [] => None
  | vs => Some (num_div (total vs) (num_of_nat (List.length vs)))
  end.

(** [frame.mean()]: the mean of each column, one entry per column. *)
Definition frame_mean (t : DataFrame K R) : list (option R) :=
  map (fun c => nanmean (map (fun r => loc_get (r, c) t) (index t))) (columns t).

(** [frame.stack()]: the cells that are there, row by row. *)
Definition stack (t : DataFrame K R) : list R :=
  valid (flat_map (fun r => map (fun c => loc_get (r, c) t) (columns t)) (index t)).

Fixpoint insert_sorted (x : R) (l : list R) : list R :=
  match l with
  | [] => [x]
  | y :: l' => if num_leb x y then x :: l else y :: insert_sorted x l'
  end.

Definition sort (l : list R) : list R := fold_right insert_sorted [] l.

(** [series.median()]: the middle value of the sorted values, the mean of
    the two middle ones when their number is even; NaN when empty. *)
Definition median (l : list R) : option R :=
  let s := sort l in
  let n := List.length s in
  match n with
  | O => None
  | _ =>
      if Nat.even n then
        match nth_error s (n / 2 - 1), nth_error s (n / 2) with
        | Some a, Some b =>
            Some (num_div (num_add a b) (num_of_nat 2))
        | _, _ => None
        end
      else nth_error s (n / 2)
  end.

(** [series.cumprod()]: the running product; a NaN stays a NaN in its
    place and is left out of the product. *)
Fixpoint cumprod_from (acc : option R) (l : list (option R)) : list (option R) :=
  match l with
  | [] => []
  | c :: l' =>
      match notna c with
      | None => None :: cumprod_from acc l'
      | Some v =>
          let p := match acc with
                   | None => v
                   | Some a => num_mul a v
                   end in
          Some p :: cumprod_from (Some p) l'
      end
  end.

Definition cumprod (l : list (option R)) : list (option R) := cumprod_from None l.

End Frames.

(** A frame of daily series, one column per label, on the shared time
    index: row [t] holds each column's value at the [t]-th bar, NaN where
    a column has none. *)
Definition TimeFrame (C R : Type) : Type := dict C (list R).

Section TimeFrames.

Variables C R : Type.
Context {num : Num R}.

Definition n_rows (f : TimeFrame C R) : nat :=
  fold_right (fun c n => Nat.max (List.length (snd c)) n) O f.

Definition cell_at (t : nat) (col : list R) : option R :=
  notna (nth_error col t).

Definition row_at (f : TimeFrame C R) (t : nat) : list (option R) :=
  map (fun c => cell_at t (snd c)) f.

(** [frame.mean(axis=1)] *)
Definition mean_axis1 (f : TimeFrame C R) : list (option R) :=
  map (fun t => nanmean (row_at f t)) (seq 0 (n_rows f)).

End TimeFrames.

(** ** Strings: the three methods [extract_stats] calls

    A [string] is a sequence of bytes; [lower] maps the ASCII capitals and
    leaves every other byte, which is what [str.lower] does on ASCII
    names. *)

Definition lower_ascii (c : ascii) : ascii :=
  let n := nat_of_ascii c in
  if (65 <=? n)%nat && (n <=? 90)%nat then ascii_of_nat (n + 32) else c.

(** [s.lower()] *)
Fixpoint lower (s : string) : string :=
  match s with
  | EmptyString => EmptyString
  | String c s' => String (lower_ascii c) (lower s')
  end.

(** [s.replace(old, new)] for a one-character [old]. *)
Fixpoint replace (old : ascii) (new : string) (s : string) : string :=
  match s with
  | EmptyString => EmptyString
  | String c s' =>
      if Ascii.eqb c old then (new ++ replace old new s')%string
      else String c (replace old new s')
  end.

(** [i.lower().replace(' ', '_').replace('/', '_').replace('.', '')] *)
Definition normalize_name (i : string) : string :=
  replace "." "" (replace "/" "_" (replace " " "_" (lower i))).

(** ** The [Optimizer] object *)

(** A pair's daily frame, with its columns ['lreturn'], ['returns'] and
    ['balance'] on the time index. *)
Record Daily (R : Type) : Type := {
  daily_lreturn : list R;
  daily_returns : list R;
  daily_balance : list R
}.

(** What [perf] returns for one pair.  [T] is the type of the position
    frame and of the working frame, which this class stores and never
    reads. *)
Record Out (R T : Type) : Type := {
  stats : Series R;
  daily : Daily R;
  positions : T;
  df : T
}.

Record Optimizer (K R T : Type) : Type := {
  raw_stats : dict (K * K) (Series R);
  raw_dailys : dict (K * K) (Daily R);
  raw_positions : dict (K * K) T;
  raw_dfs : dict (K * K) T;
  pairs : list (K * K);
  _fields : list string;
  field_trans : dict string string;
  fields : list string;
  _table : dict string (DataFrame K R);
  log_returns : TimeFrame (K * K) R;
  returns : TimeFrame (K * K) R;
  paths : TimeFrame (K * K) R
}.

(** A loop whose body may raise. *)
Fixpoint foldM {A S : Type} (f : S -> A -> result S) (l : list A) (s : S) : result S :=
  match l with
  | [] => Ok s
  | a :: l' => s' <- f s a ;; foldM f l' s'
  end.

(** [l[-1]] *)
Definition last_item {A : Type} (l : list A) : result A :=
  match rev l with
  | a :: _ => Ok a
  | [] => Raise IndexError
  end.

Section OptimizerClass.

Variables K R T : Type.
Context {key : Key K} {num : Num R}.

(** [sig_pos(func(df['close'], p_1, p_2))] followed by
    [perf(df['open'], data, slippage=slip)]: the collaborators, for the
    price table, strategy and slippage the object was built with. *)
Variable backtest : K -> K -> result (Out R T).

#[local] Abbreviation Optimizer := (Optimizer K R T).

(** Hashing the tuple [(p_1, p_2)] hashes its two items. *)
Definition hash_key (p : K * K) : result unit :=
  if hashable (fst p) && hashable (snd p) then Ok tt else Raise TypeError.

(** The object as [__init__] has it when the sweep starts. *)
Definition new (ps : list (K * K)) : Optimizer :=
  {| raw_stats := []; raw_dailys := []; raw_positions := []; raw_dfs := [];
     pairs := ps;
     _fields := []; field_trans := []; fields := []; _table := [];
     log_returns := []; returns := []; paths := [] |}.

Definition calc (self : Optimizer) (p_1 p_2 : K) : result Optimizer :=
  out <- backtest p_1 p_2 ;;
  _ <- hash_key (p_1, p_2) ;;
  Ok {| raw_stats := dict_set (pair_eqb key_eqb) (p_1, p_2) (stats out) (raw_stats self);
        raw_dailys := dict_set (pair_eqb key_eqb) (p_1, p_2) (daily out) (raw_dailys self);
        raw_positions :=
          dict_set (pair_eqb key_eqb) (p_1, p_2) (positions out) (raw_positions self);
        raw_dfs := dict_set (pair_eqb key_eqb) (p_1, p_2) (df out) (raw_dfs self);
        pairs := pairs self;
        _fields := _fields self; field_trans := field_trans self;
        fields := fields self; _table := _table self;
        log_returns := log_returns self; returns := returns self;
        paths := paths self |}.

(** [for p in self.pairs: self.calc(p[0], p[1])].  Beside the object the
    loop yields the pairs [calc] was called on, in order; the last of
    them is the one whose call raised, when one did. *)
Fixpoint calc_loop (self : Optimizer) (ps : list (K * K))
    : list (K * K) * result Optimizer :=
  match ps with
  | [] => ([], Ok self)
  | p :: ps' =>
      match calc self (fst p) (snd p) with
      | Ok self' =>
          let '(called, r) := calc_loop self' ps' in (p :: called, r)
      | Raise e => ([p], Raise e)
      end
  end.

(** The body of the two loops of [extract_stats]:
    [self._table[self.field_trans[field]].loc[index] = stats_table[field]] *)
Definition record_field (trans : dict string string) (index : K * K)
    (stats_table : Series R) (table : dict string (DataFrame K R))
    (field : string) : result (dict string (DataFrame K R)) :=
  v <- series_item field stats_table ;;
  name <- dict_item String.eqb field trans ;;
  frame <- dict_item String.eqb name table ;;
  Ok (dict_set String.eqb name (loc_set key_eqb index v frame) table).

Definition extract_stats (self : Optimizer) : result Optimizer :=
  last_pair <- last_item (pairs self) ;;
  _ <- hash_key last_pair ;;
  reference <- dict_item (pair_eqb key_eqb) last_pair (raw_stats self) ;;
  let _fields' := series_index reference in
  let field_trans' :=
    dict_comprehension String.eqb (fun i => i) normalize_name _fields' in
  let fields' := dict_values field_trans' in
  let table0 :=
    dict_comprehension String.eqb (fun f => f)
      (fun _ => @empty_frame K R) fields' in
  table <- foldM (fun table item =>
                    foldM (record_field field_trans' (fst item) (snd item))
                      _fields' table)
             (raw_stats self) table0 ;;
  Ok {| raw_stats := raw_stats self; raw_dailys := raw_dailys self;
        raw_positions := raw_positions self; raw_dfs := raw_dfs self;
        pairs := pairs self;
        _fields := _fields'; field_trans := field_trans';
        fields := fields'; _table := table;
        log_returns := log_returns self; returns := returns self;
        paths := paths self |}.

(** [pd.DataFrame(d)] of a dictionary of series is the frame with these
    columns. *)
Definition extract_dailys (self : Optimizer) : Optimizer :=
  let column (f : Daily R -> list R) :=
    map (fun kv : K * K * Daily R => (fst kv, f (snd kv))) (raw_dailys self) in
  {| raw_stats := raw_stats self; raw_dailys := raw_dailys self;
     raw_positions := raw_positions self; raw_dfs := raw_dfs self;
     pairs := pairs self;
     _fields := _fields self; field_trans := field_trans self;
     fields := fields self; _table := _table self;
     log_returns := column (@daily_lreturn R);
     returns := column (@daily_returns R);
     paths := column (@daily_balance R) |}.

(** [__init__] from the sweep on, once [self.pairs] is known.  The
    statement [self.__dict__.update(self._table)] binds each matrix in the
    instance dictionary under its normalized name; the matrices stay those
    of [_table].  A name that is already bound there, or that names a
    method, is rebound to the matrix; the record describes the attributes
    of the object built when no name does ([keeps_attributes] below). *)
Definition sweep (ps : list (K * K)) : list (K * K) * result Optimizer :=
  let '(called, r) := calc_loop (new ps) ps in
  (called, self <- r ;; self <- extract_stats self ;; Ok (extract_dailys self)).

(** *** Properties of the object *)

Definition return_mean (self : Optimizer) : result (option R) :=
  t <- dict_item String.eqb "annual_return"%string (_table self) ;;
  Ok (nanmean (frame_mean key_eqb t)).

Definition return_median (self : Optimizer) : result (option R) :=
  t <- dict_item String.eqb "annual_return"%string (_table self) ;;
  Ok (median (stack key_eqb t)).

Definition combine (self : Optimizer) : list (option R) :=
  mean_axis1 (returns self).

Definition combine_paths (self : Optimizer) : list (option R) :=
  cumprod (map (option_map (fun c => num_add c num_one)) (combine self)).

End OptimizerClass.

Arguments new {K R T} ps.

(** ** [Optimizer.__init__] *)

Definition sp_1_default : list pyval := [PInt 100; PFloat 1.25; PStr "geo"].
Definition sp_2_default : list pyval := [PFloat 0.1; PFloat 0.1; PStr "lin"].

(** Truth value of a tuple or list: it is not empty. *)
Definition truthy {A : Type} (l : list A) : bool :=
  match l with
  | [] => false
  | _ :: _ => true
  end.

(** Truth value of the [pairs] argument, [None] by default. *)
Definition truthy_pairs {A : Type} (pairs : option (list A)) : bool :=
  match pairs with
  | Some l => truthy l
  | None => false
  end.

(** [pairs or self.get_pairs(self.progression(sp_1), self.progression(sp_2))] *)
Definition pairs_or_grid (sp_1 sp_2 : list pyval)
    (pairs : option (list (pyval * pyval))) : result (list (pyval * pyval)) :=
  match pairs with
  | Some (p :: ps) => Ok (p :: ps)
  | _ =>
      s_1 <- progression sp_1 ;;
      s_2 <- progression sp_2 ;;
      l_1 <- py_iter s_1 ;;
      l_2 <- py_iter s_2 ;;
      Ok (get_pairs l_1 l_2)
  end.

(** The constructor.  Its value is the pairs [calc] was called on and the
    object, or the exception that ended the construction. *)
Definition __init__ {R T : Type} {num : Num R}
    (backtest : pyval -> pyval -> result (Out R T))
    (sp_1 sp_2 : list pyval) (pairs : option (list (pyval * pyval)))
    : list (pyval * pyval) * result (Optimizer pyval R T) :=
  if negb (truthy_pairs pairs || (truthy sp_1 && truthy sp_2)) then
    ([], Raise (AssertionError msg_pairs_or_parameters))
  else
    match pairs_or_grid sp_1 sp_2 pairs with
    | Ok ps => sweep backtest ps
    | Raise e => ([], Raise e)
    end.

(** ** [self.__dict__.update(self._table)]

    The names bound in the instance dictionary when the constructor
    reaches this statement, and the functions of the class, which an entry
    of the instance dictionary shadows.  (The properties of the class are
    data descriptors and are not shadowed; [log_returns], [returns] and
    [paths] are assigned after the statement.) *)
Definition instance_names : list string :=
  ["func"; "df"; "slip"; "raw_stats"; "raw_dailys"; "raw_positions"; "raw_dfs";
   "pairs"; "_table"; "_fields"; "field_trans"; "fields"]%string.

Definition method_names : list string :=
  ["__init__"; "progression"; "get_pairs"; "calc"; "extract_stats";
   "extract_dailys"; "__repr__"; "__str__"]%string.

(** The update rebinds an attribute or a method under this name. *)
Definition rebinds (name : string) : bool :=
  existsb (String.eqb name) (instance_names ++ method_names).

(** No matrix is bound over an attribute or a method: the update only adds
    names to the instance dictionary. *)
Definition keeps_attributes {K R T : Type} (self : Optimizer K R T) : bool :=
  forallb (fun name => negb (rebinds name)) (dict_keys (_table self)).

(** ** [Optimizer.rank]

    [self.paths.iloc[-1].sort_values().tail(20)]: the last row of the
    balance paths, one entry per pair, in ascending order with the NaN
    entries last, cut to its last 20 entries. *)

(** [frame.iloc[-1]]: the row of the last bar; [IndexError] on a frame
    without rows. *)
Definition last_row {C R : Type} {num : Num R} (f : TimeFrame C R)
    : result (list (C * option R)) :=
  match n_rows f with
  | O => Raise IndexError
  | S t => Ok (map (fun c => (fst c, cell_at t (snd c))) f)
  end.

Fixpoint insert_entry {C R : Type} {num : Num R} (x : C * R) (l : list (C * R))
    : list (C * R) :=
  match l with
  | [] => [x]
  | y :: l' => if num_leb (snd x) (snd y) then x :: l else y :: insert_entry x l'
  end.

(** The entries of a row that hold a value, and the labels of those that
    hold none. *)
Definition present {C R : Type} {num : Num R} (row : list (C * option R))
    : list (C * R) :=
  flat_map (fun e => match notna (snd e) with
                     | Some v => [(fst e, v)]
                     | None => []
                     end) row.

Definition missing {C R : Type} {num : Num R} (row : list (C * option R))
    : list C :=
  flat_map (fun e => match notna (snd e) with
                     | Some _ => []
                     | None => [fst e]
                     end) row.

(** [series.sort_values()].  The library's default sort leaves the order
    of entries of equal value open; here they are in the order of an
    insertion sort. *)
Definition sort_values {C R : Type} {num : Num R} (row : list (C * option R))
    : list (C * option R) :=
  map (fun e => (fst e, Some (snd e))) (fold_right insert_entry [] (present row))
  ++ map (fun k => (k, None)) (missing row).

(** [series.tail(n)] *)
Definition series_tail {A : Type} (n : nat) (l : list A) : list A :=
  skipn (List.length l - n) l.

Definition rank {K R T : Type} {num : Num R} (self : Optimizer K R T)
    : result (list (K * K * option R)) :=
  row <- last_row (paths self) ;;
  Ok (series_tail 20 (sort_values row)).

(** The final balances the ranking sorts: the values of the last row. *)
Definition final_balances {K R T : Type} {num : Num R} (self : Optimizer K R T)
    : list R :=
  valid (map (fun c => cell_at (n_rows (paths self) - 1) (snd c)) (paths self)).

(** ** Further notions used by the statements *)

(** [isinstance(v, (int, float))] *)
Definition is_number (v : pyval) : bool :=
  match v with
  | PInt _ | PFloat _ => true
  | _ => false
  end.

(** The order of the entries of a sorted row: by value. *)
Definition entry_le {C R : Type} {num : Num R} (a b : C * R) : Prop :=
  num_leb (snd a) (snd b) = true.

(** The labels of an axis after an assignment at the label [k]: [k] is
    appended when it is new ([loc_set] does this to both axes). *)
Definition add_label {K : Type} (keq : K -> K -> bool) (k : K) (l : list K)
    : list K :=
  if label_in keq k l then l else l ++ [k].

(** The value of a metric in a summary table that has it (0 stands for a
    metric the table has not). *)
Definition series_value {R : Type} {num : Num R} (f : string) (st : Series R) : R :=
  match dict_get String.eqb f st with
  | Some v => v
  | None => num_zero
  end.

(** No pair of the list equals a later one. *)
Fixpoint all_distinct {K : Type} (keq : K -> K -> bool) (l : list K) : Prop :=
  match l with
  | [] => True
  | k :: l' => (forall k', In k' l' -> keq k k' = false) /\ all_distinct keq l'
  end.

(** A character an identifier is made of: not a space, "/", "." or ASCII
    capital. *)
Definition identifier_char (c : ascii) : bool :=
  negb (Ascii.eqb c " ") && negb (Ascii.eqb c "/") && negb (Ascii.eqb c ".")
  && negb ((65 <=? nat_of_ascii c) && (nat_of_ascii c <=? 90)).

(** ** The specification's words, as definitions

    These follow the sentences of the specification, not the code; the
    theorems of Part II compare the code with them. *)

(** "In geometric mode element i equals start x step^i, cast to int when
    start is of integral type; in linear mode element i equals
    round(start + step x i, 5)." *)
Definition progression_elem (start step mode : pyval) (i : nat) : result pyval :=
  if eq_str mode "geo" then
    x <- geo_elem start step i ;;
    if is_int start then py_int x else Ok x
  else lin_elem start step i.

(** "Lower-case; replace spaces with underscores; remove "/" and "."." *)
Definition normalize_as_specified (i : string) : string :=
  replace "." "" (replace "/" "" (replace " " "_" (lower i))).

(** A spec the constructor must refuse: a length other than 2 and 3, or a
    length of 3 with a scalar start and a mode that is neither ['geo'] nor
    ['lin']. *)
Definition malformed (sp : list pyval) : bool :=
  match sp with
  | [_; _] => false
  | [start; _; mode] =>
      negb (is_Sequence start) && negb (eq_str mode "geo") && negb (eq_str mode "lin")
  | _ => true
  end.

(** "The equal-weight arithmetic mean": the sum divided by the count. *)
Definition arithmetic_mean {R : Type} {num : Num R} (l : list R) : R :=
  num_div (total l) (num_of_nat (List.length l)).

(** "The median computed over all cells flattened into one unordered
    collection": the middle value of the cells put in ascending order, half
    the sum of the two middle values when their number is even. *)
Definition is_median {R : Type} {num : Num R} (l : list R) (m : R) : Prop :=
  exists s,
    Permutation s l
    /\ StronglySorted (fun a b => num_leb a b = true) s
    /\ if Nat.even (List.length s) then
         exists a b,
           nth_error s (List.length s / 2 - 1) = Some a
           /\ nth_error s (List.length s / 2) = Some b
           /\ m = num_div (num_add a b) (num_of_nat 2)
       else nth_error s (List.length s / 2) = Some m.

(** The simple returns of all pairs at time step [t]. *)
Definition returns_at {K R T : Type} {num : Num R} (self : Optimizer K R T)
    (t : nat) : list R :=
  map (fun c => nth t (snd c) num_zero) (returns self).

(** "The running cumulative product of (1 + combined return), starting at 1
    before the first return": the product after step [t]. *)
Definition compounded {R : Type} {num : Num R} (cs : list R) (t : nat) : R :=
  fold_left num_mul (map (fun c => num_add c num_one) (firstn (S t) cs)) num_one.

(** What one character of a raw metric name becomes: a "." disappears, a
    space and a "/" become an underscore, any other character is
    lower-cased. *)
Definition normalize_char (c : ascii) : string :=
  if Ascii.eqb c "." then EmptyString
  else if Ascii.eqb c " " || Ascii.eqb c "/" then String "_" EmptyString
  else String (lower_ascii c) EmptyString.

(** "The metric's matrix contains an entry at the row indexed by that pair
    holding the value [v]": the pair's labels are in the two axes and the
    cell they address holds [v]. *)
Definition has_entry {K R : Type} (keq : K -> K -> bool) (frame : DataFrame K R)
    (p : K * K) (v : R) : Prop :=
  label_in keq (fst p) (index frame) = true
  /\ label_in keq (snd p) (columns frame) = true
  /\ dict_get (pair_eqb keq) p (cells frame) = Some v.

(** The keys of a dictionary are pairwise different: no key equals a later
    one. *)
Fixpoint dict_wf {K V : Type} (keq : K -> K -> bool) (d : dict K V) : Prop :=
  match d with
  | [] => True
  | (k, _) :: d' => dict_get keq k d' = None /\ dict_wf keq d'
  end.

(** The mean of all the cells of a frame, taken at once. *)
Definition global_mean {K R : Type} {num : Num R} (keq : K -> K -> bool)
    (t : DataFrame K R) : R :=
  arithmetic_mean (stack keq t).

(** ** Sample data

    A collaborator that returns the same result for every pair, used where
    a statement is run on concrete arguments. *)

Definition sample_out : Out float unit :=
  {| stats := [("Annual return"%string, 0.1%float); ("Sharpe ratio"%string, 1.5%float)];
     daily := {| daily_lreturn := [0%float; 0.1%float; (-0.05)%float];
                 daily_returns := [0%float; 0.1%float; (-0.05)%float];
                 daily_balance := [1%float; 1.1%float; 1.045%float] |};
     positions := tt;
     df := tt |}.

Definition sample_backtest (p_1 p_2 : pyval) : result (Out float unit) :=
  Ok sample_out.

(** Two pairs whose simple returns average to 0.0, 0.1 and -0.05. *)
Definition two_pair_backtest (p_1 p_2 : Z) : result (Out float unit) :=
  let r := if (p_1 =? 1)%Z then [0.1; 0.2; 0]%float
           else [(-0.1)%float; 0%float; (-0.1)%float] in
  Ok {| stats := [("Annual return"%string, 0.1%float)];
        daily := {| daily_lreturn := r; daily_returns := r; daily_balance := r |};
        positions := tt;
        df := tt |}.

(** An object over the rationals with one pair, of returns 0, 1/10 and
    -1/20. *)
Definition rational_object : Optimizer Z Q unit :=
  extract_dailys
    {| raw_stats := []; raw_dailys :=
         [((1, 1)%Z, {| daily_lreturn := []; daily_returns := [0; 1 # 10; -1 # 20]%Q;
                        daily_balance := [] |})];
       raw_positions := []; raw_dfs := []; pairs := [(1, 1)%Z];
       _fields := []; field_trans := []; fields := []; _table := [];
       log_returns := []; returns := []; paths := [] |}.

(** A grid that is not uniform: the annual return is 1 at the pair (2, 2)
    and 0 at the three other pairs. *)
Definition corner_backtest {R : Type} {num : Num R} (p_1 p_2 : Z)
    : result (Out R unit) :=
  Ok {| stats := [("Annual return"%string,
                   if ((p_1 =? 2) && (p_2 =? 2))%Z then num_one else num_zero)];
        daily := {| daily_lreturn := []; daily_returns := []; daily_balance := [] |};
        positions := tt;
        df := tt |}.

Definition corner_grid : list (Z * Z) := get_pairs [1; 2]%Z [1; 2]%Z.

(** The object a construction ends with (the empty object when it
    raised). *)
Definition built {K R T : Type} (run : list (K * K) * result (Optimizer K R T))
    : Optimizer K R T :=
  match snd run with
  | Ok self => self
  | Raise _ => new []
  end.

(** The object built on that grid, and its annual-return matrix. *)
Definition corner_object (R : Type) {num : Num R} : Optimizer Z R unit :=
  built (sweep corner_backtest corner_grid).

Arguments corner_object R {num}.

Definition annual_return_matrix {K R T : Type} (self : Optimizer K R T)
    : DataFrame K R :=
  match dict_get String.eqb "annual_return"%string (_table self) with
  | Some t => t
  | None => empty_frame
  end.

(** A summary table with a "/" in a metric name. *)
Definition ratio_backtest (p_1 p_2 : Z) : result (Out float unit) :=
  Ok {| stats := [("Win/loss ratio"%string, 1.5%float)];
        daily := {| daily_lreturn := []; daily_returns := []; daily_balance := [] |};
        positions := tt;
        df := tt |}.

(** A summary table with two metric names that normalize to the same
    identifier. *)
Definition colliding_backtest (p_1 p_2 : Z) : result (Out float unit) :=
  Ok {| stats := [("Tail ratio"%string, 1%float); ("tail_ratio"%string, 2%float)];
        daily := {| daily_lreturn := []; daily_returns := []; daily_balance := [] |};
        positions := tt;
        df := tt |}.

(** A collaborator that raises on the pairs whose first parameter is 2. *)
Definition failing_backtest (p_1 p_2 : Z) : result (Out float unit) :=
  if (p_1 =? 2)%Z then Raise (CollaboratorError "no signal")
  else Ok sample_out.

(** A collaborator whose results depend on the pair: the annual return is
    the first parameter and the daily series repeat the second. *)
Definition varying_backtest (p_1 p_2 : Z) : result (Out Q unit) :=
  Ok {| stats := [("Annual return"%string, inject_Z p_1)];
        daily := {| daily_lreturn := [inject_Z p_2];
                    daily_returns := [inject_Z p_2; inject_Z p_2];
                    daily_balance := [inject_Z p_1; inject_Z p_2] |};
        positions := tt;
        df := tt |}.

Definition varying_out (p : Z * Z) : Out Q unit :=
  match varying_backtest (fst p) (snd p) with
  | Ok out => out
  | Raise _ =>
      {| stats := [];
         daily := {| daily_lreturn := []; daily_returns := []; daily_balance := [] |};
         positions := tt; df := tt |}
  end.

(** A collaborator whose summary table has the Sharpe ratio only for the
    pairs whose first parameter is 2. *)
Definition uneven_backtest (p_1 p_2 : Z) : result (Out Q unit) :=
  Ok {| stats := if (p_1 =? 2)%Z
                 then [("Annual return"%string, (1 # 10)%Q);
                       ("Sharpe ratio"%string, (3 # 2)%Q)]
                 else [("Annual return"%string, (1 # 20)%Q)];
        daily := {| daily_lreturn := []; daily_returns := []; daily_balance := [] |};
        positions := tt;
        df := tt |}.

Definition uneven_out (p : Z * Z) : Out Q unit :=
  match uneven_backtest (fst p) (snd p) with
  | Ok out => out
  | Raise _ =>
      {| stats := [];
         daily := {| daily_lreturn := []; daily_returns := []; daily_balance := [] |};
         positions := tt; df := tt |}
  end.

(** An object over the rationals with two pairs, the second of which has
    a return at the first bar only. *)
Definition ragged_object : Optimizer Z Q unit :=
  extract_dailys
    {| raw_stats := [];
       raw_dailys :=
         [((1, 1)%Z, {| daily_lreturn := []; daily_returns := [1 # 10; 2 # 10]%Q;
                        daily_balance := [] |});
          ((1, 2)%Z, {| daily_lreturn := []; daily_returns := [3 # 10]%Q;
                        daily_balance := [] |})];
       raw_positions := []; raw_dfs := [];
       pairs := [(1, 1); (1, 2)]%Z;
       _fields := []; field_trans := []; fields := []; _table := [];
       log_returns := []; returns := []; paths := [] |}.

(** A collaborator on Python values that raises on the pairs whose first
    parameter is 3. *)
Definition refusing_backtest (p_1 p_2 : pyval) : result (Out float unit) :=
  if py_eqb p_1 (PInt 3) then Raise (CollaboratorError "no signal")
  else Ok sample_out.

(** An object over the floats whose balance paths end at 3.5, 1.25 and 2. *)
Definition ranked_floats : Optimizer Z float unit :=
  extract_dailys
    {| raw_stats := [];
       raw_dailys :=
         [((1, 1)%Z, {| daily_lreturn := []; daily_returns := [];
                        daily_balance := [1; 3.5]%float |});
          ((1, 2)%Z, {| daily_lreturn := []; daily_returns := [];
                        daily_balance := [1; 1.25]%float |});
          ((2, 1)%Z, {| daily_lreturn := []; daily_returns := [];
                        daily_balance := [1; 2]%float |})];
       raw_positions := []; raw_dfs := [];
       pairs := [(1, 1); (1, 2); (2, 1)]%Z;
       _fields := []; field_trans := []; fields := []; _table := [];
       log_returns := []; returns := []; paths := [] |}.

(* ===================================================================== *)
(** * Part II. Lemmas and theorems                                        *)
(* ===================================================================== *)

(** ** The error monad *)

Lemma bind_ok {A B : Type} (c : result A) (k : A -> result B) (b : B) :
  bind c k = Ok b -> exists a, c = Ok a /\ k a = Ok b.
Proof.
  destruct c as [a|e]; simpl; intros H; [exists a; auto | discriminate].
Qed.

Lemma mapM_ok_nth {A B : Type} (f : A -> result B) (l : list A) (bs : list B) :
  mapM f l = Ok bs ->
  List.length bs = List.length l /\
  forall i da db, i < List.length l -> f (nth i l da) = Ok (nth i bs db).
Proof.
  revert bs. induction l as [|a l IH]; simpl; intros bs H.
  - injection H as <-. split; [reflexivity | intros; lia].
  - apply bind_ok in H. destruct H as (b & Hb & H).
    apply bind_ok in H. destruct H as (bs' & Hbs & H).
    injection H as <-. destruct (IH _ Hbs) as [Hlen Hnth].
    split; [simpl; congruence|].
    intros [|i] da db Hi; simpl; [assumption | apply Hnth; lia].
Qed.

Lemma mapM_total {A B : Type} (f : A -> result B) (l : list A) :
  (forall a, In a l -> is_ok (f a) = true) -> is_ok (mapM f l) = true.
Proof.
  induction l as [|a l IH]; simpl; intros H; [reflexivity|].
  assert (Ha : is_ok (f a) = true) by (apply H; auto).
  destruct (f a) as [b|e]; [simpl | discriminate].
  assert (Hl : is_ok (mapM f l) = true) by (apply IH; intros; apply H; auto).
  destruct (mapM f l); [reflexivity | discriminate].
Qed.

Lemma mapM_pure {A B : Type} (f : A -> result B) (g : A -> B) (l : list A) :
  (forall a, In a l -> f a = Ok (g a)) -> mapM f l = Ok (map g l).
Proof.
  induction l as [|a l IH]; simpl; intros H; [reflexivity|].
  rewrite (H a) by auto. simpl. rewrite IH by auto. reflexivity.
Qed.

Lemma range_nth (n i : nat) : i < n -> nth i (range n) 0 = i.
Proof. intros H. unfold range. rewrite seq_nth by assumption. reflexivity. Qed.

Lemma range_length (n : nat) : List.length (range n) = n.
Proof. apply length_seq. Qed.

(** ** [get_pairs] *)

Lemma get_pairs_cons {A B : Type} (a : A) (sp_1 : list A) (sp_2 : list B) :
  get_pairs (a :: sp_1) sp_2 = map (pair a) sp_2 ++ get_pairs sp_1 sp_2.
Proof. reflexivity. Qed.

Lemma get_pairs_length {A B : Type} (sp_1 : list A) (sp_2 : list B) :
  List.length (get_pairs sp_1 sp_2) = List.length sp_1 * List.length sp_2.
Proof.
  induction sp_1 as [|a sp_1 IH]; [reflexivity|].
  rewrite get_pairs_cons, length_app, length_map, IH. reflexivity.
Qed.

Lemma get_pairs_In {A B : Type} (sp_1 : list A) (sp_2 : list B) (a : A) (b : B) :
  In (a, b) (get_pairs sp_1 sp_2) <-> In a sp_1 /\ In b sp_2.
Proof.
  induction sp_1 as [|x sp_1 IH]; simpl.
  - tauto.
  - fold (get_pairs sp_1 sp_2). rewrite in_app_iff, in_map_iff, IH. split.
    + intros [(y & Hy & Hin) | [H1 H2]]; [injection Hy as -> ->; auto | auto].
    + intros [[-> | H1] H2]; [left; exists b; auto | auto].
Qed.

Lemma get_pairs_nth {A B : Type} (sp_1 : list A) (sp_2 : list B) (i j : nat) (d : A * B) :
  i < List.length sp_1 -> j < List.length sp_2 ->
  nth (i * List.length sp_2 + j) (get_pairs sp_1 sp_2) d
  = (nth i sp_1 (fst d), nth j sp_2 (snd d)).
Proof.
  revert i. induction sp_1 as [|a sp_1 IH]; simpl; intros i Hi Hj; [lia|].
  fold (get_pairs sp_1 sp_2). destruct i as [|i].
  - simpl. rewrite app_nth1 by (rewrite length_map; assumption).
    rewrite (nth_indep _ d (a, snd d)) by (rewrite length_map; assumption).
    apply (map_nth (pair a)).
  - rewrite app_nth2 by (rewrite length_map; simpl; lia).
    rewrite length_map.
    replace (S i * List.length sp_2 + j - List.length sp_2)
      with (i * List.length sp_2 + j) by (simpl; lia).
    apply IH; [lia | assumption].
Qed.

Lemma NoDup_map_pair {A B : Type} (a : A) (l : list B) :
  NoDup l -> NoDup (map (pair a) l).
Proof.
  induction 1 as [|b l Hb Hl IH]; simpl; constructor; [|assumption].
  rewrite in_map_iff. intros (y & Hy & Hin). injection Hy as ->. contradiction.
Qed.

Lemma get_pairs_NoDup {A B : Type} (sp_1 : list A) (sp_2 : list B) :
  NoDup sp_1 -> NoDup sp_2 -> NoDup (get_pairs sp_1 sp_2).
Proof.
  intros H1 H2. induction H1 as [|a sp_1 Ha H1 IH]; [constructor|].
  rewrite get_pairs_cons. apply NoDup_app.
  - apply NoDup_map_pair; assumption.
  - assumption.
  - intros [x y] Hin Hin'. apply in_map_iff in Hin.
    destruct Hin as (b & Hb & _). injection Hb as <- <-.
    apply get_pairs_In in Hin'. tauto.
Qed.

(** C2.  The pair builder returns the full cross product of the two
    progressions: [m * n] pairs, pair number [i * n + j] being the [i]-th
    value of the first with the [j]-th value of the second (so all the pairs
    of a first value come together, in the order of the second
    progression), every combination and nothing else; and no pair occurs
    twice when neither progression repeats a value. *)
Theorem get_pairs_cross_product {A B : Type} (sp_1 : list A) (sp_2 : list B) :
  List.length (get_pairs sp_1 sp_2) = List.length sp_1 * List.length sp_2
  /\ (forall i j d, i < List.length sp_1 -> j < List.length sp_2 ->
        nth (i * List.length sp_2 + j) (get_pairs sp_1 sp_2) d
        = (nth i sp_1 (fst d), nth j sp_2 (snd d)))
  /\ (forall a b, In (a, b) (get_pairs sp_1 sp_2) <-> In a sp_1 /\ In b sp_2)
  /\ (NoDup sp_1 -> NoDup sp_2 -> NoDup (get_pairs sp_1 sp_2)).
Proof.
  split; [apply get_pairs_length|].
  split; [intros; apply get_pairs_nth; assumption|].
  split; [intros; apply get_pairs_In|].
  apply get_pairs_NoDup.
Qed.

Lemma get_pairs_cross_product_witness :
  NoDup (get_pairs [1; 2] [3; 4; 5]).
Proof.
  apply (get_pairs_cross_product [1; 2] [3; 4; 5]);
    repeat constructor; simpl; intuition discriminate.
Defined.

(** ** [progression] *)

(** C9.  When the start element of a spec of length 2 or 3 is itself a
    sequence, [progression] returns that sequence as it is, whatever the
    step and the mode are. *)
Theorem progression_sequence_start (start step mode : pyval) :
  is_Sequence start = true ->
  progression [start; step; mode] = Ok start
  /\ progression [start; step] = Ok start.
Proof.
  intros H. unfold progression. simpl. rewrite H. split; reflexivity.
Qed.

Lemma progression_sequence_start_witness :
  progression [PList [PInt 10; PInt 20; PInt 50]; PNone; PStr "bogus"]
    = Ok (PList [PInt 10; PInt 20; PInt 50])
  /\ progression [PList [PInt 10; PInt 20; PInt 50]; PNone]
    = Ok (PList [PInt 10; PInt 20; PInt 50]).
Proof.
  apply (progression_sequence_start
           (PList [PInt 10; PInt 20; PInt 50]) PNone (PStr "bogus")).
  reflexivity.
Defined.

Lemma progression_geo (start step mode : pyval) :
  is_Sequence start = false -> eq_str mode "geo" = true ->
  progression [start; step; mode]
  = (_t <- mapM (geo_elem start step) (range 10) ;;
     if is_int start then t <- mapM py_int _t ;; Ok (PTuple t)
     else Ok (PTuple _t)).
Proof.
  intros Hs Hm. unfold progression. cbn [unpack_sp bind].
  rewrite Hs, Hm. reflexivity.
Qed.

Lemma progression_lin (start step mode : pyval) :
  is_Sequence start = false -> eq_str mode "geo" = false ->
  eq_str mode "lin" = true ->
  progression [start; step; mode]
  = (t <- mapM (lin_elem start step) (range 10) ;; Ok (PTuple t)).
Proof.
  intros Hs Hg Hm. unfold progression. cbn [unpack_sp bind].
  rewrite Hs, Hg, Hm. reflexivity.
Qed.

(** Whenever [progression] returns on a spec with a scalar start, it
    returns a tuple of 10 values, the [i]-th being the specified one. *)
Lemma progression_sound (start step mode v : pyval) :
  is_Sequence start = false ->
  eq_str mode "geo" || eq_str mode "lin" = true ->
  progression [start; step; mode] = Ok v ->
  exists l, v = PTuple l /\ List.length l = 10 /\
    forall i, i < 10 -> progression_elem start step mode i = Ok (nth i l PNone).
Proof.
  intros Hs Hm H. unfold progression_elem.
  destruct (eq_str mode "geo") eqn:Hg.
  - rewrite progression_geo in H by assumption.
    apply bind_ok in H. destruct H as (_t & Ht & H).
    apply mapM_ok_nth in Ht. destruct Ht as [Hlen Hnth].
    rewrite range_length in Hlen.
    destruct (is_int start).
    + apply bind_ok in H. destruct H as (t & Ht & H). injection H as <-.
      apply mapM_ok_nth in Ht. destruct Ht as [Hlen' Hnth'].
      exists t. split; [reflexivity|]. split; [congruence|].
      intros i Hi. specialize (Hnth i 0 PNone). rewrite range_length in Hnth.
      rewrite range_nth in Hnth by assumption. rewrite Hnth by assumption.
      simpl. apply Hnth'. lia.
    + injection H as <-. exists _t. split; [reflexivity|]. split; [assumption|].
      intros i Hi. specialize (Hnth i 0 PNone). rewrite range_length in Hnth.
      rewrite range_nth in Hnth by assumption. rewrite Hnth by assumption.
      reflexivity.
  - simpl in Hm. rewrite progression_lin in H by assumption.
    apply bind_ok in H. destruct H as (t & Ht & H). injection H as <-.
    apply mapM_ok_nth in Ht. destruct Ht as [Hlen Hnth].
    rewrite range_length in Hlen, Hnth.
    exists t. split; [reflexivity|]. split; [assumption|].
    intros i Hi. specialize (Hnth i 0 PNone Hi).
    rewrite range_nth in Hnth by assumption. assumption.
Qed.

(** It returns as soon as each of the 10 elements can be computed. *)
Lemma progression_returns (start step mode : pyval) :
  is_Sequence start = false ->
  eq_str mode "geo" || eq_str mode "lin" = true ->
  (forall i, i < 10 -> is_ok (progression_elem start step mode i) = true) ->
  is_ok (progression [start; step; mode]) = true.
Proof.
  intros Hs Hm H. unfold progression_elem in H.
  assert (Hin : forall i, In i (range 10) -> i < 10)
    by (intros i Hi; apply in_seq in Hi; lia).
  destruct (eq_str mode "geo") eqn:Hg.
  - rewrite progression_geo by assumption.
    assert (Hgeo : is_ok (mapM (geo_elem start step) (range 10)) = true).
    { apply mapM_total. intros i Hi. specialize (H i (Hin i Hi)).
      destruct (geo_elem start step i); [reflexivity | discriminate]. }
    destruct (mapM (geo_elem start step) (range 10)) as [_t|e] eqn:Ht;
      [simpl | discriminate].
    destruct (is_int start); [|reflexivity].
    assert (Hint : is_ok (mapM py_int _t) = true).
    { apply mapM_ok_nth in Ht. destruct Ht as [Hlen Hnth].
      rewrite range_length in Hlen, Hnth.
      apply mapM_total. intros x Hx.
      destruct (In_nth _ _ PNone Hx) as (i & Hi & <-).
      rewrite Hlen in Hi. specialize (H i Hi).
      specialize (Hnth i 0 PNone Hi). rewrite range_nth in Hnth by assumption.
      rewrite Hnth in H. exact H. }
    destruct (mapM py_int _t); [reflexivity | discriminate].
  - simpl in Hm. rewrite progression_lin by assumption.
    assert (Hlin : is_ok (mapM (lin_elem start step) (range 10)) = true).
    { apply mapM_total. intros i Hi. exact (H i (Hin i Hi)). }
    destruct (mapM (lin_elem start step) (range 10)); [reflexivity | discriminate].
Qed.

(** On [int]s nothing can raise: the progression is computed exactly. *)
Lemma progression_int (a b : Z) :
  progression [PInt a; PInt b; PStr "geo"]
    = Ok (PTuple (map (fun i => PInt (a * b ^ Z.of_nat i)) (range 10)))
  /\ progression [PInt a; PInt b; PStr "lin"]
    = Ok (PTuple (map (fun i => PInt (a + b * Z.of_nat i)) (range 10))).
Proof.
  split.
  - rewrite progression_geo by reflexivity.
    rewrite (mapM_pure _ (fun i => PInt (a * b ^ Z.of_nat i))) by reflexivity.
    cbn [bind is_int].
    rewrite (mapM_pure _ (fun x => x)).
    + rewrite map_id. reflexivity.
    + intros x Hx. apply in_map_iff in Hx. destruct Hx as (i & <- & _). reflexivity.
  - rewrite progression_lin by reflexivity.
    rewrite (mapM_pure _ (fun i => PInt (a + b * Z.of_nat i))) by reflexivity.
    reflexivity.
Qed.

(** C1, as amended.  On a spec with a scalar start and the geometric or the
    linear mode, [progression] computes ten elements in order and returns
    the tuple of exactly these 10 values: element [i] is [start * step**i],
    cast to [int] by truncation when [start] is an [int], in geometric
    mode, and [round(start + step*i, 5)] in linear mode.  It returns
    whenever each element can be computed (an element whose arithmetic
    raises ends the call with that exception), and always does when start
    and step are both [int]s.  A spec of length 2 is geometric.  For
    (100, 1.25, 'geo') the progression starts 100, 125 and ends
    int(100 * 1.25**9) = 745; for (0.1, 0.1, 'lin') it is 0.1, 0.2, ...,
    1.0. *)
Theorem progression_ten_values :
  (forall start step mode v,
      is_Sequence start = false ->
      eq_str mode "geo" || eq_str mode "lin" = true ->
      progression [start; step; mode] = Ok v ->
      exists l, v = PTuple l /\ List.length l = 10 /\
        forall i, i < 10 ->
          progression_elem start step mode i = Ok (nth i l PNone))
  /\ (forall start step mode,
      is_Sequence start = false ->
      eq_str mode "geo" || eq_str mode "lin" = true ->
      (forall i, i < 10 -> is_ok (progression_elem start step mode i) = true) ->
      is_ok (progression [start; step; mode]) = true)
  /\ (forall start step,
      progression [start; step] = progression [start; step; PStr "geo"])
  /\ (forall a b : Z,
      progression [PInt a; PInt b; PStr "geo"]
        = Ok (PTuple (map (fun i => PInt (a * b ^ Z.of_nat i)) (range 10)))
      /\ progression [PInt a; PInt b; PStr "lin"]
        = Ok (PTuple (map (fun i => PInt (a + b * Z.of_nat i)) (range 10))))
  /\ progression [PInt 100; PFloat 1.25; PStr "geo"]
     = Ok (PTuple (map PInt [100; 125; 156; 195; 244; 305; 381; 476; 596; 745]%Z))
  /\ progression [PFloat 0.1; PFloat 0.1; PStr "lin"]
     = Ok (PTuple (map PFloat [0.1; 0.2; 0.3; 0.4; 0.5; 0.6; 0.7; 0.8; 0.9; 1.0]%float)).
Proof.
  split; [exact progression_sound|].
  split; [exact progression_returns|].
  split; [reflexivity|].
  split; [exact progression_int|].
  split; vm_compute; reflexivity.
Qed.

Lemma progression_ten_values_witness :
  exists l,
    PTuple (map PInt [3; 6; 12; 24; 48; 96; 192; 384; 768; 1536]%Z) = PTuple l
    /\ List.length l = 10
    /\ forall i, i < 10 ->
         progression_elem (PInt 3) (PFloat 2) (PStr "geo") i = Ok (nth i l PNone).
Proof.
  apply (proj1 progression_ten_values (PInt 3) (PFloat 2) (PStr "geo"));
    vm_compute; reflexivity.
Defined.

(** C1 as it is stated fails where an element overflows: with start 100
    and step 1e40 the float power [1e40 ** 8] raises [OverflowError], and
    no sequence is returned. *)
Lemma progression_overflow_counterexample :
  is_Sequence (PInt 100) = false
  /\ progression [PInt 100; PFloat 1e40; PStr "geo"] = Raise OverflowError
  /\ ~ (exists l, progression [PInt 100; PFloat 1e40; PStr "geo"] = Ok (PTuple l)
                  /\ List.length l = 10).
Proof.
  split; [reflexivity|].
  assert (H : progression [PInt 100; PFloat 1e40; PStr "geo"] = Raise OverflowError)
    by (vm_compute; reflexivity).
  split; [exact H|].
  intros (l & Hl & _). rewrite H in Hl. discriminate.
Qed.

(** ** The sweep and the constructor *)

Section Sweep.

Variables K R T : Type.
Context {key : Key K} {num : Num R}.
Variable backtest : K -> K -> result (Out R T).

(** The pairs [calc] is called on are the first pairs of the list, in the
    order of the list. *)
Lemma calc_loop_prefix (self : Optimizer K R T) (ps : list (K * K)) :
  exists rest, ps = fst (calc_loop backtest self ps) ++ rest.
Proof.
  revert self. induction ps as [|p ps IH]; intros self; simpl.
  - exists []. reflexivity.
  - destruct (calc backtest self (fst p) (snd p)) as [self'|e].
    + destruct (IH self') as [rest Hrest].
      destruct (calc_loop backtest self' ps) as [called r]. simpl in *.
      exists rest. congruence.
    + exists ps. reflexivity.
Qed.

(** A loop that ends normally has called [calc] on every pair. *)
Lemma calc_loop_ok (self self' : Optimizer K R T) (ps called : list (K * K)) :
  calc_loop backtest self ps = (called, Ok self') -> called = ps.
Proof.
  revert self called. induction ps as [|p ps IH]; intros self called; simpl.
  - intros H. injection H as <- _. reflexivity.
  - destruct (calc backtest self (fst p) (snd p)) as [self1|e]; [|discriminate].
    destruct (calc_loop backtest self1 ps) as [called' r] eqn:Hloop.
    intros H. injection H as <- ->. f_equal. eapply IH. eassumption.
Qed.

(** When [calc] returns on each pair, the loop calls it on all of them. *)
Lemma calc_loop_total (self : Optimizer K R T) (ps : list (K * K)) :
  (forall q s, In q ps -> is_ok (calc backtest s (fst q) (snd q)) = true) ->
  fst (calc_loop backtest self ps) = ps
  /\ is_ok (snd (calc_loop backtest self ps)) = true.
Proof.
  revert self. induction ps as [|p ps IH]; intros self H; simpl.
  - split; reflexivity.
  - assert (Hp : is_ok (calc backtest self (fst p) (snd p)) = true)
      by (apply H; left; reflexivity).
    destruct (calc backtest self (fst p) (snd p)) as [self'|e]; [|discriminate].
    destruct (IH self') as [Hfst Hsnd]; [intros; apply H; right; assumption|].
    destruct (calc_loop backtest self' ps) as [called r]. simpl in *.
    split; [congruence | assumption].
Qed.

Lemma sweep_called (ps : list (K * K)) :
  fst (sweep backtest ps) = fst (calc_loop backtest (new ps) ps).
Proof.
  unfold sweep. destruct (calc_loop backtest (new ps) ps). reflexivity.
Qed.

Lemma sweep_ok (ps : list (K * K)) (self : Optimizer K R T) :
  snd (sweep backtest ps) = Ok self -> fst (sweep backtest ps) = ps.
Proof.
  unfold sweep. destruct (calc_loop backtest (new ps) ps) as [called r] eqn:H.
  simpl. destruct r as [self1|e]; [|discriminate].
  intros _. eapply calc_loop_ok. eassumption.
Qed.

End Sweep.

Lemma progression_iterable (sp : list pyval) (s : pyval) :
  progression sp = Ok s -> exists l, py_iter s = Ok l.
Proof.
  unfold progression. intros H.
  apply bind_ok in H. destruct H as ([[start step] mode] & _ & H).
  destruct (is_Sequence start) eqn:Hs.
  - injection H as <-. destruct start; try discriminate; simpl; eauto.
  - destruct (eq_str mode "geo").
    + apply bind_ok in H. destruct H as (_t & _ & H).
      destruct (is_int start).
      * apply bind_ok in H. destruct H as (t & _ & H). injection H as <-.
        simpl. eauto.
      * injection H as <-. simpl. eauto.
    + destruct (eq_str mode "lin"); [|discriminate].
      apply bind_ok in H. destruct H as (t & _ & H). injection H as <-.
      simpl. eauto.
Qed.

(** A malformed spec makes [progression] raise one of its two
    [ValueError]s. *)
Lemma progression_malformed (sp : list pyval) :
  malformed sp = true ->
  exists e, progression sp = Raise e /\ is_ConfigurationError e = true.
Proof.
  intros H. unfold progression.
  destruct sp as [|start [|step [|mode [|x sp]]]]; simpl in *;
    try discriminate;
    try (eexists; split; [reflexivity | reflexivity]).
  apply andb_prop in H. destruct H as [H Hlin].
  apply andb_prop in H. destruct H as [Hs Hgeo].
  apply negb_true_iff in Hs, Hgeo, Hlin. rewrite Hs, Hgeo, Hlin.
  eexists; split; reflexivity.
Qed.

Lemma progression_ok_truthy (sp : list pyval) (s : pyval) :
  progression sp = Ok s -> truthy sp = true.
Proof. destruct sp; [discriminate | reflexivity]. Qed.

Section SweepPairs.

Variables K R T : Type.
Context {key : Key K} {num : Num R}.
Variable backtest : K -> K -> result (Out R T).

Lemma calc_pairs (self self' : Optimizer K R T) (p_1 p_2 : K) :
  calc backtest self p_1 p_2 = Ok self' -> pairs self' = pairs self.
Proof.
  unfold calc. intros H.
  apply bind_ok in H. destruct H as (out & _ & H).
  apply bind_ok in H. destruct H as (u & _ & H).
  injection H as <-. reflexivity.
Qed.

Lemma calc_loop_pairs (self self' : Optimizer K R T) (ps called : list (K * K)) :
  calc_loop backtest self ps = (called, Ok self') -> pairs self' = pairs self.
Proof.
  revert self called. induction ps as [|p ps IH]; intros self called; simpl.
  - intros H. injection H as _ <-. reflexivity.
  - destruct (calc backtest self (fst p) (snd p)) as [self1|e] eqn:Hcalc;
      [|discriminate].
    destruct (calc_loop backtest self1 ps) as [called' r] eqn:Hloop.
    intros H. injection H as _ ->.
    rewrite (IH _ _ Hloop). eapply calc_pairs. eassumption.
Qed.

Lemma extract_stats_pairs (self self' : Optimizer K R T) :
  extract_stats self = Ok self' -> pairs self' = pairs self.
Proof.
  unfold extract_stats. intros H.
  apply bind_ok in H. destruct H as (last_pair & _ & H).
  apply bind_ok in H. destruct H as (u & _ & H).
  apply bind_ok in H. destruct H as (reference & _ & H).
  apply bind_ok in H. destruct H as (table & _ & H).
  injection H as <-. reflexivity.
Qed.

Lemma sweep_pairs (ps : list (K * K)) (self : Optimizer K R T) :
  snd (sweep backtest ps) = Ok self -> pairs self = ps.
Proof.
  unfold sweep. destruct (calc_loop backtest (new ps) ps) as [called r] eqn:Hloop.
  simpl. intros H.
  apply bind_ok in H. destruct H as (self1 & -> & H).
  apply bind_ok in H. destruct H as (self2 & Hstats & H).
  injection H as <-. simpl.
  rewrite (extract_stats_pairs _ Hstats).
  apply (calc_loop_pairs _ _ Hloop).
Qed.

End SweepPairs.

Unset Implicit Arguments.

Section SweepStops.

Context {K R T : Type} {key : Key K} {num : Num R}.
Variable backtest : K -> K -> result (Out R T).

(** [calc] returns exactly when the backtest returns and the pair can key
    the stores. *)
Lemma calc_is_ok (self : Optimizer K R T) (p_1 p_2 : K) :
  is_ok (calc backtest self p_1 p_2)
  = is_ok (backtest p_1 p_2) && (hashable p_1 && hashable p_2).
Proof.
  unfold calc, hash_key. destruct (backtest p_1 p_2) as [o|e]; [|reflexivity].
  cbn [bind fst snd is_ok andb].
  destruct (hashable p_1 && hashable p_2); reflexivity.
Qed.

Lemma calc_raises (self : Optimizer K R T) (p_1 p_2 : K) (e : exn) :
  backtest p_1 p_2 = Raise e -> calc backtest self p_1 p_2 = Raise e.
Proof. unfold calc. intros ->. reflexivity. Qed.

Lemma calc_unhashable (self : Optimizer K R T) (p_1 p_2 : K) :
  is_ok (backtest p_1 p_2) = true -> hashable p_1 && hashable p_2 = false ->
  calc backtest self p_1 p_2 = Raise TypeError.
Proof.
  unfold calc, hash_key. destruct (backtest p_1 p_2) as [o|e]; [|discriminate].
  intros _ H. cbn [bind fst snd]. rewrite H. reflexivity.
Qed.

(** The loop stops at the first pair on which [calc] raises. *)
Lemma calc_loop_stops (self : Optimizer K R T) (before after : list (K * K))
    (p : K * K) (e : exn) :
  (forall q s, In q before -> is_ok (calc backtest s (fst q) (snd q)) = true) ->
  (forall s, calc backtest s (fst p) (snd p) = Raise e) ->
  calc_loop backtest self (before ++ p :: after) = (before ++ [p], Raise e).
Proof.
  revert self. induction before as [|q before IH]; intros self Hok Hp.
  - simpl. rewrite Hp. reflexivity.
  - simpl. specialize (Hok q self (or_introl eq_refl)) as Hq.
    destruct (calc backtest self (fst q) (snd q)) as [self'|e']; [|discriminate].
    rewrite IH; [reflexivity | | assumption].
    intros q' s Hq'. apply Hok. right. assumption.
Qed.

Lemma sweep_stops (before after : list (K * K)) (p : K * K) (e : exn) :
  (forall q, In q before ->
     is_ok (backtest (fst q) (snd q)) = true
     /\ hashable (fst q) && hashable (snd q) = true) ->
  (forall s, calc backtest s (fst p) (snd p) = Raise e) ->
  sweep backtest (before ++ p :: after) = (before ++ [p], Raise e).
Proof.
  intros Hok Hp. unfold sweep.
  rewrite (calc_loop_stops _ before after p e).
  - reflexivity.
  - intros q s Hq. rewrite calc_is_ok. destruct (Hok q Hq) as [-> ->]. reflexivity.
  - assumption.
Qed.

Lemma sweep_all (ps : list (K * K)) :
  (forall q, In q ps ->
     is_ok (backtest (fst q) (snd q)) = true
     /\ hashable (fst q) && hashable (snd q) = true) ->
  fst (sweep backtest ps) = ps.
Proof.
  intros Hok. rewrite sweep_called. apply calc_loop_total.
  intros q s Hq. rewrite calc_is_ok. destruct (Hok q Hq) as [-> ->]. reflexivity.
Qed.

(** A loop that ends normally went through a backtest that returned, on
    each pair. *)
Lemma calc_loop_backtests (self self' : Optimizer K R T) (ps called : list (K * K)) :
  calc_loop backtest self ps = (called, Ok self') ->
  forall q, In q ps ->
    exists o, backtest (fst q) (snd q) = Ok o
              /\ hashable (fst q) && hashable (snd q) = true.
Proof.
  revert self called. induction ps as [|p ps IH]; intros self called H q Hq;
    [destruct Hq|].
  simpl in H.
  destruct (calc backtest self (fst p) (snd p)) as [self1|e] eqn:Hcalc;
    [|discriminate].
  destruct (calc_loop backtest self1 ps) as [called' r] eqn:Hloop.
  injection H as _ ->. destruct Hq as [<- | Hq]; [|eapply IH; eassumption].
  pose proof (calc_is_ok self (fst p) (snd p)) as Hok. rewrite Hcalc in Hok.
  simpl in Hok. symmetry in Hok. apply andb_prop in Hok. destruct Hok as [Hb Hh].
  destruct (backtest (fst p) (snd p)) as [o|e]; [|discriminate].
  exists o. auto.
Qed.

Lemma sweep_backtests (ps : list (K * K)) (obj : Optimizer K R T) :
  snd (sweep backtest ps) = Ok obj ->
  forall q, In q ps ->
    exists o, backtest (fst q) (snd q) = Ok o
              /\ hashable (fst q) && hashable (snd q) = true.
Proof.
  unfold sweep. destruct (calc_loop backtest (new ps) ps) as [called r] eqn:H.
  simpl. destruct r as [self|e]; [|discriminate].
  intros _. eapply calc_loop_backtests. eassumption.
Qed.

End SweepStops.

Set Implicit Arguments.

(** The pair builder gives the cross product of the standard library. *)
Lemma get_pairs_list_prod {A B : Type} (sp_1 : list A) (sp_2 : list B) :
  get_pairs sp_1 sp_2 = list_prod sp_1 sp_2.
Proof.
  induction sp_1 as [|a sp_1 IH]; [reflexivity|].
  rewrite get_pairs_cons, IH. reflexivity.
Qed.

(** C3, as amended.  Whenever a pairs list that is not empty is passed to
    the constructor, the construction is the sweep of that list and does not
    depend on [sp_1] and [sp_2], whose progressions are not generated.  The
    backtest is invoked on the listed pairs in list order, once per listed
    pair, and stops at the first pair whose backtest raises (the
    construction ends with that exception) or whose result cannot be stored
    because the pair is not hashable (it ends with [TypeError]).  When the
    backtest of every listed pair returns and every listed pair is
    hashable, exactly the listed pairs are evaluated; and a construction
    that ends normally evaluated exactly the listed pairs, which the object
    holds. *)
Theorem explicit_pairs_are_evaluated {R T : Type} {num : Num R}
    (backtest : pyval -> pyval -> result (Out R T))
    (sp_1 sp_2 : list pyval) (p : pyval * pyval) (ps : list (pyval * pyval)) :
  __init__ backtest sp_1 sp_2 (Some (p :: ps)) = sweep backtest (p :: ps)
  /\ (forall sp_1' sp_2',
        __init__ backtest sp_1' sp_2' (Some (p :: ps))
        = __init__ backtest sp_1 sp_2 (Some (p :: ps)))
  /\ (exists rest,
        p :: ps = fst (__init__ backtest sp_1 sp_2 (Some (p :: ps))) ++ rest)
  /\ ((forall q, In q (p :: ps) ->
         is_ok (backtest (fst q) (snd q)) = true
         /\ hashable (fst q) && hashable (snd q) = true) ->
      fst (__init__ backtest sp_1 sp_2 (Some (p :: ps))) = p :: ps)
  /\ (forall before q after,
        p :: ps = before ++ q :: after ->
        (forall q', In q' before ->
           is_ok (backtest (fst q') (snd q')) = true
           /\ hashable (fst q') && hashable (snd q') = true) ->
        (forall e, backtest (fst q) (snd q) = Raise e ->
           __init__ backtest sp_1 sp_2 (Some (p :: ps))
           = (before ++ [q], Raise e))
        /\ (is_ok (backtest (fst q) (snd q)) = true ->
            hashable (fst q) && hashable (snd q) = false ->
            __init__ backtest sp_1 sp_2 (Some (p :: ps))
            = (before ++ [q], Raise TypeError)))
  /\ (forall self,
        snd (__init__ backtest sp_1 sp_2 (Some (p :: ps))) = Ok self ->
        fst (__init__ backtest sp_1 sp_2 (Some (p :: ps))) = p :: ps
        /\ pairs self = p :: ps
        /\ forall q, In q (p :: ps) ->
             is_ok (backtest (fst q) (snd q)) = true
             /\ hashable (fst q) && hashable (snd q) = true).
Proof.
  assert (Hinit : forall s_1 s_2,
             __init__ backtest s_1 s_2 (Some (p :: ps)) = sweep backtest (p :: ps))
    by reflexivity.
  split; [apply Hinit|].
  split; [intros; rewrite !Hinit; reflexivity|].
  rewrite Hinit.
  split; [rewrite sweep_called; apply calc_loop_prefix|].
  split; [apply sweep_all|].
  split.
  - intros before q after Hsplit Hok. rewrite Hsplit. split.
    + intros e He. apply sweep_stops; [assumption|].
      intros s. apply calc_raises. assumption.
    + intros Hb Hh. apply sweep_stops; [assumption|].
      intros s. apply calc_unhashable; assumption.
  - intros self H.
    split; [eapply sweep_ok; eassumption|].
    split; [eapply sweep_pairs; eassumption|].
    intros q Hq. destruct (sweep_backtests _ _ _ H q Hq) as (o & -> & Hh).
    auto.
Qed.

Lemma explicit_pairs_are_evaluated_witness :
  fst (__init__ sample_backtest sp_1_default sp_2_default
         (Some [(PInt 1, PInt 2); (PInt 3, PInt 4)]))
  = [(PInt 1, PInt 2); (PInt 3, PInt 4)].
Proof.
  apply (explicit_pairs_are_evaluated sample_backtest sp_1_default sp_2_default
           (PInt 1, PInt 2) [(PInt 3, PInt 4)]).
  intros q [<- | [<- | []]]; split; reflexivity.
Defined.

(** C3 as it is stated fails for a pairs list that is empty: the grid of
    the two progressions is evaluated, 100 pairs with the default specs, and
    the specs are read (a spec of length 1 makes the construction raise).
    It also fails for a list with a pair on which the backtest raises, and
    for a list with a pair that is not hashable: the pairs after it are not
    evaluated. *)
Lemma empty_pairs_counterexample :
  List.length (fst (__init__ sample_backtest sp_1_default sp_2_default (Some []))) = 100
  /\ fst (__init__ sample_backtest sp_1_default sp_2_default (Some [])) <> []
  /\ __init__ sample_backtest [PInt 100] sp_2_default (Some [])
     = ([], Raise (ValueError msg_wrong_parameter))
  /\ __init__ refusing_backtest sp_1_default sp_2_default
       (Some [(PInt 1, PInt 2); (PInt 3, PInt 4); (PInt 5, PInt 6)])
     = ([(PInt 1, PInt 2); (PInt 3, PInt 4)],
        Raise (CollaboratorError "no signal"))
  /\ __init__ sample_backtest sp_1_default sp_2_default
       (Some [(PInt 1, PInt 2); (PList [PInt 3], PInt 4); (PInt 5, PInt 6)])
     = ([(PInt 1, PInt 2); (PList [PInt 3], PInt 4)], Raise TypeError).
Proof.
  split; [vm_compute; reflexivity|].
  split; [|split; [vm_compute; reflexivity|split; vm_compute; reflexivity]].
  intros Hnil. apply (f_equal (@List.length _)) in Hnil.
  revert Hnil. vm_compute. discriminate.
Qed.

(** C10.  An empty pairs list is treated as no list: the construction is
    the one without the argument.  The progressions are generated (the
    construction raises what generating the first one raises), their
    elements are iterated (for a tuple or a list, its items), and the grid
    that is swept is their full cross product, in the order of the standard
    cross product of two lists: every pair of it is backtested when each
    backtest returns and each pair is hashable, the sweep stops at the
    first pair whose backtest raises, and a construction that ends normally
    has had a returning backtest for every pair of the cross product. *)
Theorem empty_pairs_use_progressions {R T : Type} {num : Num R}
    (backtest : pyval -> pyval -> result (Out R T)) (sp_1 sp_2 : list pyval) :
  __init__ backtest sp_1 sp_2 (Some []) = __init__ backtest sp_1 sp_2 None
  /\ (forall l, py_iter (PTuple l) = Ok l /\ py_iter (PList l) = Ok l)
  /\ (forall e, truthy sp_1 && truthy sp_2 = true ->
        progression sp_1 = Raise e ->
        __init__ backtest sp_1 sp_2 (Some []) = ([], Raise e))
  /\ (forall s_1 s_2,
        progression sp_1 = Ok s_1 -> progression sp_2 = Ok s_2 ->
        is_ok (py_iter s_1) = true /\ is_ok (py_iter s_2) = true)
  /\ (forall s_1 s_2 l_1 l_2,
        progression sp_1 = Ok s_1 -> progression sp_2 = Ok s_2 ->
        py_iter s_1 = Ok l_1 -> py_iter s_2 = Ok l_2 ->
        ((forall a b, In a l_1 -> In b l_2 ->
            is_ok (backtest a b) = true /\ hashable a && hashable b = true) ->
         fst (__init__ backtest sp_1 sp_2 (Some [])) = list_prod l_1 l_2)
        /\ (forall before q after e,
              list_prod l_1 l_2 = before ++ q :: after ->
              (forall q', In q' before ->
                 is_ok (backtest (fst q') (snd q')) = true
                 /\ hashable (fst q') && hashable (snd q') = true) ->
              backtest (fst q) (snd q) = Raise e ->
              __init__ backtest sp_1 sp_2 (Some []) = (before ++ [q], Raise e))
        /\ (forall obj,
              snd (__init__ backtest sp_1 sp_2 (Some [])) = Ok obj ->
              fst (__init__ backtest sp_1 sp_2 (Some [])) = list_prod l_1 l_2
              /\ pairs obj = list_prod l_1 l_2
              /\ forall a b, In a l_1 -> In b l_2 ->
                   is_ok (backtest a b) = true)).
Proof.
  split; [reflexivity|].
  split; [intros l; split; reflexivity|].
  split.
  { intros e Ht He. unfold __init__, pairs_or_grid. simpl truthy_pairs.
    rewrite Ht, He. reflexivity. }
  split.
  { intros s_1 s_2 H1 H2.
    destruct (progression_iterable _ H1) as [l_1 ->].
    destruct (progression_iterable _ H2) as [l_2 ->]. split; reflexivity. }
  intros s_1 s_2 l_1 l_2 H1 H2 Hl1 Hl2.
  assert (Hinit : __init__ backtest sp_1 sp_2 (Some [])
                  = sweep backtest (list_prod l_1 l_2)).
  { unfold __init__, pairs_or_grid. simpl truthy_pairs.
    rewrite (progression_ok_truthy _ H1), (progression_ok_truthy _ H2).
    simpl. rewrite H1, H2. simpl. rewrite Hl1, Hl2. simpl.
    rewrite get_pairs_list_prod. reflexivity. }
  rewrite Hinit. split; [|split].
  - intros Hok. apply sweep_all. intros [a b] Hq.
    apply in_prod_iff in Hq. apply Hok; tauto.
  - intros before q after e Hsplit Hok He. rewrite Hsplit.
    apply sweep_stops; [assumption|].
    intros s. apply calc_raises. assumption.
  - intros obj H.
    split; [eapply sweep_ok; eassumption|].
    split; [eapply sweep_pairs; eassumption|].
    intros a b Ha Hb.
    destruct (sweep_backtests _ _ _ H (a, b)) as (o & Ho & _).
    + apply in_prod_iff. auto.
    + simpl in Ho. rewrite Ho. reflexivity.
Qed.

Lemma empty_pairs_use_progressions_witness :
  fst (__init__ sample_backtest sp_1_default sp_2_default (Some []))
  = list_prod (map PInt [100; 125; 156; 195; 244; 305; 381; 476; 596; 745]%Z)
      (map PFloat [0.1; 0.2; 0.3; 0.4; 0.5; 0.6; 0.7; 0.8; 0.9; 1.0]%float).
Proof.
  refine (proj1 (proj2 (proj2 (proj2 (proj2 (empty_pairs_use_progressions
                   sample_backtest sp_1_default sp_2_default))))
            (PTuple (map PInt [100; 125; 156; 195; 244; 305; 381; 476; 596; 745]%Z))
            (PTuple (map PFloat
                       [0.1; 0.2; 0.3; 0.4; 0.5; 0.6; 0.7; 0.8; 0.9; 1.0]%float))
            (map PInt [100; 125; 156; 195; 244; 305; 381; 476; 596; 745]%Z)
            (map PFloat [0.1; 0.2; 0.3; 0.4; 0.5; 0.6; 0.7; 0.8; 0.9; 1.0]%float)
            _ _ _ _) _).
  - vm_compute. reflexivity.
  - vm_compute. reflexivity.
  - reflexivity.
  - reflexivity.
  - intros a b Ha Hb. split; [reflexivity|].
    apply in_map_iff in Ha, Hb.
    destruct Ha as (x & <- & _). destruct Hb as (y & <- & _). reflexivity.
Defined.

(** C6, as amended.  A spec whose length is neither 2 nor 3, or whose
    length is 3 with a scalar start and a mode that is neither ['geo'] nor
    ['lin'], makes [progression] raise a configuration error.  When no
    pairs list, or an empty one, is passed, the construction then raises
    before any backtest runs: a configuration error when the malformed spec
    is [sp_1], and also when it is [sp_2] unless generating the progression
    of [sp_1] raises first. *)
Theorem malformed_spec_raises :
  (forall sp, malformed sp = true ->
     exists e, progression sp = Raise e /\ is_ConfigurationError e = true)
  /\ (forall (R T : Type) (num : Num R)
        (backtest : pyval -> pyval -> result (Out R T))
        (sp_1 sp_2 : list pyval) (pairs : option (list (pyval * pyval))),
      truthy_pairs pairs = false ->
      (malformed sp_1 = true ->
         exists e, __init__ backtest sp_1 sp_2 pairs = ([], Raise e)
                   /\ is_ConfigurationError e = true)
      /\ (malformed sp_2 = true ->
         exists e, __init__ backtest sp_1 sp_2 pairs = ([], Raise e)
                   /\ (is_ok (progression sp_1) = true ->
                       is_ConfigurationError e = true))).
Proof.
  split; [exact progression_malformed|].
  intros R T num backtest sp_1 sp_2 pairs Hp.
  assert (Hgrid : pairs_or_grid sp_1 sp_2 pairs
                  = (s_1 <- progression sp_1 ;; s_2 <- progression sp_2 ;;
                     l_1 <- py_iter s_1 ;; l_2 <- py_iter s_2 ;;
                     Ok (get_pairs l_1 l_2))).
  { destruct pairs as [[|q qs]|]; [reflexivity | discriminate | reflexivity]. }
  unfold __init__. rewrite Hp, Hgrid. simpl orb.
  split; intros Hm.
  - destruct (truthy sp_1 && truthy sp_2); simpl;
      [|eexists; split; reflexivity].
    destruct (progression_malformed _ Hm) as (e & -> & He).
    exists e. split; [reflexivity | assumption].
  - destruct (truthy sp_1 && truthy sp_2); simpl;
      [|eexists; split; reflexivity].
    destruct (progression sp_1) as [s_1|e1]; simpl.
    + destruct (progression_malformed _ Hm) as (e & -> & He).
      exists e. split; [reflexivity | intros _; assumption].
    + exists e1. split; [reflexivity | discriminate].
Qed.

Lemma malformed_spec_raises_witness :
  exists e,
    __init__ sample_backtest [PInt 100; PFloat 1.25; PStr "geo"; PNone]
      sp_2_default None = ([], Raise e)
    /\ is_ConfigurationError e = true.
Proof.
  apply (proj2 malformed_spec_raises float unit _ sample_backtest
           [PInt 100; PFloat 1.25; PStr "geo"; PNone] sp_2_default None);
    reflexivity.
Defined.

(** C6 as it is stated fails when a pairs list is passed: the specs are
    not read, a spec of length 4 raises nothing and the listed pair is
    backtested. *)
Lemma malformed_spec_ignored_counterexample :
  malformed [PInt 1; PInt 2; PInt 3; PInt 4] = true
  /\ is_ok (snd (__init__ sample_backtest [PInt 1; PInt 2; PInt 3; PInt 4]
                   sp_2_default (Some [(PInt 1, PInt 2)]))) = true
  /\ fst (__init__ sample_backtest [PInt 1; PInt 2; PInt 3; PInt 4]
            sp_2_default (Some [(PInt 1, PInt 2)])) = [(PInt 1, PInt 2)].
Proof. repeat split; vm_compute; reflexivity. Qed.

(** ** The analytics *)

Section Means.

Variable R : Type.
Context {num : Num R}.

Lemma valid_map_Some (vs : list R) :
  (forall v, In v vs -> num_isnan v = false) -> valid (map Some vs) = vs.
Proof.
  induction vs as [|v vs IH]; intros H; [reflexivity|].
  unfold valid in *. cbn [map flat_map notna].
  rewrite (H v) by (left; reflexivity). simpl. f_equal.
  apply IH. intros; apply H; right; assumption.
Qed.

Lemma nanmean_map_Some (vs : list R) :
  vs <> [] -> (forall v, In v vs -> num_isnan v = false) ->
  nanmean (map Some vs) = Some (arithmetic_mean vs).
Proof.
  intros Hne H. unfold nanmean. rewrite valid_map_Some by assumption.
  destruct vs; [contradiction | reflexivity].
Qed.

Lemma n_rows_ge {C : Type} (f : TimeFrame C R) (c : C * list R) :
  In c f -> List.length (snd c) <= n_rows f.
Proof.
  induction f as [|c' f IH]; simpl; intros H; [contradiction|].
  destruct H as [-> | H]; [lia | specialize (IH H); lia].
Qed.

Lemma mean_axis1_nth {C : Type} (f : TimeFrame C R) (t : nat) :
  t < n_rows f -> nth_error (mean_axis1 f) t = Some (nanmean (row_at f t)).
Proof.
  intros H. unfold mean_axis1.
  rewrite nth_error_map, nth_error_seq.
  destruct (Nat.ltb_spec t (n_rows f)); [reflexivity | lia].
Qed.

(** The running product over values that are all there. *)
Lemma cumprod_from_Some (a : R) (l : list R) (t : nat) :
  (forall x, In x l -> num_isnan x = false) -> t < List.length l ->
  nth_error (cumprod_from (Some a) (map Some l)) t
  = Some (Some (fold_left num_mul (firstn (S t) l) a)).
Proof.
  revert a t. induction l as [|x l IH]; intros a t Hnan Ht; [simpl in Ht; lia|].
  cbn [map cumprod_from notna]. rewrite (Hnan x) by (left; reflexivity).
  destruct t as [|t]; [reflexivity|].
  cbn [nth_error]. rewrite IH.
  - reflexivity.
  - intros; apply Hnan; right; assumption.
  - simpl in Ht. lia.
Qed.

Lemma cumprod_Some (l : list R) (t : nat) :
  (forall x, num_mul num_one x = x) ->
  (forall x, In x l -> num_isnan x = false) -> t < List.length l ->
  nth_error (cumprod (map Some l)) t
  = Some (Some (fold_left num_mul (firstn (S t) l) num_one)).
Proof.
  intros Hone Hnan Ht. unfold cumprod.
  destruct l as [|x l]; [simpl in Ht; lia|].
  cbn [map cumprod_from notna]. rewrite (Hnan x) by (left; reflexivity).
  cbn [firstn fold_left]. rewrite Hone.
  destruct t as [|t]; [reflexivity|].
  cbn [nth_error]. rewrite cumprod_from_Some.
  - reflexivity.
  - intros; apply Hnan; right; assumption.
  - simpl in Ht. lia.
Qed.

End Means.

(** C7.  At a time step where every pair has a return, the combined return
    is the sum of the returns of all pairs at that step divided by their
    number.  [combine_paths] is the running product of (1 + combined
    return) started at 1: after step [t] it is
    1 * (1 + c_0) * ... * (1 + c_t).  For the combined returns
    0.0, 0.1, -0.05 (here the means of two pairs) the path is
    1.0, 1.1, 1.045. *)
Theorem combine_is_equal_weight_mean :
  (forall (K R T : Type) (num : Num R) (self : Optimizer K R T) (t : nat),
      returns self <> [] ->
      (forall c, In c (returns self) ->
         exists v, nth_error (snd c) t = Some v /\ num_isnan v = false) ->
      nth_error (combine self) t
      = Some (Some (arithmetic_mean (returns_at self t))))
  /\ (forall (K R T : Type) (num : Num R) (self : Optimizer K R T) (cs : list R),
      (forall x, num_mul num_one x = x) ->
      combine self = map Some cs ->
      (forall c, In c cs -> num_isnan (num_add c num_one) = false) ->
      forall t, t < List.length cs ->
        nth_error (combine_paths self) t = Some (Some (compounded cs t)))
  /\ (forall (K R T : Type) (num : Num R) (self : Optimizer K R T),
      combine_paths self
      = cumprod (map (option_map (fun c => num_add c num_one)) (combine self)))
  /\ (exists self,
        snd (sweep two_pair_backtest [(1, 1); (2, 1)]%Z) = Ok self
        /\ combine self = [Some 0; Some 0.1; Some (-0.05)]%float
        /\ combine_paths self = [Some 1; Some 1.1; Some 1.045]%float).
Proof.
  split; [|split; [|split]].
  - intros K R T num self t Hne Hall.
    assert (Hrow : row_at (returns self) t = map Some (returns_at self t)).
    { unfold row_at, returns_at. rewrite map_map. apply map_ext_in.
      intros c Hc. destruct (Hall c Hc) as (v & Hv & Hnan).
      unfold cell_at. rewrite Hv. simpl. rewrite Hnan.
      rewrite (nth_error_nth _ _ _ Hv). reflexivity. }
    assert (Hnan : forall v, In v (returns_at self t) -> num_isnan v = false).
    { intros v Hv. unfold returns_at in Hv. apply in_map_iff in Hv.
      destruct Hv as (c & <- & Hc). destruct (Hall c Hc) as (w & Hw & Hnan).
      rewrite (nth_error_nth _ _ _ Hw). assumption. }
    unfold combine. rewrite mean_axis1_nth.
    + rewrite Hrow. rewrite nanmean_map_Some; [reflexivity | | assumption].
      unfold returns_at. destruct (returns self); [contradiction | discriminate].
    + destruct (returns self) as [|c f] eqn:Hf; [contradiction|].
      destruct (Hall c (or_introl eq_refl)) as (v & Hv & _).
      assert (Hlt : t < List.length (snd c))
        by (apply nth_error_Some; congruence).
      pose proof (@n_rows_ge R (K * K) (c :: f) c (or_introl eq_refl)). lia.
  - intros K R T num self cs Hone Hc Hnan t Ht.
    unfold combine_paths, compounded. rewrite Hc, map_map. simpl option_map.
    rewrite <- (map_map (fun c => num_add c num_one) Some).
    rewrite cumprod_Some.
    + rewrite firstn_map. reflexivity.
    + assumption.
    + intros x Hx. apply in_map_iff in Hx. destruct Hx as (c & <- & Hin). auto.
    + rewrite length_map. assumption.
  - reflexivity.
  - eexists. split; [vm_compute; reflexivity|].
    split; vm_compute; reflexivity.
Qed.

Lemma combine_is_equal_weight_mean_witness :
  nth_error (combine_paths rational_object) 2
  = Some (Some (compounded [0; 1 # 10; -1 # 20]%Q 2)).
Proof.
  apply (proj1 (proj2 combine_is_equal_weight_mean) Z Q unit Num_Q
           rational_object [0; 1 # 10; -1 # 20]%Q).
  - intros [n d]. destruct n; reflexivity.
  - vm_compute. reflexivity.
  - intros c Hc. reflexivity.
  - simpl. lia.
Defined.

Section Frames.

Variables K R : Type.
Variable keq : K -> K -> bool.
Context {num : Num R}.

Lemma notna_Some (c : option R) (v : R) :
  notna c = Some v -> c = Some v /\ num_isnan v = false.
Proof.
  destruct c as [w|]; simpl; [|discriminate].
  destruct (num_isnan w) eqn:Hw; [discriminate|].
  intros H. injection H as <-. auto.
Qed.

(** On a frame without missing cells, [mean()] is the plain mean of each
    column and [stack()] lists all the cells row by row. *)
Lemma full_frame (t : DataFrame K R) (g : K -> K -> R) :
  index t <> [] ->
  (forall r c, In r (index t) -> In c (columns t) ->
     loc_get keq (r, c) t = Some (g r c)) ->
  frame_mean keq t
  = map (fun c => Some (arithmetic_mean (map (fun r => g r c) (index t))))
      (columns t)
  /\ stack keq t = flat_map (fun r => map (g r) (columns t)) (index t).
Proof.
  intros Hne Hfull.
  assert (Hnan : forall r c, In r (index t) -> In c (columns t) ->
                   num_isnan (g r c) = false).
  { intros r c Hr Hc. specialize (Hfull r c Hr Hc).
    unfold loc_get in Hfull. apply notna_Some in Hfull. tauto. }
  split.
  - unfold frame_mean. apply map_ext_in. intros c Hc.
    rewrite (map_ext_in _ (fun r => Some (g r c))) by (intros; apply Hfull; auto).
    rewrite <- (map_map (fun r => g r c) Some).
    apply nanmean_map_Some.
    + destruct (index t); [contradiction | discriminate].
    + intros v Hv. apply in_map_iff in Hv. destruct Hv as (r & <- & Hr). auto.
  - unfold stack.
    assert (Hrows : flat_map (fun r => map (fun c => loc_get keq (r, c) t) (columns t))
                      (index t)
                    = map Some (flat_map (fun r => map (g r) (columns t)) (index t))).
    { rewrite !flat_map_concat_map, concat_map, map_map. f_equal.
      apply map_ext_in. intros r Hr. rewrite map_map.
      apply map_ext_in. intros c Hc. apply Hfull; assumption. }
    rewrite Hrows. apply valid_map_Some.
    intros v Hv. apply in_flat_map in Hv. destruct Hv as (r & Hr & Hv).
    apply in_map_iff in Hv. destruct Hv as (c & <- & Hc). auto.
Qed.

Lemma insert_sorted_perm (x : R) (l : list R) :
  Permutation (insert_sorted x l) (x :: l).
Proof.
  induction l as [|y l IH]; simpl; [reflexivity|].
  destruct (num_leb x y); [reflexivity|].
  rewrite IH. apply perm_swap.
Qed.

(** The median is read off a rearrangement of the values. *)
Lemma sort_perm (l : list R) : Permutation (sort l) l.
Proof.
  induction l as [|x l IH]; simpl; [constructor|].
  rewrite insert_sorted_perm. constructor. assumption.
Qed.

End Frames.

Unset Implicit Arguments.

(** On values that the order compares totally and transitively, that
    rearrangement is in ascending order. *)
Section SortOrder.

Context {R : Type} {num : Num R}.
Variable P : R -> Prop.
Hypothesis leb_total :
  forall x y, P x -> P y -> num_leb x y = true \/ num_leb y x = true.
Hypothesis leb_trans :
  forall x y z, P x -> P y -> P z ->
    num_leb x y = true -> num_leb y z = true -> num_leb x z = true.

Lemma insert_sorted_ascending (x : R) (l : list R) :
  P x -> Forall P l ->
  StronglySorted (fun a b => num_leb a b = true) l ->
  StronglySorted (fun a b => num_leb a b = true) (insert_sorted x l).
Proof using leb_total leb_trans.
  intros Hx HP H. induction H as [|y l Hl IH Hy]; simpl.
  - repeat constructor.
  - inversion HP as [|? ? Py Pl]; subst.
    destruct (num_leb x y) eqn:Hxy.
    + constructor; [constructor; assumption|].
      constructor; [exact Hxy|].
      apply Forall_forall. intros z Hz.
      apply (leb_trans x y z Hx Py); [| exact Hxy |].
      * exact (proj1 (Forall_forall _ _) Pl z Hz).
      * exact (proj1 (Forall_forall _ _) Hy z Hz).
    + constructor; [apply IH; assumption|].
      apply (Permutation_Forall (Permutation_sym (insert_sorted_perm x l))).
      constructor; [|assumption].
      destruct (leb_total x y Hx Py) as [H | H]; [congruence | exact H].
Qed.

Lemma sort_ascending (l : list R) :
  Forall P l -> StronglySorted (fun a b => num_leb a b = true) (sort l).
Proof using leb_total leb_trans.
  induction l as [|x l IH]; intros HP; simpl; [constructor|].
  inversion HP as [|? ? Px Pl]; subst.
  apply insert_sorted_ascending; [assumption | | apply IH; assumption].
  apply (Permutation_Forall (Permutation_sym (sort_perm l))). assumption.
Qed.

Lemma median_unfold (l : list R) :
  l <> [] ->
  median l
  = if Nat.even (List.length (sort l)) then
      match nth_error (sort l) (List.length (sort l) / 2 - 1),
            nth_error (sort l) (List.length (sort l) / 2) with
      | Some a, Some b => Some (num_div (num_add a b) (num_of_nat 2))
      | _, _ => None
      end
    else nth_error (sort l) (List.length (sort l) / 2).
Proof.
  intros Hne. unfold median.
  destruct (List.length (sort l)) as [|n] eqn:Hn; [|reflexivity].
  rewrite (Permutation_length (sort_perm l)) in Hn.
  destruct l; [contradiction | discriminate].
Qed.

(** The code's median is the median of the specification. *)
Lemma median_is_median (l : list R) :
  l <> [] -> Forall P l -> exists m, median l = Some m /\ is_median l m.
Proof using leb_total leb_trans.
  intros Hne HP. rewrite (median_unfold l Hne).
  pose proof (sort_perm l) as Hperm. pose proof (sort_ascending l HP) as Hs.
  assert (Hlen : 0 < List.length (sort l)).
  { rewrite (Permutation_length Hperm). destruct l; [contradiction | simpl; lia]. }
  assert (Hmid : List.length (sort l) / 2 < List.length (sort l))
    by (apply Nat.div_lt; lia).
  destruct (nth_error (sort l) (List.length (sort l) / 2)) as [b|] eqn:Hb;
    [|apply nth_error_None in Hb; lia].
  destruct (Nat.even (List.length (sort l))) eqn:He.
  - destruct (nth_error (sort l) (List.length (sort l) / 2 - 1)) as [a|] eqn:Ha;
      [|apply nth_error_None in Ha; lia].
    eexists. split; [reflexivity|].
    exists (sort l). split; [assumption|]. split; [assumption|].
    rewrite He. exists a, b. auto.
  - exists b. split; [reflexivity|].
    exists (sort l). split; [assumption|]. split; [assumption|].
    rewrite He. assumption.
Qed.

End SortOrder.

Section MeanOfMeans.

Context {K R T : Type} {key : Key K} {num : Num R}.

(** On a matrix without missing cells the two statistics, computed by the
    code, in the specification's words. *)
Lemma return_mean_full (self : Optimizer K R T) (t : DataFrame K R)
    (g : K -> K -> R) :
  dict_get String.eqb "annual_return"%string (_table self) = Some t ->
  index t <> [] -> columns t <> [] ->
  (forall r c, In r (index t) -> In c (columns t) ->
     loc_get key_eqb (r, c) t = Some (g r c)) ->
  (forall c, In c (columns t) ->
     num_isnan (arithmetic_mean (map (fun r => g r c) (index t))) = false) ->
  return_mean self
  = Ok (Some (arithmetic_mean
                (map (fun c => arithmetic_mean (map (fun r => g r c) (index t)))
                   (columns t)))).
Proof.
  intros Ht Hrows Hcols Hfull Hnan.
  destruct (full_frame key_eqb t g Hrows Hfull) as [Hmean _].
  unfold return_mean, dict_item. rewrite Ht. cbn [bind]. rewrite Hmean.
  rewrite <- (map_map (fun c => arithmetic_mean (map (fun r => g r c) (index t)))
                Some).
  rewrite nanmean_map_Some; [reflexivity | |].
  - destruct (columns t); [contradiction | discriminate].
  - intros v Hv. apply in_map_iff in Hv. destruct Hv as (c & <- & Hc). auto.
Qed.

Lemma return_median_full (self : Optimizer K R T) (t : DataFrame K R)
    (g : K -> K -> R) :
  dict_get String.eqb "annual_return"%string (_table self) = Some t ->
  index t <> [] -> columns t <> [] ->
  (forall r c, In r (index t) -> In c (columns t) ->
     loc_get key_eqb (r, c) t = Some (g r c)) ->
  (forall x y,
     In x (flat_map (fun r => map (g r) (columns t)) (index t)) ->
     In y (flat_map (fun r => map (g r) (columns t)) (index t)) ->
     num_leb x y = true \/ num_leb y x = true) ->
  (forall x y z,
     In x (flat_map (fun r => map (g r) (columns t)) (index t)) ->
     In y (flat_map (fun r => map (g r) (columns t)) (index t)) ->
     In z (flat_map (fun r => map (g r) (columns t)) (index t)) ->
     num_leb x y = true -> num_leb y z = true -> num_leb x z = true) ->
  exists m,
    return_median self = Ok (Some m)
    /\ is_median (flat_map (fun r => map (g r) (columns t)) (index t)) m.
Proof.
  intros Ht Hrows Hcols Hfull Htotal Htrans.
  destruct (full_frame key_eqb t g Hrows Hfull) as [_ Hstack].
  unfold return_median, dict_item. rewrite Ht. cbn [bind]. rewrite Hstack.
  destruct (median_is_median _ Htotal Htrans
              (flat_map (fun r => map (g r) (columns t)) (index t)))
    as (m & Hm & Hmed).
  - destruct (index t) as [|r rows]; [contradiction|].
    destruct (columns t) as [|c cols]; [contradiction|]. discriminate.
  - apply Forall_forall. auto.
  - exists m. rewrite Hm. auto.
Qed.

End MeanOfMeans.

Set Implicit Arguments.

(** C8.  On an annual-return matrix without missing cells, [return_mean]
    is the mean of the means taken along one axis: the mean, over the
    columns, of the plain mean of each column (stated for axes of fewer
    than eight labels in any arithmetic, floats included, and for axes of
    any length in exact arithmetic).  [return_median] is the median of all
    the cells put in one collection: the middle value of their ascending
    rearrangement, half the sum of the two middle values when their number
    is even.  The two differ on the grid whose annual return is 1 at one
    pair and 0 at the three others: the mean of means is 1/4, the median
    0. *)
Theorem return_mean_is_not_return_median :
  (forall (K R T : Type) (key : Key K) (num : Num R) (self : Optimizer K R T)
          (t : DataFrame K R) (g : K -> K -> R),
      dict_get String.eqb "annual_return"%string (_table self) = Some t ->
      index t <> [] -> columns t <> [] ->
      List.length (index t) < 8 -> List.length (columns t) < 8 ->
      (forall r c, In r (index t) -> In c (columns t) ->
         loc_get key_eqb (r, c) t = Some (g r c)) ->
      (forall c, In c (columns t) ->
         num_isnan (arithmetic_mean (map (fun r => g r c) (index t))) = false) ->
      return_mean self
      = Ok (Some (arithmetic_mean
                    (map (fun c => arithmetic_mean (map (fun r => g r c) (index t)))
                       (columns t)))))
  /\ (forall (K T : Type) (key : Key K) (self : Optimizer K Q T)
            (t : DataFrame K Q) (g : K -> K -> Q),
      dict_get String.eqb "annual_return"%string (_table self) = Some t ->
      index t <> [] -> columns t <> [] ->
      (forall r c, In r (index t) -> In c (columns t) ->
         loc_get key_eqb (r, c) t = Some (g r c)) ->
      return_mean self
      = Ok (Some (arithmetic_mean
                    (map (fun c => arithmetic_mean (map (fun r => g r c) (index t)))
                       (columns t)))))
  /\ (forall (K R T : Type) (key : Key K) (num : Num R) (self : Optimizer K R T)
            (t : DataFrame K R) (g : K -> K -> R),
      dict_get String.eqb "annual_return"%string (_table self) = Some t ->
      index t <> [] -> columns t <> [] ->
      (forall r c, In r (index t) -> In c (columns t) ->
         loc_get key_eqb (r, c) t = Some (g r c)) ->
      (forall x y,
         In x (flat_map (fun r => map (g r) (columns t)) (index t)) ->
         In y (flat_map (fun r => map (g r) (columns t)) (index t)) ->
         num_leb x y = true \/ num_leb y x = true) ->
      (forall x y z,
         In x (flat_map (fun r => map (g r) (columns t)) (index t)) ->
         In y (flat_map (fun r => map (g r) (columns t)) (index t)) ->
         In z (flat_map (fun r => map (g r) (columns t)) (index t)) ->
         num_leb x y = true -> num_leb y z = true -> num_leb x z = true) ->
      exists m,
        return_median self = Ok (Some m)
        /\ is_median (flat_map (fun r => map (g r) (columns t)) (index t)) m)
  /\ (snd (sweep corner_backtest corner_grid) = Ok (corner_object float)
      /\ return_mean (corner_object float) = Ok (Some 0.25%float)
      /\ return_median (corner_object float) = Ok (Some 0%float)
      /\ return_mean (corner_object float) <> return_median (corner_object float))
  /\ (exists a b : Q,
        return_mean (corner_object Q) = Ok (Some a)
        /\ return_median (corner_object Q) = Ok (Some b)
        /\ (a == 1 # 4)%Q /\ (b == 0)%Q /\ ~ (a == b)%Q).
Proof.
  split; [|split; [|split; [|split]]].
  - intros K R T key num self t g Ht Hrows Hcols _ _ Hfull Hnan.
    apply return_mean_full; assumption.
  - intros K T key self t g Ht Hrows Hcols Hfull.
    apply return_mean_full; try assumption. intros c _. reflexivity.
  - intros K R T key num self t g. apply return_median_full.
  - assert (Hmean : return_mean (corner_object float) = Ok (Some 0.25%float))
      by (vm_compute; reflexivity).
    assert (Hmedian : return_median (corner_object float) = Ok (Some 0%float))
      by (vm_compute; reflexivity).
    split; [vm_compute; reflexivity|].
    split; [exact Hmean|]. split; [exact Hmedian|].
    rewrite Hmean, Hmedian. intros H.
    apply (f_equal (fun r => match r with
                             | Ok (Some x) => PrimFloat.eqb x 0.25
                             | _ => false
                             end)) in H.
    vm_compute in H. discriminate.
  - eexists. eexists.
    split; [vm_compute; reflexivity|].
    split; [vm_compute; reflexivity|].
    split; [reflexivity|]. split; [reflexivity|].
    intros H. vm_compute in H. discriminate.
Qed.

Lemma return_mean_is_not_return_median_witness :
  exists m,
    return_median (corner_object float) = Ok (Some m)
    /\ is_median
         (flat_map
            (fun r => map (fun c => if ((r =? 2) && (c =? 2))%Z then 1%float
                                    else 0%float)
                        (columns (annual_return_matrix (corner_object float))))
            (index (annual_return_matrix (corner_object float))))
         m.
Proof.
  apply (proj1 (proj2 (proj2 return_mean_is_not_return_median))
           Z float unit _ _ (corner_object float)
           (annual_return_matrix (corner_object float))
           (fun r c => if ((r =? 2) && (c =? 2))%Z then 1%float else 0%float)).
  - vm_compute. reflexivity.
  - vm_compute. discriminate.
  - vm_compute. discriminate.
  - intros r c Hr Hc. vm_compute in Hr, Hc.
    destruct Hr as [<- | [<- | []]]; destruct Hc as [<- | [<- | []]];
      vm_compute; reflexivity.
  - intros x y Hx Hy. vm_compute in Hx, Hy.
    destruct Hx as [<- | [<- | [<- | [<- | []]]]];
      destruct Hy as [<- | [<- | [<- | [<- | []]]]];
      vm_compute; auto.
  - intros x y z Hx Hy Hz. vm_compute in Hx, Hy, Hz.
    destruct Hx as [<- | [<- | [<- | [<- | []]]]];
      destruct Hy as [<- | [<- | [<- | [<- | []]]]];
      destruct Hz as [<- | [<- | [<- | [<- | []]]]];
      vm_compute; intros; try discriminate; reflexivity.
Defined.

(** ** Dictionaries *)

Unset Implicit Arguments.

Section DictFacts.

Variables K V : Type.
Variable keq : K -> K -> bool.
Hypothesis keq_refl : forall a, keq a a = true.
Hypothesis keq_sym : forall a b, keq a b = keq b a.
Hypothesis keq_trans : forall a b c, keq a b = true -> keq b c = true -> keq a c = true.

Lemma keq_false_l (a b c : K) : keq a b = true -> keq a c = false -> keq b c = false.
Proof using keq_refl keq_sym keq_trans.
  intros Hab Hac. destruct (keq b c) eqn:Hbc; [|reflexivity].
  rewrite (keq_trans _ _ _ Hab Hbc) in Hac. discriminate.
Qed.

Lemma keq_false_r (a b c : K) : keq b c = true -> keq a c = false -> keq a b = false.
Proof using keq_refl keq_sym keq_trans.
  intros Hbc Hac. destruct (keq a b) eqn:Hab; [|reflexivity].
  rewrite (keq_trans _ _ _ Hab Hbc) in Hac. discriminate.
Qed.

Lemma dict_get_proper (k k' : K) (d : dict K V) :
  keq k k' = true -> dict_get keq k d = dict_get keq k' d.
Proof using keq_refl keq_sym keq_trans.
  intros H. induction d as [|[e w] d IH]; simpl; [reflexivity|].
  destruct (keq e k) eqn:Hek.
  - rewrite (keq_trans _ _ _ Hek H). reflexivity.
  - rewrite keq_sym in H. rewrite (keq_false_r _ _ _ H Hek). assumption.
Qed.

Lemma dict_get_set_same (k k' : K) (v : V) (d : dict K V) :
  keq k k' = true -> dict_get keq k' (dict_set keq k v d) = Some v.
Proof using keq_refl keq_sym keq_trans.
  intros H. induction d as [|[e w] d IH]; simpl.
  - rewrite H. reflexivity.
  - destruct (keq e k) eqn:Hek; simpl.
    + rewrite (keq_trans _ _ _ Hek H). reflexivity.
    + rewrite keq_sym in H. rewrite (keq_false_r _ _ _ H Hek). assumption.
Qed.

Lemma dict_get_set_other (k k' : K) (v : V) (d : dict K V) :
  keq k k' = false -> dict_get keq k' (dict_set keq k v d) = dict_get keq k' d.
Proof using keq_refl keq_sym keq_trans.
  intros H. induction d as [|[e w] d IH]; simpl.
  - rewrite H. reflexivity.
  - destruct (keq e k) eqn:Hek; simpl.
    + rewrite keq_sym in Hek. rewrite (keq_false_l _ _ _ Hek H). reflexivity.
    + destruct (keq e k'); [reflexivity | assumption].
Qed.

Lemma dict_get_None (k : K) (d : dict K V) :
  dict_get keq k d = None <-> forall e w, In (e, w) d -> keq e k = false.
Proof using keq_refl keq_sym keq_trans.
  induction d as [|[e w] d IH]; simpl.
  - split; [intros _ ? ? [] | reflexivity].
  - destruct (keq e k) eqn:Hek; split.
    + discriminate.
    + intros H. rewrite (H e w) in Hek by (left; reflexivity). discriminate.
    + intros H e' w' [Heq | Hin]; [injection Heq as <- <-; assumption|].
      exact (proj1 IH H e' w' Hin).
    + intros H. apply (proj2 IH). intros e' w' Hin. apply (H e' w'). right.
      assumption.
Qed.

Lemma dict_get_In (k : K) (v : V) (d : dict K V) :
  dict_get keq k d = Some v -> exists e, In (e, v) d /\ keq e k = true.
Proof using keq_refl keq_sym keq_trans.
  induction d as [|[e w] d IH]; simpl; [discriminate|].
  destruct (keq e k) eqn:Hek.
  - intros H. injection H as ->. exists e. auto.
  - intros H. destruct (IH H) as (e' & Hin & He'). exists e'. auto.
Qed.

Lemma dict_wf_In_get (k : K) (v : V) (d : dict K V) :
  dict_wf keq d -> In (k, v) d -> dict_get keq k d = Some v.
Proof using keq_refl keq_sym keq_trans.
  induction d as [|[e w] d IH]; simpl; [contradiction|].
  intros [Hnone Hwf] [Heq | Hin].
  - injection Heq as -> ->. rewrite keq_refl. reflexivity.
  - destruct (keq e k) eqn:Hek; [|auto].
    rewrite dict_get_None in Hnone. specialize (Hnone _ _ Hin).
    rewrite keq_sym in Hnone. congruence.
Qed.

Lemma dict_set_wf (k : K) (v : V) (d : dict K V) :
  dict_wf keq d -> dict_wf keq (dict_set keq k v d).
Proof using keq_refl keq_sym keq_trans.
  induction d as [|[e w] d IH]; simpl.
  - auto.
  - intros [Hnone Hwf]. destruct (keq e k) eqn:Hek; simpl.
    + auto.
    + split; [|auto]. rewrite dict_get_set_other; [assumption|].
      rewrite keq_sym. assumption.
Qed.

(** Assigning to a key keeps every key that is there. *)
Lemma dict_set_keeps (k k' : K) (v : V) (d : dict K V) :
  dict_get keq k' d <> None -> dict_get keq k' (dict_set keq k v d) <> None.
Proof using keq_refl keq_sym keq_trans.
  intros H. destruct (keq k k') eqn:Hk.
  - rewrite dict_get_set_same by assumption. discriminate.
  - rewrite dict_get_set_other by assumption. assumption.
Qed.

(** A dictionary built by a comprehension whose value is a function of the
    key holds that value at each key. *)
Lemma comprehension_fold_get (g : K -> V) (l : list K) (d : dict K V) (k : K) :
  (forall a b, keq a b = true -> g a = g b) ->
  (forall e v, dict_get keq e d = Some v -> v = g e) ->
  In k l \/ dict_get keq k d <> None ->
  dict_get keq k (fold_left (fun d i => dict_set keq i (g i) d) l d) = Some (g k).
Proof using keq_refl keq_sym keq_trans.
  intros Hg. revert d. induction l as [|i l IH]; simpl; intros d Hd H.
  - destruct H as [[] | H]. destruct (dict_get keq k d) as [v|] eqn:Hk;
      [|contradiction]. f_equal. eapply Hd. eassumption.
  - apply IH.
    + intros e v. destruct (keq i e) eqn:Hie.
      * rewrite dict_get_set_same by assumption. intros Hv. injection Hv as <-.
        apply Hg. assumption.
      * rewrite dict_get_set_other by assumption. apply Hd.
    + destruct H as [[-> | H] | H]; [right | left; assumption | right].
      * rewrite dict_get_set_same by apply keq_refl. discriminate.
      * apply dict_set_keeps. assumption.
Qed.

Lemma comprehension_get (g : K -> V) (l : list K) (k : K) :
  (forall a b, keq a b = true -> g a = g b) ->
  In k l -> dict_get keq k (dict_comprehension keq (fun i => i) g l) = Some (g k).
Proof using keq_refl keq_sym keq_trans.
  intros Hg H. unfold dict_comprehension.
  apply comprehension_fold_get; [assumption | discriminate | left; assumption].
Qed.

Lemma dict_get_values (k : K) (v : V) (d : dict K V) :
  dict_get keq k d = Some v -> In v (dict_values d).
Proof using keq_refl keq_sym keq_trans.
  intros H. destruct (dict_get_In _ _ _ H) as (e & Hin & _).
  unfold dict_values. apply in_map_iff. exists (e, v). auto.
Qed.

End DictFacts.

(** Equality of strings and of pairs of keys are equivalences. *)

Lemma string_eqb_trans (a b c : string) :
  String.eqb a b = true -> String.eqb b c = true -> String.eqb a c = true.
Proof.
  intros Hab Hbc. apply String.eqb_eq in Hab, Hbc. subst. apply String.eqb_refl.
Qed.

Section PairKeys.

Context {K : Type} {key : Key K} {laws : KeyLaws K}.

Lemma pair_eqb_refl (p : K * K) : pair_eqb key_eqb p p = true.
Proof. unfold pair_eqb. rewrite !key_eqb_refl. reflexivity. Qed.

Lemma pair_eqb_sym (p q : K * K) : pair_eqb key_eqb p q = pair_eqb key_eqb q p.
Proof.
  unfold pair_eqb. rewrite (key_eqb_sym (fst p)), (key_eqb_sym (snd p)). reflexivity.
Qed.

Lemma pair_eqb_trans (p q r : K * K) :
  pair_eqb key_eqb p q = true -> pair_eqb key_eqb q r = true ->
  pair_eqb key_eqb p r = true.
Proof.
  unfold pair_eqb. intros Hpq Hqr.
  apply andb_prop in Hpq. apply andb_prop in Hqr.
  destruct Hpq as [H1 H2]. destruct Hqr as [H3 H4].
  rewrite (key_eqb_trans _ _ _ H1 H3), (key_eqb_trans _ _ _ H2 H4). reflexivity.
Qed.

Lemma label_in_proper (a b : K) (l : list K) :
  key_eqb a b = true -> label_in key_eqb a l = true -> label_in key_eqb b l = true.
Proof.
  unfold label_in. intros Hab H. apply existsb_exists in H.
  destruct H as (x & Hx & Hxa). apply existsb_exists. exists x.
  split; [assumption | exact (key_eqb_trans _ _ _ Hxa Hab)].
Qed.

Lemma label_in_app_r (a b : K) (l : list K) :
  key_eqb a b = true -> label_in key_eqb b (l ++ [a]) = true.
Proof.
  intros Hab. unfold label_in. rewrite existsb_app. simpl.
  rewrite Hab. rewrite orb_true_r. reflexivity.
Qed.

Lemma label_in_app_l (b a : K) (l : list K) :
  label_in key_eqb b l = true -> label_in key_eqb b (l ++ [a]) = true.
Proof.
  intros H. unfold label_in in *. rewrite existsb_app, H. reflexivity.
Qed.

(** Assigning a cell adds the entry. *)
Lemma loc_set_entry_same {R : Type} (p q : K * K) (v : R) (frame : DataFrame K R) :
  pair_eqb key_eqb p q = true ->
  has_entry key_eqb (loc_set key_eqb p v frame) q v.
Proof.
  intros Hpq. pose proof Hpq as Hpq'. unfold pair_eqb in Hpq'.
  apply andb_prop in Hpq'. destruct Hpq' as [H1 H2].
  unfold has_entry, loc_set. cbn [index columns cells]. repeat split.
  - destruct (label_in key_eqb (fst p) (index frame)) eqn:Hin.
    + exact (label_in_proper _ _ _ H1 Hin).
    + apply label_in_app_r. assumption.
  - destruct (label_in key_eqb (snd p) (columns frame)) eqn:Hin.
    + exact (label_in_proper _ _ _ H2 Hin).
    + apply label_in_app_r. assumption.
  - apply dict_get_set_same;
      [apply pair_eqb_refl | apply pair_eqb_sym | apply pair_eqb_trans | assumption].
Qed.

(** Assigning another cell keeps the entry. *)
Lemma loc_set_entry_other {R : Type} (p q : K * K) (v w : R) (frame : DataFrame K R) :
  pair_eqb key_eqb p q = false ->
  has_entry key_eqb frame q v ->
  has_entry key_eqb (loc_set key_eqb p w frame) q v.
Proof.
  intros Hpq (Hrow & Hcol & Hcell).
  unfold has_entry, loc_set. cbn [index columns cells]. repeat split.
  - destruct (label_in key_eqb (fst p) (index frame));
      [assumption | apply label_in_app_l; assumption].
  - destruct (label_in key_eqb (snd p) (columns frame));
      [assumption | apply label_in_app_l; assumption].
  - rewrite dict_get_set_other;
      [assumption | apply pair_eqb_refl | apply pair_eqb_sym
       | apply pair_eqb_trans | assumption].
Qed.

End PairKeys.

(** Dictionaries keyed by strings. *)

Lemma table_get_set_same {V : Type} (name : string) (v : V) (t : dict string V) :
  dict_get String.eqb name (dict_set String.eqb name v t) = Some v.
Proof.
  apply dict_get_set_same;
    [apply String.eqb_refl | apply String.eqb_sym | apply string_eqb_trans
     | apply String.eqb_refl].
Qed.

Lemma table_get_set_other {V : Type} (name name' : string) (v : V) (t : dict string V) :
  name <> name' ->
  dict_get String.eqb name' (dict_set String.eqb name v t)
  = dict_get String.eqb name' t.
Proof.
  intros H. apply dict_get_set_other;
    [apply String.eqb_refl | apply String.eqb_sym | apply string_eqb_trans
     | apply String.eqb_neq; assumption].
Qed.

Lemma table_comprehension_get {V : Type} (g : string -> V) (l : list string)
    (name : string) :
  In name l ->
  dict_get String.eqb name (dict_comprehension String.eqb (fun i => i) g l)
  = Some (g name).
Proof.
  apply comprehension_get;
    [apply String.eqb_refl | apply String.eqb_sym | apply string_eqb_trans|].
  intros a b Hab. apply String.eqb_eq in Hab. congruence.
Qed.

(** ** [extract_stats] *)

Section Extraction.

Context {K R : Type} {key : Key K} {laws : KeyLaws K} {num : Num R}.

Lemma record_field_ok (trans : dict string string) (index : K * K)
    (st : Series R) (table table' : dict string (DataFrame K R)) (field : string) :
  record_field trans index st table field = Ok table' ->
  exists v name frame,
    series_item field st = Ok v
    /\ dict_get String.eqb field trans = Some name
    /\ dict_get String.eqb name table = Some frame
    /\ table' = dict_set String.eqb name (loc_set key_eqb index v frame) table.
Proof.
  unfold record_field. intros H.
  apply bind_ok in H. destruct H as (v & Hv & H).
  apply bind_ok in H. destruct H as (name & Hname & H).
  apply bind_ok in H. destruct H as (frame & Hframe & H).
  injection H as <-. exists v, name, frame.
  unfold dict_item in Hname, Hframe.
  destruct (dict_get String.eqb field trans); [|discriminate].
  destruct (dict_get String.eqb name table); [|discriminate].
  injection Hname as <-. injection Hframe as <-. auto.
Qed.

(** The loop over the fields, for one pair: the matrix of each field gets
    the pair's cell, the other matrices stay as they are. *)
Lemma fields_loop (trans : dict string string) (index : K * K) (st : Series R)
    (fs : list string) (table table' : dict string (DataFrame K R)) :
  foldM (record_field trans index st) fs table = Ok table' ->
  (forall f, In f fs -> dict_get String.eqb f trans = Some (normalize_name f)) ->
  (forall name, dict_get String.eqb name table <> None ->
     dict_get String.eqb name table' <> None)
  /\ (forall name, ~ In name (map normalize_name fs) ->
        dict_get String.eqb name table' = dict_get String.eqb name table)
  /\ (NoDup (map normalize_name fs) ->
      forall f, In f fs ->
        exists v frame,
          series_item f st = Ok v
          /\ dict_get String.eqb (normalize_name f) table = Some frame
          /\ dict_get String.eqb (normalize_name f) table'
             = Some (loc_set key_eqb index v frame)).
Proof.
  revert table. induction fs as [|f0 fs IH]; intros table H Htrans.
  - simpl in H. injection H as <-.
    split; [auto|]. split; [reflexivity|]. intros _ f [].
  - simpl in H. apply bind_ok in H. destruct H as (table1 & Hstep & Hrest).
    apply record_field_ok in Hstep.
    destruct Hstep as (v0 & name0 & frame0 & Hv0 & Hname0 & Hframe0 & ->).
    rewrite (Htrans f0 (or_introl eq_refl)) in Hname0. injection Hname0 as <-.
    destruct (IH _ Hrest (fun f Hf => Htrans f (or_intror Hf)))
      as (Hkeep & Hother & Hset).
    split; [|split].
    + intros name Hname. apply Hkeep.
      destruct (String.eqb_spec (normalize_name f0) name) as [<- | Hne].
      * rewrite table_get_set_same. discriminate.
      * rewrite table_get_set_other by assumption. assumption.
    + intros name Hname. simpl in Hname.
      rewrite Hother by tauto.
      apply table_get_set_other. tauto.
    + intros Hnodup f Hf. simpl in Hnodup. inversion Hnodup as [|? ? Hnotin Hnodup'].
      subst. destruct Hf as [<- | Hf].
      * exists v0, frame0. split; [assumption|]. split; [assumption|].
        rewrite Hother by assumption. apply table_get_set_same.
      * destruct (Hset Hnodup' f Hf) as (v & frame & Hv & Hframe & Hframe').
        exists v, frame. split; [assumption|]. split; [|assumption].
        rewrite table_get_set_other in Hframe; [assumption|].
        intros Heq. apply Hnotin. rewrite Heq. apply in_map. assumption.
Qed.

(** The loop over the pairs of [raw_stats]. *)
Lemma items_loop (trans : dict string string) (fs : list string)
    (items : dict (K * K) (Series R)) (table table' : dict string (DataFrame K R)) :
  foldM (fun table item =>
           foldM (record_field trans (fst item) (snd item)) fs table)
    items table = Ok table' ->
  (forall f, In f fs -> dict_get String.eqb f trans = Some (normalize_name f)) ->
  NoDup (map normalize_name fs) ->
  (forall f q v frame,
      In f fs ->
      (forall k st, In (k, st) items -> pair_eqb key_eqb k q = false) ->
      dict_get String.eqb (normalize_name f) table = Some frame ->
      has_entry key_eqb frame q v ->
      exists frame', dict_get String.eqb (normalize_name f) table' = Some frame'
                     /\ has_entry key_eqb frame' q v)
  /\ (dict_wf (pair_eqb key_eqb) items ->
      forall f k st q,
        In f fs -> In (k, st) items -> pair_eqb key_eqb k q = true ->
        exists v frame',
          series_item f st = Ok v
          /\ dict_get String.eqb (normalize_name f) table' = Some frame'
          /\ has_entry key_eqb frame' q v).
Proof.
  revert table. induction items as [|[k0 st0] items IH]; intros table H Htrans Hnodup.
  - simpl in H. injection H as <-. split.
    + intros f q v frame _ _ Hframe Hentry. exists frame. auto.
    + intros _ f k st q _ [].
  - simpl in H. apply bind_ok in H. destruct H as (table1 & Hfields & Hrest).
    destruct (fields_loop _ _ _ _ _ _ Hfields Htrans) as (_ & _ & Hset).
    specialize (Hset Hnodup).
    destruct (IH _ Hrest Htrans Hnodup) as (Hother & Hsame).
    split.
    + intros f q v frame Hf Hkeys Hframe Hentry.
      destruct (Hset f Hf) as (v0 & frame0 & _ & Hframe0 & Hframe1).
      rewrite Hframe in Hframe0. injection Hframe0 as <-.
      apply (Hother f q v (loc_set key_eqb k0 v0 frame) Hf).
      * intros k st Hin. apply (Hkeys k st). right. assumption.
      * assumption.
      * apply loc_set_entry_other; [|assumption].
        apply (Hkeys k0 st0). left. reflexivity.
    + intros [Hnone Hwf] f k st q Hf Hin Hkq. destruct Hin as [Heq | Hin].
      * injection Heq as -> ->.
        destruct (Hset f Hf) as (v & frame & Hv & _ & Hframe1).
        assert (Hq : forall k' st', In (k', st') items ->
                       pair_eqb key_eqb k' q = false).
        { intros k' st' Hin'.
          pose proof (proj1 (dict_get_None _ _ _ pair_eqb_refl pair_eqb_sym
                              pair_eqb_trans k items) Hnone k' st' Hin') as Hk'.
          destruct (pair_eqb key_eqb k' q) eqn:Hk'q; [|reflexivity].
          rewrite pair_eqb_sym in Hkq.
          rewrite (pair_eqb_trans _ _ _ Hk'q Hkq) in Hk'. discriminate. }
        destruct (Hother f q v (loc_set key_eqb k v frame) Hf Hq Hframe1
                    (loc_set_entry_same _ _ _ _ Hkq))
          as (frame' & Hframe' & Hentry).
        exists v, frame'. auto.
      * apply (Hsame Hwf f k st q Hf Hin Hkq).
Qed.

End Extraction.

#[export] Instance KeyLaws_Z : KeyLaws Z.
Proof.
  split; simpl.
  - apply Z.eqb_refl.
  - apply Z.eqb_sym.
  - intros a b c Hab Hbc. apply Z.eqb_eq in Hab, Hbc. subst. apply Z.eqb_refl.
Qed.

Section Stores.

Context {K R T : Type} {key : Key K} {laws : KeyLaws K} {num : Num R}.
Variable backtest : K -> K -> result (Out R T).

Lemma calc_ok (self self' : Optimizer K R T) (p : K * K) :
  calc backtest self (fst p) (snd p) = Ok self' ->
  exists out,
    backtest (fst p) (snd p) = Ok out
    /\ raw_stats self'
       = dict_set (pair_eqb key_eqb) p (stats out) (raw_stats self).
Proof.
  unfold calc. intros H.
  apply bind_ok in H. destruct H as (out & Hout & H).
  apply bind_ok in H. destruct H as (u & _ & H).
  injection H as <-. exists out. destruct p. auto.
Qed.

(** After the loop the store of summary tables has pairwise different
    keys, an entry for every pair of the grid, and each entry is the
    summary table of a backtest of that pair. *)
Lemma calc_loop_raw_stats (ps called : list (K * K)) (self self' : Optimizer K R T) :
  calc_loop backtest self ps = (called, Ok self') ->
  dict_wf (pair_eqb key_eqb) (raw_stats self) ->
  dict_wf (pair_eqb key_eqb) (raw_stats self')
  /\ (forall k, dict_get (pair_eqb key_eqb) k (raw_stats self) <> None ->
        dict_get (pair_eqb key_eqb) k (raw_stats self') <> None)
  /\ (forall p, In p ps -> dict_get (pair_eqb key_eqb) p (raw_stats self') <> None)
  /\ (forall k st,
        dict_get (pair_eqb key_eqb) k (raw_stats self') = Some st ->
        dict_get (pair_eqb key_eqb) k (raw_stats self) = Some st
        \/ exists q out,
             In q ps /\ pair_eqb key_eqb q k = true
             /\ backtest (fst q) (snd q) = Ok out /\ st = stats out).
Proof.
  revert called self. induction ps as [|p ps IH]; intros called self H Hwf.
  - simpl in H. injection H as _ <-.
    split; [assumption|]. split; [auto|]. split; [intros p []|]. auto.
  - simpl in H.
    destruct (calc backtest self (fst p) (snd p)) as [self1|e] eqn:Hcalc;
      [|discriminate].
    destruct (calc_loop backtest self1 ps) as [called' r] eqn:Hloop.
    injection H as _ ->.
    destruct (calc_ok _ _ _ Hcalc) as (out & Hout & Hstats).
    assert (Hwf1 : dict_wf (pair_eqb key_eqb) (raw_stats self1)).
    { rewrite Hstats. apply dict_set_wf;
        [apply pair_eqb_refl | apply pair_eqb_sym | apply pair_eqb_trans | assumption]. }
    destruct (IH _ _ Hloop Hwf1) as (Hwf' & Hkeep & Hall & Horigin).
    split; [assumption|]. split; [|split].
    + intros k Hk. apply Hkeep. rewrite Hstats. apply dict_set_keeps;
        [apply pair_eqb_refl | apply pair_eqb_sym | apply pair_eqb_trans | assumption].
    + intros q [<- | Hq]; [|auto]. apply Hkeep. rewrite Hstats.
      rewrite dict_get_set_same;
        [discriminate | apply pair_eqb_refl | apply pair_eqb_sym
         | apply pair_eqb_trans | apply pair_eqb_refl].
    + intros k st Hk. destruct (Horigin k st Hk) as [Hk1 | (q & o & Hq & Hqk & Ho & Hst)].
      * rewrite Hstats in Hk1. destruct (pair_eqb key_eqb p k) eqn:Hpk.
        -- rewrite dict_get_set_same in Hk1;
             [| apply pair_eqb_refl | apply pair_eqb_sym | apply pair_eqb_trans
              | assumption].
           injection Hk1 as <-. right. exists p, out. simpl. auto.
        -- rewrite dict_get_set_other in Hk1;
             [| apply pair_eqb_refl | apply pair_eqb_sym | apply pair_eqb_trans
              | assumption].
           left. assumption.
      * right. exists q, o. simpl. auto.
Qed.

Lemma extract_stats_ok (self self' : Optimizer K R T) :
  extract_stats self = Ok self' ->
  exists last_pair reference,
    last_item (pairs self) = Ok last_pair
    /\ dict_get (pair_eqb key_eqb) last_pair (raw_stats self) = Some reference
    /\ _fields self' = series_index reference
    /\ field_trans self'
       = dict_comprehension String.eqb (fun i => i) normalize_name (_fields self')
    /\ fields self' = dict_values (field_trans self')
    /\ raw_stats self' = raw_stats self
    /\ foldM (fun table item =>
                foldM (record_field (field_trans self') (fst item) (snd item))
                  (_fields self') table)
         (raw_stats self)
         (dict_comprehension String.eqb (fun f => f)
            (fun _ => @empty_frame K R) (fields self'))
       = Ok (_table self').
Proof.
  unfold extract_stats. intros H.
  apply bind_ok in H. destruct H as (last_pair & Hlast & H).
  apply bind_ok in H. destruct H as (u & _ & H).
  apply bind_ok in H. destruct H as (reference & Href & H).
  apply bind_ok in H. destruct H as (table & Htable & H).
  injection H as <-. exists last_pair, reference. cbn.
  unfold dict_item in Href.
  destruct (dict_get (pair_eqb key_eqb) last_pair (raw_stats self)); [|discriminate].
  injection Href as ->. repeat split; auto.
Qed.

(** Every raw name is translated to its normalized name, which is one of
    [fields]. *)
Lemma field_trans_get (self self' : Optimizer K R T) (raw : string) :
  extract_stats self = Ok self' -> In raw (_fields self') ->
  dict_get String.eqb raw (field_trans self') = Some (normalize_name raw)
  /\ In (normalize_name raw) (fields self').
Proof.
  intros H Hraw. destruct (extract_stats_ok _ _ H)
    as (last_pair & reference & _ & _ & _ & Htrans & Hfields & _).
  assert (Hget : dict_get String.eqb raw (field_trans self')
                 = Some (normalize_name raw)).
  { rewrite Htrans. apply table_comprehension_get. assumption. }
  split; [assumption|]. rewrite Hfields.
  apply (dict_get_values _ _ String.eqb String.eqb_refl String.eqb_sym
           string_eqb_trans raw). assumption.
Qed.

Lemma items_loop_keeps (trans : dict string string) (fs : list string)
    (items : dict (K * K) (Series R)) (table table' : dict string (DataFrame K R)) :
  foldM (fun table item =>
           foldM (record_field trans (fst item) (snd item)) fs table)
    items table = Ok table' ->
  (forall f, In f fs -> dict_get String.eqb f trans = Some (normalize_name f)) ->
  forall name, dict_get String.eqb name table <> None ->
    dict_get String.eqb name table' <> None.
Proof.
  revert table. induction items as [|item items IH]; intros table H Htrans name Hname.
  - simpl in H. injection H as <-. assumption.
  - simpl in H. apply bind_ok in H. destruct H as (table1 & Hfields & Hrest).
    apply (IH _ Hrest Htrans).
    destruct (fields_loop _ _ _ _ _ _ Hfields Htrans) as (Hkeep & _).
    apply Hkeep. assumption.
Qed.

(** Each normalized name keys a matrix. *)
Lemma table_has_matrix (self self' : Optimizer K R T) (raw : string) :
  extract_stats self = Ok self' -> In raw (_fields self') ->
  exists frame,
    dict_get String.eqb (normalize_name raw) (_table self') = Some frame.
Proof.
  intros H Hraw. destruct (field_trans_get _ _ _ H Hraw) as [Hget Hin].
  destruct (extract_stats_ok _ _ H)
    as (last_pair & reference & _ & _ & _ & Htrans & _ & _ & Hloop).
  assert (Hsome : dict_get String.eqb (normalize_name raw) (_table self') <> None).
  { apply (items_loop_keeps _ _ _ _ _ Hloop).
    - intros f Hf. rewrite Htrans. apply table_comprehension_get. assumption.
    - rewrite (table_comprehension_get (fun _ => @empty_frame K R)) by assumption.
      discriminate. }
  destruct (dict_get String.eqb (normalize_name raw) (_table self')) as [frame|];
    [exists frame; reflexivity | contradiction].
Qed.

End Stores.

(** ** The keys of the tables *)

Section TableKeys.

Context {V : Type}.

Lemma table_set_keys_old (name : string) (v : V) (t : dict string V) :
  dict_get String.eqb name t <> None ->
  dict_keys (dict_set String.eqb name v t) = dict_keys t.
Proof.
  induction t as [|[k w] t IH]; simpl; [contradiction|].
  destruct (String.eqb k name); simpl; [reflexivity|].
  intros H. f_equal. apply IH. assumption.
Qed.

Lemma table_set_keys_new (name : string) (v : V) (t : dict string V) :
  dict_get String.eqb name t = None ->
  dict_keys (dict_set String.eqb name v t) = dict_keys t ++ [name].
Proof.
  induction t as [|[k w] t IH]; simpl; [reflexivity|].
  destruct (String.eqb k name); simpl; [discriminate|].
  intros H. f_equal. apply IH. assumption.
Qed.

Lemma table_fold_keys (g : string -> V) (l : list string) (d : dict string V) :
  NoDup l -> (forall k, In k l -> dict_get String.eqb k d = None) ->
  dict_keys (fold_left (fun d i => dict_set String.eqb i (g i) d) l d)
  = dict_keys d ++ l.
Proof.
  intros Hnodup. revert d. induction Hnodup as [|i l Hi Hnodup IH]; intros d Hd.
  - simpl. rewrite app_nil_r. reflexivity.
  - simpl. rewrite IH.
    + rewrite table_set_keys_new by (apply Hd; left; reflexivity).
      rewrite <- app_assoc. reflexivity.
    + intros k Hk. rewrite table_get_set_other.
      * apply Hd. right. assumption.
      * intros ->. contradiction.
Qed.

Lemma table_comprehension_keys (g : string -> V) (l : list string) :
  NoDup l -> dict_keys (dict_comprehension String.eqb (fun i => i) g l) = l.
Proof.
  intros H. unfold dict_comprehension. rewrite table_fold_keys; auto.
Qed.

Lemma table_fold_values (g : string -> V) (l : list string) (d : dict string V) :
  dict_values d = map g (dict_keys d) ->
  dict_values (fold_left (fun d i => dict_set String.eqb i (g i) d) l d)
  = map g (dict_keys (fold_left (fun d i => dict_set String.eqb i (g i) d) l d)).
Proof.
  revert d. induction l as [|i l IH]; intros d Hd; [assumption|].
  simpl. apply IH. clear IH. unfold dict_values, dict_keys in *.
  induction d as [|[k w] d IHd]; [reflexivity|].
  simpl in *. injection Hd as Hw Hd.
  destruct (String.eqb_spec k i) as [-> | Hne]; simpl.
  - f_equal. assumption.
  - f_equal; [assumption | apply IHd; assumption].
Qed.

Lemma table_comprehension_values (g : string -> V) (l : list string) :
  NoDup l -> dict_values (dict_comprehension String.eqb (fun i => i) g l) = map g l.
Proof.
  intros H. unfold dict_comprehension. rewrite table_fold_values by reflexivity.
  fold (dict_comprehension String.eqb (fun i => i) g l).
  rewrite table_comprehension_keys by assumption. reflexivity.
Qed.

End TableKeys.

Section MatrixNames.

Context {K R T : Type} {key : Key K} {num : Num R}.

Lemma record_field_keys (trans : dict string string) (index : K * K)
    (st : Series R) (table table' : dict string (DataFrame K R)) (field : string) :
  record_field trans index st table field = Ok table' ->
  dict_keys table' = dict_keys table.
Proof.
  intros H. apply record_field_ok in H.
  destruct H as (v & name & frame & _ & _ & Hframe & ->).
  apply table_set_keys_old. rewrite Hframe. discriminate.
Qed.

Lemma fields_loop_keys (trans : dict string string) (index : K * K)
    (st : Series R) (fs : list string) (table table' : dict string (DataFrame K R)) :
  foldM (record_field trans index st) fs table = Ok table' ->
  dict_keys table' = dict_keys table.
Proof.
  revert table. induction fs as [|f fs IH]; simpl; intros table H.
  - injection H as <-. reflexivity.
  - apply bind_ok in H. destruct H as (table1 & Hstep & Hrest).
    rewrite (IH _ Hrest). eapply record_field_keys. eassumption.
Qed.

Lemma items_loop_keys (trans : dict string string) (fs : list string)
    (items : dict (K * K) (Series R)) (table table' : dict string (DataFrame K R)) :
  foldM (fun table item =>
           foldM (record_field trans (fst item) (snd item)) fs table)
    items table = Ok table' ->
  dict_keys table' = dict_keys table.
Proof.
  revert table. induction items as [|item items IH]; simpl; intros table H.
  - injection H as <-. reflexivity.
  - apply bind_ok in H. destruct H as (table1 & Hfields & Hrest).
    rewrite (IH _ Hrest). eapply fields_loop_keys. eassumption.
Qed.

(** When the normalized names are pairwise different there is one matrix
    per metric, keyed by the normalized names in the order of the metrics. *)
Lemma table_keys (self self' : Optimizer K R T) :
  extract_stats self = Ok self' ->
  NoDup (map normalize_name (_fields self')) ->
  fields self' = map normalize_name (_fields self')
  /\ dict_keys (_table self') = map normalize_name (_fields self').
Proof.
  intros H Hnodup. destruct (extract_stats_ok _ _ H)
    as (last_pair & reference & _ & _ & _ & Htrans & Hfields & _ & Hloop).
  assert (Hf : fields self' = map normalize_name (_fields self')).
  { rewrite Hfields, Htrans. apply table_comprehension_values.
    eapply NoDup_map_inv. eassumption. }
  split; [assumption|].
  rewrite (items_loop_keys _ _ _ _ _ Hloop).
  rewrite table_comprehension_keys; [assumption | rewrite Hf; assumption].
Qed.

End MatrixNames.

(** ** Metric names and metric matrices *)

Lemma normalize_name_cons (c : ascii) (s : string) :
  normalize_name (String c s) = (normalize_char c ++ normalize_name s)%string.
Proof.
  unfold normalize_name, normalize_char.
  destruct c as [[] [] [] [] [] [] [] []]; reflexivity.
Qed.

Section SweepResult.

Context {K R T : Type} {key : Key K} {num : Num R}.
Variable backtest : K -> K -> result (Out R T).

(** A construction that ends normally went through the loop over all the
    pairs, then [extract_stats], then [extract_dailys]. *)
Lemma sweep_ok_inv (ps : list (K * K)) (obj : Optimizer K R T) :
  snd (sweep backtest ps) = Ok obj ->
  exists self self',
    calc_loop backtest (new ps) ps = (ps, Ok self)
    /\ extract_stats self = Ok self'
    /\ obj = extract_dailys self'.
Proof.
  unfold sweep. destruct (calc_loop backtest (new ps) ps) as [called r] eqn:Hloop.
  simpl. intros H.
  apply bind_ok in H. destruct H as (self & -> & H).
  apply bind_ok in H. destruct H as (self' & Hstats & H).
  injection H as <-. exists self, self'.
  assert (Hcalled : called = ps) by (eapply calc_loop_ok; eassumption).
  subst called. auto.
Qed.

End SweepResult.

(** C4, as amended.  The identifier that keys the matrix of a raw metric
    name is the raw name with every "." removed, every space and every "/"
    replaced by an underscore, and every other character lower-cased. *)
Theorem metric_names_are_normalized :
  (normalize_name EmptyString = EmptyString
   /\ forall c s,
        normalize_name (String c s) = (normalize_char c ++ normalize_name s)%string)
  /\ (forall (K R T : Type) (key : Key K) (num : Num R)
        (backtest : K -> K -> result (Out R T)) (ps : list (K * K))
        (obj : Optimizer K R T),
      snd (sweep backtest ps) = Ok obj ->
      forall raw, In raw (_fields obj) ->
        dict_get String.eqb raw (field_trans obj) = Some (normalize_name raw)
        /\ In (normalize_name raw) (fields obj)
        /\ exists frame,
             dict_get String.eqb (normalize_name raw) (_table obj) = Some frame).
Proof.
  split; [split; [reflexivity | exact normalize_name_cons]|].
  intros K R T key num backtest ps obj Hobj raw Hraw.
  destruct (sweep_ok_inv _ _ _ Hobj) as (self & self' & _ & Hstats & ->).
  simpl in *.
  destruct (field_trans_get _ _ _ Hstats Hraw) as [Hget Hin].
  split; [assumption|]. split; [assumption|].
  exact (table_has_matrix _ _ _ Hstats Hraw).
Qed.

Lemma metric_names_are_normalized_witness :
  dict_get String.eqb "Win/loss ratio"%string
    (field_trans (built (sweep ratio_backtest [(1, 1)%Z])))
  = Some (normalize_name "Win/loss ratio")
  /\ In (normalize_name "Win/loss ratio")
       (fields (built (sweep ratio_backtest [(1, 1)%Z])))
  /\ exists frame,
       dict_get String.eqb (normalize_name "Win/loss ratio")
         (_table (built (sweep ratio_backtest [(1, 1)%Z]))) = Some frame.
Proof.
  apply (proj2 metric_names_are_normalized Z float unit _ _
           ratio_backtest [(1, 1)%Z]).
  - vm_compute. reflexivity.
  - vm_compute. left. reflexivity.
Defined.

(** C4 as it is stated fails on a name with a "/": the code replaces it
    by an underscore and does not remove it. *)
Lemma slash_counterexample :
  normalize_name "Win/loss ratio" = "win_loss_ratio"%string
  /\ normalize_as_specified "Win/loss ratio" = "winloss_ratio"%string
  /\ normalize_name "Win/loss ratio" <> normalize_as_specified "Win/loss ratio"
  /\ fields (built (sweep ratio_backtest [(1, 1)%Z])) = ["win_loss_ratio"%string].
Proof.
  split; [reflexivity|]. split; [reflexivity|].
  split; [|vm_compute; reflexivity].
  vm_compute. discriminate.
Qed.

(** C5, as amended.  After a construction that ends normally (the grid is
    then not empty and every pair was backtested), the metrics are the
    names found in the summary table stored for the last pair of the grid;
    and when their normalized names are pairwise different, there is one
    matrix per metric, keyed by the normalized name, and for every pair of
    the grid and every metric the matrix of the metric contains an entry at
    that pair holding the value of the metric in the summary table stored
    for the pair, which is the summary table of a backtest of that pair. *)
Theorem metric_matrices_hold_every_pair {K R T : Type} {key : Key K}
    {laws : KeyLaws K} {num : Num R}
    (backtest : K -> K -> result (Out R T)) (ps : list (K * K))
    (obj : Optimizer K R T) :
  snd (sweep backtest ps) = Ok obj ->
  NoDup (map normalize_name (_fields obj)) ->
  fst (sweep backtest ps) = ps
  /\ (exists last_pair reference,
        last_item ps = Ok last_pair
        /\ dict_get (pair_eqb key_eqb) last_pair (raw_stats obj) = Some reference
        /\ _fields obj = series_index reference)
  /\ dict_keys (_table obj) = map normalize_name (_fields obj)
  /\ (forall p f, In p ps -> In f (_fields obj) ->
        exists st v frame,
          dict_get (pair_eqb key_eqb) p (raw_stats obj) = Some st
          /\ (exists q out,
                In q ps /\ pair_eqb key_eqb q p = true
                /\ backtest (fst q) (snd q) = Ok out /\ st = stats out)
          /\ series_item f st = Ok v
          /\ dict_get String.eqb (normalize_name f) (_table obj) = Some frame
          /\ has_entry key_eqb frame p v).
Proof.
  intros Hobj Hnodup.
  split; [eapply sweep_ok; eassumption|].
  destruct (sweep_ok_inv _ _ _ Hobj) as (self & self' & Hloop & Hstats & ->).
  cbn [extract_dailys raw_stats _fields _table] in *.
  destruct (extract_stats_ok _ _ Hstats)
    as (last_pair & reference & Hlast & Href & Hfs & Htrans & _ & Hraw & Htable).
  assert (Hpairs : pairs self = pairs (@new K R T ps))
    by (eapply calc_loop_pairs; eassumption).
  rewrite Hpairs in Hlast. simpl in Hlast.
  destruct (calc_loop_raw_stats _ _ _ _ _ Hloop I) as (Hwf & _ & Hall & Horigin).
  split; [exists last_pair, reference; rewrite Hraw; auto|].
  split; [exact (proj2 (table_keys _ _ Hstats Hnodup))|].
  intros p f Hp Hf. rewrite Hraw.
  destruct (dict_get (pair_eqb key_eqb) p (raw_stats self)) as [st|] eqn:Hst;
    [|elim (Hall p Hp); assumption].
  destruct (dict_get_In _ _ _ pair_eqb_refl pair_eqb_sym pair_eqb_trans _ _ _ Hst)
    as (k & Hin & Hkp).
  assert (Hget : forall g, In g (_fields self') ->
            dict_get String.eqb g (field_trans self') = Some (normalize_name g)).
  { intros g Hg. rewrite Htrans. apply table_comprehension_get. assumption. }
  destruct (proj2 (items_loop _ _ _ _ _ Htable Hget Hnodup) Hwf f k st p Hf Hin Hkp)
    as (v & frame & Hv & Hframe & Hentry).
  exists st, v, frame. split; [reflexivity|].
  split; [|auto].
  destruct (Horigin p st Hst) as [Hnew | Hq]; [discriminate | assumption].
Qed.

Lemma metric_matrices_hold_every_pair_witness :
  dict_keys (_table (corner_object float))
  = map normalize_name (_fields (corner_object float))
  /\ (forall p f, In p corner_grid -> In f (_fields (corner_object float)) ->
        exists st v frame,
          dict_get (pair_eqb key_eqb) p (raw_stats (corner_object float)) = Some st
          /\ (exists q out,
                In q corner_grid /\ pair_eqb key_eqb q p = true
                /\ corner_backtest (fst q) (snd q) = Ok out /\ st = stats out)
          /\ series_item f st = Ok v
          /\ dict_get String.eqb (normalize_name f) (_table (corner_object float))
             = Some frame
          /\ has_entry key_eqb frame p v).
Proof.
  refine (proj2 (proj2 (metric_matrices_hold_every_pair
                          corner_backtest corner_grid (corner_object float) _ _))).
  - vm_compute. reflexivity.
  - vm_compute. repeat constructor. simpl. tauto.
Defined.

(** C5 as it is stated fails when two metric names of the summary table
    normalize to the same identifier: "Tail ratio" and "tail_ratio" share
    the one matrix "tail_ratio", whose entry at the pair holds the value of
    the second metric, 2, and not that of the first, 1. *)
Lemma colliding_names_counterexample :
  snd (sweep colliding_backtest [(1, 1)%Z])
  = Ok (built (sweep colliding_backtest [(1, 1)%Z]))
  /\ _fields (built (sweep colliding_backtest [(1, 1)%Z]))
     = ["Tail ratio"%string; "tail_ratio"%string]
  /\ dict_keys (_table (built (sweep colliding_backtest [(1, 1)%Z])))
     = ["tail_ratio"%string]
  /\ (exists st,
        dict_get (pair_eqb key_eqb) (1, 1)%Z
          (raw_stats (built (sweep colliding_backtest [(1, 1)%Z]))) = Some st
        /\ series_item "Tail ratio" st = Ok 1%float)
  /\ (exists frame,
        dict_get String.eqb (normalize_name "Tail ratio")
          (_table (built (sweep colliding_backtest [(1, 1)%Z]))) = Some frame
        /\ has_entry key_eqb frame (1, 1)%Z 2%float
        /\ ~ has_entry key_eqb frame (1, 1)%Z 1%float).
Proof.
  split; [vm_compute; reflexivity|].
  split; [vm_compute; reflexivity|].
  split; [vm_compute; reflexivity|].
  split; [eexists; split; vm_compute; reflexivity|].
  eexists. split; [vm_compute; reflexivity|].
  split; [repeat split; vm_compute; reflexivity|].
  intros (_ & _ & H). vm_compute in H.
  apply (f_equal (fun o => match o with
                           | Some x => PrimFloat.eqb x 1
                           | None => false
                           end)) in H.
  vm_compute in H. discriminate.
Qed.

(* ===================================================================== *)
(** * Part III. Further properties of the code                            *)
(* ===================================================================== *)

(** ** [progression] on values that are not numbers *)

Lemma geo_elem_type_error (start step : pyval) :
  is_Sequence start = false ->
  is_number start && is_number step = false ->
  geo_elem start step 0 = Raise TypeError.
Proof.
  intros Hs Hn. destruct start, step; simpl in *; try discriminate; reflexivity.
Qed.

Lemma lin_elem_type_error (start step : pyval) :
  is_Sequence start = false ->
  is_number start && is_number step = false ->
  lin_elem start step 0 = Raise TypeError.
Proof.
  intros Hs Hn. destruct start, step; simpl in *; try discriminate; reflexivity.
Qed.

(** X1.  In the geometric or the linear mode, [progression] raises
    [TypeError] when the start is [None], and when the start is an [int] or
    a [float] and the step is [None], a [str], a tuple or a list: the first
    element cannot be computed. *)
Theorem progression_type_error (start step mode : pyval) :
  eq_str mode "geo" || eq_str mode "lin" = true ->
  start = PNone
  \/ (is_number start = true /\ (step = PNone \/ is_Sequence step = true)) ->
  progression [start; step; mode] = Raise TypeError.
Proof.
  intros Hm Hv.
  assert (Hs : is_Sequence start = false).
  { destruct Hv as [-> | [Hn _]]; [reflexivity|].
    destruct start; try discriminate; reflexivity. }
  assert (Hn : is_number start && is_number step = false).
  { destruct Hv as [-> | [_ [-> | Hstep]]]; [reflexivity | apply andb_false_r |].
    destruct step; try discriminate; apply andb_false_r. }
  destruct (eq_str mode "geo") eqn:Hg.
  - rewrite progression_geo by assumption.
    change (range 10) with (0 :: seq 1 9). cbn [mapM].
    rewrite geo_elem_type_error by assumption. reflexivity.
  - simpl in Hm. rewrite progression_lin by assumption.
    change (range 10) with (0 :: seq 1 9). cbn [mapM].
    rewrite lin_elem_type_error by assumption. reflexivity.
Qed.

Lemma progression_type_error_witness :
  progression [PFloat 0.1; PStr "0.1"; PStr "lin"] = Raise TypeError.
Proof.
  apply (progression_type_error (PFloat 0.1) (PStr "0.1") (PStr "lin"));
    [reflexivity|].
  right. split; [reflexivity|]. right. reflexivity.
Defined.

(** ** Normalized names are identifiers *)

Lemma string_app_assoc (a b c : string) :
  ((a ++ b) ++ c)%string = (a ++ (b ++ c))%string.
Proof. induction a as [|x a IH]; simpl; [reflexivity | rewrite IH; reflexivity]. Qed.

Lemma normalize_name_app (a b : string) :
  normalize_name (a ++ b) = (normalize_name a ++ normalize_name b)%string.
Proof.
  induction a as [|c a IH]; [reflexivity|].
  simpl String.append. rewrite !normalize_name_cons, IH, string_app_assoc.
  reflexivity.
Qed.

Lemma normalize_char_fixed (c : ascii) :
  normalize_name (normalize_char c) = normalize_char c.
Proof. destruct c as [[] [] [] [] [] [] [] []]; reflexivity. Qed.

Lemma normalize_char_identifier (c : ascii) :
  forallb identifier_char (list_ascii_of_string (normalize_char c)) = true.
Proof. destruct c as [[] [] [] [] [] [] [] []]; reflexivity. Qed.

Lemma list_ascii_of_string_app (a b : string) :
  list_ascii_of_string (a ++ b)
  = list_ascii_of_string a ++ list_ascii_of_string b.
Proof. induction a as [|c a IH]; simpl; [reflexivity | rewrite IH; reflexivity]. Qed.

(** X2.  A normalized metric name contains no space, no "/", no "." and no
    ASCII capital, and normalizing it again leaves it as it is: the
    identifiers are stable. *)
Theorem normalize_name_idempotent (i : string) :
  forallb identifier_char (list_ascii_of_string (normalize_name i)) = true
  /\ normalize_name (normalize_name i) = normalize_name i.
Proof.
  induction i as [|c i [IHchars IHname]]; [split; reflexivity|].
  rewrite normalize_name_cons. split.
  - rewrite list_ascii_of_string_app, forallb_app, normalize_char_identifier.
    assumption.
  - rewrite normalize_name_app, normalize_char_fixed, IHname. reflexivity.
Qed.

(** ** The sweep: empty grids and failing backtests *)

Lemma get_pairs_nil_r {A B : Type} (sp_1 : list A) :
  get_pairs sp_1 (@nil B) = [].
Proof. induction sp_1 as [|a sp_1 IH]; [reflexivity | exact IH]. Qed.

(** X3.  A grid without pairs cannot be built: the sweep runs no backtest
    and [extract_stats] raises [IndexError] at [self.pairs[-1]].  So does
    the constructor when no pairs list is passed and one of the two
    progressions is an empty sequence. *)
Theorem empty_grid_raises :
  (forall (K R T : Type) (key : Key K) (num : Num R)
          (backtest : K -> K -> result (Out R T)),
      sweep backtest [] = ([], Raise IndexError))
  /\ (forall (R T : Type) (num : Num R)
        (backtest : pyval -> pyval -> result (Out R T))
        (sp_1 sp_2 : list pyval) (pairs : option (list (pyval * pyval)))
        (s_1 s_2 : pyval) (l_1 l_2 : list pyval),
      truthy_pairs pairs = false ->
      progression sp_1 = Ok s_1 -> progression sp_2 = Ok s_2 ->
      py_iter s_1 = Ok l_1 -> py_iter s_2 = Ok l_2 ->
      l_1 = [] \/ l_2 = [] ->
      __init__ backtest sp_1 sp_2 pairs = ([], Raise IndexError)).
Proof.
  split; [reflexivity|].
  intros R T num backtest sp_1 sp_2 pairs s_1 s_2 l_1 l_2 Hp H1 H2 Hl1 Hl2 Hnil.
  assert (Hgrid : pairs_or_grid sp_1 sp_2 pairs = Ok []).
  { assert (Hempty : get_pairs l_1 l_2 = [])
      by (destruct Hnil as [-> | ->]; [reflexivity | apply get_pairs_nil_r]).
    destruct pairs as [[|q qs]|]; try discriminate;
      unfold pairs_or_grid; rewrite H1, H2; simpl; rewrite Hl1, Hl2; simpl;
      rewrite Hempty; reflexivity. }
  unfold __init__. rewrite Hp, Hgrid.
  rewrite (progression_ok_truthy sp_1 H1), (progression_ok_truthy sp_2 H2).
  reflexivity.
Qed.

Lemma empty_grid_raises_witness :
  __init__ sample_backtest [PList []; PInt 2] sp_2_default None
  = ([], Raise IndexError).
Proof.
  apply (proj2 empty_grid_raises float unit _ sample_backtest
           [PList []; PInt 2] sp_2_default None (PList [])
           (PTuple (map PFloat [0.1; 0.2; 0.3; 0.4; 0.5; 0.6; 0.7; 0.8; 0.9; 1.0]%float))
           []
           (map PFloat [0.1; 0.2; 0.3; 0.4; 0.5; 0.6; 0.7; 0.8; 0.9; 1.0]%float));
    try (vm_compute; reflexivity).
  left. reflexivity.
Defined.

Section FailFast.

Context {K R T : Type} {key : Key K} {num : Num R}.
Variable backtest : K -> K -> result (Out R T).

Lemma calc_loop_fails_fast (self : Optimizer K R T) (before after : list (K * K))
    (p : K * K) (e : exn) :
  (forall q s, In q before -> is_ok (calc backtest s (fst q) (snd q)) = true) ->
  backtest (fst p) (snd p) = Raise e ->
  calc_loop backtest self (before ++ p :: after) = (before ++ [p], Raise e).
Proof.
  revert self. induction before as [|q before IH]; intros self Hok Hp.
  - simpl. unfold calc. rewrite Hp. reflexivity.
  - simpl. specialize (Hok q self (or_introl eq_refl)) as Hq.
    destruct (calc backtest self (fst q) (snd q)) as [self'|e']; [|discriminate].
    rewrite IH; [reflexivity | | assumption].
    intros q' s Hq'. apply Hok. right. assumption.
Qed.

End FailFast.

(** X4.  The sweep fails fast: when the backtest raises on a pair, after
    returning on the pairs before it, the construction ends with that very
    exception; the pairs up to and including the failing one were
    backtested and none of the pairs after it is. *)
Theorem sweep_fails_fast {K R T : Type} {key : Key K} {num : Num R}
    (backtest : K -> K -> result (Out R T))
    (before after : list (K * K)) (p : K * K) (e : exn) :
  (forall q s, In q before -> is_ok (calc backtest s (fst q) (snd q)) = true) ->
  backtest (fst p) (snd p) = Raise e ->
  sweep backtest (before ++ p :: after) = (before ++ [p], Raise e).
Proof.
  intros Hok Hp. unfold sweep.
  rewrite (calc_loop_fails_fast backtest _ before after p e Hok Hp). reflexivity.
Qed.

Lemma sweep_fails_fast_witness :
  sweep failing_backtest ([(1, 1)%Z] ++ (2, 1)%Z :: [(3, 1)%Z])
  = ([(1, 1)%Z] ++ [(2, 1)%Z], Raise (CollaboratorError "no signal")).
Proof.
  apply (sweep_fails_fast failing_backtest [(1, 1)%Z] [(3, 1)%Z] (2, 1)%Z).
  - intros q s [<- | []]. reflexivity.
  - reflexivity.
Defined.

(** ** The four stores *)

Section DictShape.

Context {K V : Type}.
Variable keq : K -> K -> bool.

Lemma dict_set_absent (k : K) (v : V) (d : dict K V) :
  dict_get keq k d = None -> dict_set keq k v d = d ++ [(k, v)].
Proof.
  induction d as [|[e w] d IH]; simpl; [reflexivity|].
  destruct (keq e k); [discriminate|]. intros H. rewrite IH by assumption.
  reflexivity.
Qed.

Lemma dict_get_app_None (k : K) (d d' : dict K V) :
  dict_get keq k d = None -> dict_get keq k (d ++ d') = dict_get keq k d'.
Proof.
  induction d as [|[e w] d IH]; simpl; [reflexivity|].
  destruct (keq e k); [discriminate | assumption].
Qed.

Lemma dict_set_length (k : K) (v : V) (d : dict K V) :
  List.length (dict_set keq k v d) <= S (List.length d).
Proof.
  induction d as [|[e w] d IH]; simpl; [lia|].
  destruct (keq e k); simpl; lia.
Qed.

Lemma dict_get_map_values {W : Type} (f : V -> W) (k : K) (d : dict K V) :
  dict_get keq k (map (fun kv => (fst kv, f (snd kv))) d)
  = option_map f (dict_get keq k d).
Proof.
  induction d as [|[e w] d IH]; simpl; [reflexivity|].
  destruct (keq e k); [reflexivity | assumption].
Qed.

End DictShape.

(** The keys after an assignment depend on the keys before it only. *)
Lemma dict_set_keys_fun {K V W : Type} (keq : K -> K -> bool) (k : K)
    (v : V) (w : W) (d : dict K V) (d' : dict K W) :
  dict_keys d = dict_keys d' ->
  dict_keys (dict_set keq k v d) = dict_keys (dict_set keq k w d').
Proof.
  revert d'. induction d as [|[e x] d IH]; intros [|[e' x'] d'] H;
    try discriminate; [reflexivity|].
  simpl in *. injection H as -> H.
  destruct (keq e' k); simpl; [congruence|]. f_equal. apply IH. assumption.
Qed.

Section StoreFacts.

Context {K R T : Type} {key : Key K} {num : Num R}.
Variable backtest : K -> K -> result (Out R T).

Lemma calc_ok_full (self self' : Optimizer K R T) (p : K * K) :
  calc backtest self (fst p) (snd p) = Ok self' ->
  exists out,
    backtest (fst p) (snd p) = Ok out
    /\ hashable (fst p) && hashable (snd p) = true
    /\ self' =
       {| raw_stats := dict_set (pair_eqb key_eqb) p (stats out) (raw_stats self);
          raw_dailys := dict_set (pair_eqb key_eqb) p (daily out) (raw_dailys self);
          raw_positions :=
            dict_set (pair_eqb key_eqb) p (positions out) (raw_positions self);
          raw_dfs := dict_set (pair_eqb key_eqb) p (df out) (raw_dfs self);
          pairs := pairs self;
          _fields := _fields self; field_trans := field_trans self;
          fields := fields self; _table := _table self;
          log_returns := log_returns self; returns := returns self;
          paths := paths self |}.
Proof.
  unfold calc, hash_key. intros H.
  apply bind_ok in H. destruct H as (out & Hout & H).
  apply bind_ok in H. destruct H as (u & Hhash & H).
  injection H as <-. exists out. destruct p as [p_1 p_2]. simpl in *.
  destruct (hashable p_1 && hashable p_2); [auto | discriminate].
Qed.

(** The stores are assigned together: they keep the same keys, one key at
    most per call. *)
Lemma calc_loop_keys (ps called : list (K * K)) (self self' : Optimizer K R T) :
  calc_loop backtest self ps = (called, Ok self') ->
  dict_keys (raw_dailys self) = dict_keys (raw_stats self) ->
  dict_keys (raw_positions self) = dict_keys (raw_stats self) ->
  dict_keys (raw_dfs self) = dict_keys (raw_stats self) ->
  dict_keys (raw_dailys self') = dict_keys (raw_stats self')
  /\ dict_keys (raw_positions self') = dict_keys (raw_stats self')
  /\ dict_keys (raw_dfs self') = dict_keys (raw_stats self')
  /\ List.length (raw_stats self') <= List.length (raw_stats self) + List.length ps.
Proof.
  revert called self. induction ps as [|p ps IH]; intros called self H H1 H2 H3.
  - simpl in H. injection H as _ <-. repeat split; try assumption. lia.
  - simpl in H.
    destruct (calc backtest self (fst p) (snd p)) as [self1|e] eqn:Hcalc;
      [|discriminate].
    destruct (calc_loop backtest self1 ps) as [called' r] eqn:Hloop.
    injection H as _ ->.
    destruct (calc_ok_full _ _ _ Hcalc) as (out & _ & _ & ->).
    destruct (IH _ _ Hloop) as (H1' & H2' & H3' & Hlen);
      try (cbn [raw_stats raw_dailys raw_positions raw_dfs];
           apply dict_set_keys_fun; assumption).
    repeat split; try assumption.
    cbn [raw_stats] in Hlen.
    pose proof (dict_set_length (pair_eqb key_eqb) p (stats out) (raw_stats self)).
    simpl. lia.
Qed.

End StoreFacts.

(** X5.  After a construction in which no matrix name rebinds an attribute
    or a method, the four stores and the three daily frames are keyed by
    the same pairs in the same order, with at most one key per pair of the
    grid. *)
Theorem stores_share_keys {K R T : Type} {key : Key K} {num : Num R}
    (backtest : K -> K -> result (Out R T)) (ps : list (K * K))
    (obj : Optimizer K R T) :
  snd (sweep backtest ps) = Ok obj ->
  keeps_attributes obj = true ->
  dict_keys (raw_dailys obj) = dict_keys (raw_stats obj)
  /\ dict_keys (raw_positions obj) = dict_keys (raw_stats obj)
  /\ dict_keys (raw_dfs obj) = dict_keys (raw_stats obj)
  /\ dict_keys (log_returns obj) = dict_keys (raw_stats obj)
  /\ dict_keys (returns obj) = dict_keys (raw_stats obj)
  /\ dict_keys (paths obj) = dict_keys (raw_stats obj)
  /\ List.length (raw_stats obj) <= List.length ps.
Proof.
  intros Hobj _.
  destruct (sweep_ok_inv _ _ _ Hobj) as (self & self' & Hloop & Hstats & ->).
  destruct (calc_loop_keys _ _ _ _ _ Hloop eq_refl eq_refl eq_refl)
    as (H1 & H2 & H3 & Hlen).
  assert (Hsame : raw_stats self' = raw_stats self
                  /\ raw_dailys self' = raw_dailys self
                  /\ raw_positions self' = raw_positions self
                  /\ raw_dfs self' = raw_dfs self).
  { unfold extract_stats in Hstats.
    apply bind_ok in Hstats. destruct Hstats as (last_pair & _ & Hstats).
    apply bind_ok in Hstats. destruct Hstats as (u & _ & Hstats).
    apply bind_ok in Hstats. destruct Hstats as (reference & _ & Hstats).
    apply bind_ok in Hstats. destruct Hstats as (table & _ & Hstats).
    injection Hstats as <-. repeat split. }
  destruct Hsame as (Hs & Hd & Hp & Hf).
  assert (Hcol : forall f : Daily R -> list R,
             dict_keys (map (fun kv : K * K * Daily R => (fst kv, f (snd kv)))
                          (raw_dailys self))
             = dict_keys (raw_stats self)).
  { intros f. unfold dict_keys in *. rewrite map_map. simpl. assumption. }
  cbn [extract_dailys raw_stats raw_dailys raw_positions raw_dfs
       log_returns returns paths].
  rewrite Hs, Hd, Hp, Hf. simpl in Hlen.
  repeat split; try assumption; try apply Hcol.
Qed.

Lemma stores_share_keys_witness :
  dict_keys (raw_dailys (corner_object float))
  = dict_keys (raw_stats (corner_object float))
  /\ dict_keys (raw_positions (corner_object float))
     = dict_keys (raw_stats (corner_object float))
  /\ dict_keys (raw_dfs (corner_object float))
     = dict_keys (raw_stats (corner_object float))
  /\ dict_keys (log_returns (corner_object float))
     = dict_keys (raw_stats (corner_object float))
  /\ dict_keys (returns (corner_object float))
     = dict_keys (raw_stats (corner_object float))
  /\ dict_keys (paths (corner_object float))
     = dict_keys (raw_stats (corner_object float))
  /\ List.length (raw_stats (corner_object float)) <= List.length corner_grid.
Proof.
  apply (stores_share_keys corner_backtest corner_grid (corner_object float)).
  - vm_compute. reflexivity.
  - vm_compute. reflexivity.
Defined.

Section DistinctGrid.

Context {K R T : Type} {key : Key K} {num : Num R}.
Variable backtest : K -> K -> result (Out R T).
Variable out : K * K -> Out R T.

(** On pairs that are pairwise different and new to the stores, the loop
    appends one entry per pair, in the order of the pairs. *)
Lemma calc_loop_distinct (ps called : list (K * K)) (self self' : Optimizer K R T) :
  calc_loop backtest self ps = (called, Ok self') ->
  (forall p, In p ps -> backtest (fst p) (snd p) = Ok (out p)) ->
  all_distinct (pair_eqb key_eqb) ps ->
  (forall p, In p ps -> dict_get (pair_eqb key_eqb) p (raw_stats self) = None) ->
  (forall p, In p ps -> dict_get (pair_eqb key_eqb) p (raw_dailys self) = None) ->
  raw_stats self' = raw_stats self ++ map (fun p => (p, stats (out p))) ps
  /\ raw_dailys self' = raw_dailys self ++ map (fun p => (p, daily (out p))) ps.
Proof.
  revert called self. induction ps as [|p ps IH];
    intros called self H Hout Hdist Hs Hd.
  - simpl in H. injection H as _ <-. simpl. rewrite !app_nil_r. auto.
  - simpl in H.
    destruct (calc backtest self (fst p) (snd p)) as [self1|e] eqn:Hcalc;
      [|discriminate].
    destruct (calc_loop backtest self1 ps) as [called' r] eqn:Hloop.
    injection H as _ ->.
    destruct (calc_ok_full _ _ _ _ Hcalc) as (o & Ho & _ & ->).
    rewrite (Hout p (or_introl eq_refl)) in Ho. injection Ho as <-.
    destruct Hdist as [Hp Hdist].
    assert (Hnew : forall (V : Type) (d : dict (K * K) V) (v : V),
               dict_get (pair_eqb key_eqb) p d = None ->
               (forall q, In q ps -> dict_get (pair_eqb key_eqb) q d = None) ->
               dict_set (pair_eqb key_eqb) p v d = d ++ [(p, v)]
               /\ forall q, In q ps ->
                    dict_get (pair_eqb key_eqb) q (d ++ [(p, v)]) = None).
    { intros V d v Hpd Hqd. split; [apply dict_set_absent; assumption|].
      intros q Hq. rewrite dict_get_app_None by (apply Hqd; assumption).
      simpl. rewrite (Hp q Hq). reflexivity. }
    destruct (Hnew _ (raw_stats self) (stats (out p)))
      as [Es Hs']; [apply Hs; left; reflexivity | intros; apply Hs; right; assumption|].
    destruct (Hnew _ (raw_dailys self) (daily (out p)))
      as [Ed Hd']; [apply Hd; left; reflexivity | intros; apply Hd; right; assumption|].
    destruct (IH _ _ Hloop) as [Hstats Hdailys].
    + intros q Hq. apply Hout. right. assumption.
    + assumption.
    + cbn [raw_stats]. rewrite Es. assumption.
    + cbn [raw_dailys]. rewrite Ed. assumption.
    + cbn [raw_stats raw_dailys] in Hstats, Hdailys.
      rewrite Es in Hstats. rewrite Ed in Hdailys.
      rewrite Hstats, Hdailys, <- !app_assoc. auto.
Qed.

End DistinctGrid.

(** X6.  When the pairs of the grid are pairwise different and no matrix
    name rebinds an attribute or a method, after the construction the store
    of summary tables and the three daily frames have one entry per pair,
    in the order of the grid, holding what the backtest of that pair
    returned: its summary table, and the log-return, return and balance
    columns of its daily frame. *)
Theorem frames_follow_grid_order {K R T : Type} {key : Key K} {num : Num R}
    (backtest : K -> K -> result (Out R T)) (out : K * K -> Out R T)
    (ps : list (K * K)) (obj : Optimizer K R T) :
  snd (sweep backtest ps) = Ok obj ->
  keeps_attributes obj = true ->
  (forall p, In p ps -> backtest (fst p) (snd p) = Ok (out p)) ->
  all_distinct (pair_eqb key_eqb) ps ->
  raw_stats obj = map (fun p => (p, stats (out p))) ps
  /\ log_returns obj = map (fun p => (p, daily_lreturn (daily (out p)))) ps
  /\ returns obj = map (fun p => (p, daily_returns (daily (out p)))) ps
  /\ paths obj = map (fun p => (p, daily_balance (daily (out p)))) ps.
Proof.
  intros Hobj _ Hout Hdist.
  destruct (sweep_ok_inv _ _ _ Hobj) as (self & self' & Hloop & Hstats & ->).
  destruct (calc_loop_distinct backtest out _ _ _ _ Hloop Hout Hdist)
    as [Hs Hd]; try reflexivity.
  simpl in Hs, Hd.
  assert (Hsame : raw_stats self' = raw_stats self
                  /\ raw_dailys self' = raw_dailys self).
  { unfold extract_stats in Hstats.
    apply bind_ok in Hstats. destruct Hstats as (last_pair & _ & Hstats).
    apply bind_ok in Hstats. destruct Hstats as (u & _ & Hstats).
    apply bind_ok in Hstats. destruct Hstats as (reference & _ & Hstats).
    apply bind_ok in Hstats. destruct Hstats as (table & _ & Hstats).
    injection Hstats as <-. split; reflexivity. }
  destruct Hsame as [Es Ed].
  cbn [extract_dailys raw_stats log_returns returns paths].
  rewrite Es, Ed, Hs, Hd, !map_map. repeat split.
Qed.

Lemma frames_follow_grid_order_witness :
  raw_stats (built (sweep varying_backtest corner_grid))
  = map (fun p => (p, stats (varying_out p))) corner_grid
  /\ log_returns (built (sweep varying_backtest corner_grid))
     = map (fun p => (p, daily_lreturn (daily (varying_out p)))) corner_grid
  /\ returns (built (sweep varying_backtest corner_grid))
     = map (fun p => (p, daily_returns (daily (varying_out p)))) corner_grid
  /\ paths (built (sweep varying_backtest corner_grid))
     = map (fun p => (p, daily_balance (daily (varying_out p)))) corner_grid.
Proof.
  apply (frames_follow_grid_order varying_backtest varying_out corner_grid).
  - vm_compute. reflexivity.
  - vm_compute. reflexivity.
  - intros p Hp. reflexivity.
  - simpl. repeat split; intros k' H;
      repeat (destruct H as [<- | H]; [reflexivity|]); destruct H.
Defined.

Section LastWrite.

Context {K R T : Type} {key : Key K} {laws : KeyLaws K} {num : Num R}.
Variable backtest : K -> K -> result (Out R T).

Lemma calc_loop_untouched (p : K * K) (ps called : list (K * K))
    (self self' : Optimizer K R T) :
  calc_loop backtest self ps = (called, Ok self') ->
  (forall q, In q ps -> pair_eqb key_eqb q p = false) ->
  dict_get (pair_eqb key_eqb) p (raw_stats self')
  = dict_get (pair_eqb key_eqb) p (raw_stats self)
  /\ dict_get (pair_eqb key_eqb) p (raw_dailys self')
     = dict_get (pair_eqb key_eqb) p (raw_dailys self).
Proof.
  revert called self. induction ps as [|q ps IH]; intros called self H Hq.
  - simpl in H. injection H as _ <-. auto.
  - simpl in H.
    destruct (calc backtest self (fst q) (snd q)) as [self1|e] eqn:Hcalc;
      [|discriminate].
    destruct (calc_loop backtest self1 ps) as [called' r] eqn:Hloop.
    injection H as _ ->.
    destruct (calc_ok_full _ _ _ _ Hcalc) as (o & _ & _ & ->).
    destruct (IH _ _ Hloop) as [Hs Hd]; [intros; apply Hq; right; assumption|].
    rewrite Hs, Hd. cbn [raw_stats raw_dailys].
    split; apply dict_get_set_other;
      try apply pair_eqb_refl; try apply pair_eqb_sym; try apply pair_eqb_trans;
      apply Hq; left; reflexivity.
Qed.

Lemma calc_loop_last (p : K * K) (ps1 ps2 called : list (K * K))
    (self self' : Optimizer K R T) :
  calc_loop backtest self (ps1 ++ p :: ps2) = (called, Ok self') ->
  (forall q, In q ps2 -> pair_eqb key_eqb q p = false) ->
  exists o,
    backtest (fst p) (snd p) = Ok o
    /\ dict_get (pair_eqb key_eqb) p (raw_stats self') = Some (stats o)
    /\ dict_get (pair_eqb key_eqb) p (raw_dailys self') = Some (daily o).
Proof.
  revert called self. induction ps1 as [|q ps1 IH]; intros called self H Hq.
  - simpl in H.
    destruct (calc backtest self (fst p) (snd p)) as [self1|e] eqn:Hcalc;
      [|discriminate].
    destruct (calc_loop backtest self1 ps2) as [called' r] eqn:Hloop.
    injection H as _ ->.
    destruct (calc_ok_full _ _ _ _ Hcalc) as (o & Ho & _ & ->).
    destruct (calc_loop_untouched p _ _ _ _ Hloop Hq) as [Hs Hd].
    exists o. rewrite Hs, Hd. cbn [raw_stats raw_dailys].
    split; [assumption|].
    split; apply dict_get_set_same;
      try apply pair_eqb_refl; try apply pair_eqb_sym; apply pair_eqb_trans.
  - simpl in H.
    destruct (calc backtest self (fst q) (snd q)) as [self1|e] eqn:Hcalc;
      [|discriminate].
    destruct (calc_loop backtest self1 (ps1 ++ p :: ps2)) as [called' r] eqn:Hloop.
    injection H as _ ->. eapply IH; eassumption.
Qed.

End LastWrite.

(** X7.  A pair met again overwrites: after a construction in which no
    matrix name rebinds an attribute or a method, the stores and the daily
    frames hold at a pair what the backtest returned at the last place of
    the grid where that pair (or one equal to it) stands. *)
Theorem last_evaluation_is_kept {K R T : Type} {key : Key K} {laws : KeyLaws K}
    {num : Num R} (backtest : K -> K -> result (Out R T))
    (ps1 ps2 : list (K * K)) (p : K * K) (obj : Optimizer K R T) :
  snd (sweep backtest (ps1 ++ p :: ps2)) = Ok obj ->
  keeps_attributes obj = true ->
  (forall q, In q ps2 -> pair_eqb key_eqb q p = false) ->
  exists o,
    backtest (fst p) (snd p) = Ok o
    /\ dict_get (pair_eqb key_eqb) p (raw_stats obj) = Some (stats o)
    /\ dict_get (pair_eqb key_eqb) p (raw_dailys obj) = Some (daily o)
    /\ dict_get (pair_eqb key_eqb) p (returns obj) = Some (daily_returns (daily o))
    /\ dict_get (pair_eqb key_eqb) p (paths obj) = Some (daily_balance (daily o)).
Proof.
  intros Hobj _ Hq.
  destruct (sweep_ok_inv _ _ _ Hobj) as (self & self' & Hloop & Hstats & ->).
  destruct (calc_loop_last backtest p _ _ _ _ _ Hloop Hq) as (o & Ho & Hs & Hd).
  assert (Hsame : raw_stats self' = raw_stats self
                  /\ raw_dailys self' = raw_dailys self).
  { unfold extract_stats in Hstats.
    apply bind_ok in Hstats. destruct Hstats as (last_pair & _ & Hstats).
    apply bind_ok in Hstats. destruct Hstats as (u & _ & Hstats).
    apply bind_ok in Hstats. destruct Hstats as (reference & _ & Hstats).
    apply bind_ok in Hstats. destruct Hstats as (table & _ & Hstats).
    injection Hstats as <-. split; reflexivity. }
  destruct Hsame as [Es Ed]. exists o.
  cbn [extract_dailys raw_stats raw_dailys returns paths].
  rewrite Es, Ed, !dict_get_map_values, Hd. auto.
Qed.

Lemma last_evaluation_is_kept_witness :
  exists o,
    varying_backtest (fst (1, 1)%Z) (snd (1, 1)%Z) = Ok o
    /\ dict_get (pair_eqb key_eqb) (1, 1)%Z
         (raw_stats (built (sweep varying_backtest
                              ([(1, 1)%Z; (2, 1)%Z] ++ (1, 1)%Z :: [(2, 2)%Z]))))
       = Some (stats o)
    /\ dict_get (pair_eqb key_eqb) (1, 1)%Z
         (raw_dailys (built (sweep varying_backtest
                               ([(1, 1)%Z; (2, 1)%Z] ++ (1, 1)%Z :: [(2, 2)%Z]))))
       = Some (daily o)
    /\ dict_get (pair_eqb key_eqb) (1, 1)%Z
         (returns (built (sweep varying_backtest
                            ([(1, 1)%Z; (2, 1)%Z] ++ (1, 1)%Z :: [(2, 2)%Z]))))
       = Some (daily_returns (daily o))
    /\ dict_get (pair_eqb key_eqb) (1, 1)%Z
         (paths (built (sweep varying_backtest
                          ([(1, 1)%Z; (2, 1)%Z] ++ (1, 1)%Z :: [(2, 2)%Z]))))
       = Some (daily_balance (daily o)).
Proof.
  apply (last_evaluation_is_kept varying_backtest
           [(1, 1)%Z; (2, 1)%Z] [(2, 2)%Z] (1, 1)%Z).
  - vm_compute. reflexivity.
  - vm_compute. reflexivity.
  - intros q [<- | []]. reflexivity.
Defined.

(** ** The names of the matrices *)

Section TableNames.

Context {V : Type}.

Lemma table_get_keys (name : string) (t : dict string V) :
  dict_get String.eqb name t <> None <-> In name (dict_keys t).
Proof.
  induction t as [|[k v] t IH]; simpl; [tauto|].
  destruct (String.eqb_spec k name) as [-> | Hne].
  - split; [auto | discriminate].
  - rewrite IH. split; [auto | intros [H | H]; [contradiction | assumption]].
Qed.

Lemma table_set_In (name k : string) (v w : V) (t : dict string V) :
  In (k, w) (dict_set String.eqb name v t) ->
  In (k, w) t \/ (k = name /\ w = v).
Proof.
  induction t as [|[e x] t IH]; simpl.
  - intros [H | []]. injection H as <- <-. auto.
  - destruct (String.eqb_spec e name) as [-> | Hne]; simpl.
    + intros [H | H]; [injection H as <- <-; auto | auto].
    + intros [H | H]; [auto | destruct (IH H); auto].
Qed.

Lemma table_fold_In (g : string -> V) (l : list string) (d : dict string V)
    (k : string) (w : V) :
  In (k, w) (fold_left (fun d i => dict_set String.eqb i (g i) d) l d) ->
  In (k, w) d \/ (In k l /\ w = g k).
Proof.
  revert d. induction l as [|i l IH]; simpl; intros d H; [auto|].
  destruct (IH _ H) as [Hd | [Hl Hw]]; [|auto].
  destruct (table_set_In _ _ _ _ _ Hd) as [Hd' | [-> ->]]; auto.
Qed.

Lemma table_comprehension_In (g : string -> V) (l : list string)
    (k : string) (w : V) :
  In (k, w) (dict_comprehension String.eqb (fun i => i) g l) ->
  In k l /\ w = g k.
Proof.
  intros H. destruct (table_fold_In g l [] k w H) as [[] | H']. assumption.
Qed.

End TableNames.

Section Names.

Context {K R T : Type} {key : Key K} {num : Num R}.

(** [fields] lists the normalized names of the metrics, and these are the
    keys of [_table]. *)
Lemma extract_stats_names (self self' : Optimizer K R T) (name : string) :
  extract_stats self = Ok self' ->
  (In name (fields self')
   <-> exists raw, In raw (_fields self') /\ name = normalize_name raw)
  /\ (In name (fields self')
      <-> exists frame, dict_get String.eqb name (_table self') = Some frame).
Proof.
  intros H. destruct (extract_stats_ok _ _ H)
    as (last_pair & reference & _ & _ & _ & Htrans & Hfields & _ & Hloop).
  split.
  - split.
    + intros Hin. rewrite Hfields in Hin. unfold dict_values in Hin.
      apply in_map_iff in Hin. destruct Hin as ([raw v] & <- & Hin).
      rewrite Htrans in Hin. apply table_comprehension_In in Hin.
      exists raw. simpl. tauto.
    + intros (raw & Hraw & ->).
      exact (proj2 (field_trans_get _ _ _ H Hraw)).
  - assert (Hkeys : dict_keys (_table self')
                    = dict_keys (dict_comprehension String.eqb (fun f => f)
                                   (fun _ => @empty_frame K R) (fields self')))
      by exact (items_loop_keys _ _ _ _ _ Hloop).
    split.
    + intros Hin.
      assert (Hsome : dict_get String.eqb name (_table self') <> None).
      { apply table_get_keys. rewrite Hkeys. apply table_get_keys.
        rewrite (table_comprehension_get (fun _ => @empty_frame K R)) by assumption.
        discriminate. }
      destruct (dict_get String.eqb name (_table self')) as [frame|];
        [exists frame; reflexivity | contradiction].
    + intros (frame & Hframe).
      assert (Hin : In name (dict_keys (_table self')))
        by (apply table_get_keys; rewrite Hframe; discriminate).
      rewrite Hkeys in Hin. unfold dict_keys in Hin. apply in_map_iff in Hin.
      destruct Hin as ([k w] & <- & Hin).
      apply table_comprehension_In in Hin. simpl. tauto.
Qed.

End Names.

(** X8.  After a construction in which no matrix name rebinds an attribute
    or a method, [fields] lists exactly the normalized names of the metrics
    of the reference summary table, and these are exactly the names under
    which [_table] holds a matrix: a metric found only in the summary table
    of another pair gets no matrix. *)
Theorem fields_name_the_matrices {K R T : Type} {key : Key K} {num : Num R}
    (backtest : K -> K -> result (Out R T)) (ps : list (K * K))
    (obj : Optimizer K R T) (name : string) :
  snd (sweep backtest ps) = Ok obj ->
  keeps_attributes obj = true ->
  (In name (fields obj)
   <-> exists raw, In raw (_fields obj) /\ name = normalize_name raw)
  /\ (In name (fields obj)
      <-> exists frame, dict_get String.eqb name (_table obj) = Some frame).
Proof.
  intros Hobj _.
  destruct (sweep_ok_inv _ _ _ Hobj) as (self & self' & _ & Hstats & ->).
  exact (extract_stats_names self self' name Hstats).
Qed.

Lemma fields_name_the_matrices_witness :
  (In "sharpe_ratio"%string (fields (built (sweep uneven_backtest [(2, 1); (1, 1)]%Z)))
   <-> exists raw,
         In raw (_fields (built (sweep uneven_backtest [(2, 1); (1, 1)]%Z)))
         /\ "sharpe_ratio"%string = normalize_name raw)
  /\ (In "sharpe_ratio"%string
        (fields (built (sweep uneven_backtest [(2, 1); (1, 1)]%Z)))
      <-> exists frame,
            dict_get String.eqb "sharpe_ratio"%string
              (_table (built (sweep uneven_backtest [(2, 1); (1, 1)]%Z)))
            = Some frame).
Proof.
  apply (fields_name_the_matrices uneven_backtest [(2, 1); (1, 1)]%Z).
  - vm_compute. reflexivity.
  - vm_compute. reflexivity.
Defined.

(** X9.  [return_mean] and [return_median] need a metric whose normalized
    name is [annual_return]: after a construction in which no matrix name
    rebinds an attribute or a method, they return when the reference
    summary table has one and raise [KeyError] when it has none. *)
Theorem return_mean_needs_annual_return {K R T : Type} {key : Key K}
    {num : Num R} (backtest : K -> K -> result (Out R T)) (ps : list (K * K))
    (obj : Optimizer K R T) :
  snd (sweep backtest ps) = Ok obj ->
  keeps_attributes obj = true ->
  ((exists raw, In raw (_fields obj) /\ normalize_name raw = "annual_return"%string) ->
   is_ok (return_mean obj) = true /\ is_ok (return_median obj) = true)
  /\ ((forall raw, In raw (_fields obj) ->
         normalize_name raw <> "annual_return"%string) ->
      return_mean obj = Raise KeyError /\ return_median obj = Raise KeyError).
Proof.
  intros Hobj _.
  destruct (sweep_ok_inv _ _ _ Hobj) as (self & self' & _ & Hstats & ->).
  destruct (extract_stats_names self self' "annual_return"%string Hstats)
    as [Hraw Hframe].
  unfold return_mean, return_median, dict_item.
  cbn [extract_dailys _fields _table]. split.
  - intros (raw & Hin & Hname).
    destruct (proj1 Hframe) as (frame & ->); [|split; reflexivity].
    apply Hraw. exists raw. auto.
  - intros Hnone.
    destruct (dict_get String.eqb "annual_return"%string (_table self'))
      as [frame|] eqn:Hget;
      [|split; reflexivity].
    destruct (proj1 Hraw) as (raw & Hin & Hname).
    + apply Hframe. exists frame. reflexivity.
    + elim (Hnone raw Hin). symmetry. assumption.
Qed.

Lemma return_mean_needs_annual_return_witness :
  return_mean (built (sweep ratio_backtest [(1, 1)%Z])) = Raise KeyError
  /\ return_median (built (sweep ratio_backtest [(1, 1)%Z])) = Raise KeyError.
Proof.
  refine (proj2 (return_mean_needs_annual_return ratio_backtest [(1, 1)%Z]
                   (built (sweep ratio_backtest [(1, 1)%Z])) _ _) _).
  - vm_compute. reflexivity.
  - vm_compute. reflexivity.
  - intros raw [<- | []]. vm_compute. discriminate.
Defined.

(** ** Summary tables with different metrics *)

Lemma foldM_raise {A S : Type} (f : S -> A -> result S) (P : exn -> Prop) :
  (forall s a e, f s a = Raise e -> P e) ->
  forall l s e, foldM f l s = Raise e -> P e.
Proof.
  intros Hf l. induction l as [|a l IH]; intros s e H; [discriminate|].
  simpl in H. destruct (f s a) as [s'|e'] eqn:Hstep; simpl in H.
  - eapply IH. eassumption.
  - injection H as <-. eapply Hf. eassumption.
Qed.

Lemma last_item_In {A : Type} (l : list A) (a : A) :
  last_item l = Ok a -> In a l.
Proof.
  unfold last_item. destruct (rev l) as [|b l'] eqn:Hrev; [discriminate|].
  intros H. injection H as <-. apply in_rev. rewrite Hrev. left. reflexivity.
Qed.

Lemma dict_get_map_distinct {K V : Type} (keq : K -> K -> bool) (g : K -> V)
    (ps : list K) (p : K) :
  (forall a, keq a a = true) ->
  all_distinct keq ps -> In p ps ->
  dict_get keq p (map (fun q => (q, g q)) ps) = Some (g p).
Proof.
  intros Hrefl. induction ps as [|q ps IH]; simpl; [contradiction|].
  intros [Hq Hdist] [-> | Hin].
  - rewrite Hrefl. reflexivity.
  - rewrite (Hq p Hin). apply IH; assumption.
Qed.

Section Uneven.

Context {K R : Type} {key : Key K} {num : Num R}.

Lemma record_field_raise (trans : dict string string) (index : K * K)
    (st : Series R) (table : dict string (DataFrame K R)) (field : string) (e : exn) :
  record_field trans index st table field = Raise e -> e = KeyError.
Proof.
  unfold record_field, series_item, dict_item.
  destruct (dict_get String.eqb field st); simpl; [|intros H; congruence].
  destruct (dict_get String.eqb field trans) as [name|]; simpl;
    [|intros H; congruence].
  destruct (dict_get String.eqb name table); simpl; intros H; congruence.
Qed.

Lemma fields_loop_ok_all (trans : dict string string) (index : K * K)
    (st : Series R) (fs : list string) (table table' : dict string (DataFrame K R)) :
  foldM (record_field trans index st) fs table = Ok table' ->
  forall f, In f fs -> dict_get String.eqb f st <> None.
Proof.
  revert table. induction fs as [|f0 fs IH]; intros table H f Hf; [destruct Hf|].
  simpl in H. apply bind_ok in H. destruct H as (table1 & Hstep & Hrest).
  destruct Hf as [<- | Hf]; [|eapply IH; eassumption].
  apply record_field_ok in Hstep. destruct Hstep as (v & _ & _ & Hv & _).
  unfold series_item, dict_item in Hv.
  destruct (dict_get String.eqb f0 st); [discriminate | discriminate].
Qed.

Lemma items_loop_ok_all (trans : dict string string) (fs : list string)
    (items : dict (K * K) (Series R)) (table table' : dict string (DataFrame K R)) :
  foldM (fun table item =>
           foldM (record_field trans (fst item) (snd item)) fs table)
    items table = Ok table' ->
  forall k st f, In (k, st) items -> In f fs ->
    dict_get String.eqb f st <> None.
Proof.
  revert table. induction items as [|item items IH]; intros table H k st f Hin Hf;
    [destruct Hin|].
  simpl in H. apply bind_ok in H. destruct H as (table1 & Hfields & Hrest).
  destruct Hin as [-> | Hin]; [|eapply IH; eassumption].
  exact (fields_loop_ok_all _ _ _ _ _ _ Hfields f Hf).
Qed.

End Uneven.

(** X10.  The metric set is taken from the last pair and is not checked
    against the others: on a grid of pairwise different pairs whose
    backtests all return, if the summary table of some pair lacks a metric
    of the summary table of the last pair, the construction raises
    [KeyError], after every pair was backtested. *)
Theorem missing_metric_raises {K R T : Type} {key : Key K} {laws : KeyLaws K}
    {num : Num R} (backtest : K -> K -> result (Out R T)) (out : K * K -> Out R T)
    (ps : list (K * K)) (last_pair q : K * K) (f : string) :
  (forall p, In p ps -> backtest (fst p) (snd p) = Ok (out p)) ->
  (forall p, In p ps -> hashable (fst p) && hashable (snd p) = true) ->
  all_distinct (pair_eqb key_eqb) ps ->
  last_item ps = Ok last_pair ->
  In f (series_index (stats (out last_pair))) ->
  In q ps ->
  dict_get String.eqb f (stats (out q)) = None ->
  sweep backtest ps = (ps, Raise KeyError).
Proof.
  intros Hout Hhash Hdist Hlast Hf Hq Hnone.
  assert (Hcalc : forall p s, In p ps ->
            is_ok (calc backtest s (fst p) (snd p)) = true).
  { intros p s Hp. unfold calc, hash_key. rewrite (Hout p Hp). simpl.
    rewrite (Hhash p Hp). reflexivity. }
  destruct (calc_loop_total backtest (new ps) ps Hcalc) as [Hfst Hsnd].
  unfold sweep.
  destruct (calc_loop backtest (new ps) ps) as [called r] eqn:Hloop.
  simpl in Hfst, Hsnd. subst called.
  destruct r as [self|e]; [|discriminate]. f_equal. simpl.
  destruct (calc_loop_distinct backtest out _ _ _ _ Hloop Hout Hdist)
    as [Hstats _]; try reflexivity.
  simpl in Hstats.
  assert (Hpairs : pairs self = pairs (@new K R T ps))
    by (eapply calc_loop_pairs; eassumption).
  simpl in Hpairs.
  assert (Hraise : extract_stats self = Raise KeyError).
  { unfold extract_stats. rewrite Hpairs, Hlast. cbn [bind].
    unfold hash_key. rewrite (Hhash last_pair (last_item_In _ _ Hlast)). cbn [bind].
    unfold dict_item. rewrite Hstats.
    rewrite (dict_get_map_distinct (pair_eqb key_eqb) (fun p => stats (out p))
               ps last_pair pair_eqb_refl Hdist (last_item_In _ _ Hlast)).
    cbn [bind].
    match goal with
    | |- bind ?loop _ = _ => destruct loop as [table|e] eqn:Htable
    end.
    - exfalso.
      apply (items_loop_ok_all _ _ _ _ _ Htable q (stats (out q)) f);
        [| assumption | assumption].
      apply in_map_iff. exists q. auto.
    - simpl. f_equal.
      apply (foldM_raise _ (fun e => e = KeyError)) in Htable; [assumption|].
      intros s a e0 H0.
      apply (foldM_raise _ (fun e => e = KeyError)) in H0; [assumption|].
      intros s' a' e1. apply record_field_raise. }
  rewrite Hraise. reflexivity.
Qed.

Lemma missing_metric_raises_witness :
  sweep uneven_backtest [(1, 1); (2, 1)]%Z = ([(1, 1); (2, 1)]%Z, Raise KeyError).
Proof.
  apply (missing_metric_raises uneven_backtest uneven_out [(1, 1); (2, 1)]%Z
           (2, 1)%Z (1, 1)%Z "Sharpe ratio").
  - intros p Hp. reflexivity.
  - intros p Hp. reflexivity.
  - simpl. repeat split; intros k' H;
      repeat (destruct H as [<- | H]; [reflexivity|]); destruct H.
  - reflexivity.
  - simpl. right. left. reflexivity.
  - left. reflexivity.
  - reflexivity.
Defined.

(** ** [rank] *)

Section RankShape.

Context {C R : Type} {num : Num R}.

Lemma notna_idem (c : option R) : notna (notna c) = notna c.
Proof.
  destruct c as [v|]; simpl; [|reflexivity].
  destruct (num_isnan v) eqn:Hv; simpl; [reflexivity | rewrite Hv; reflexivity].
Qed.

Lemma present_missing_length (row : list (C * option R)) :
  List.length (present row) + List.length (missing row) = List.length row.
Proof.
  induction row as [|e row IH]; [reflexivity|].
  unfold present, missing in *. simpl. rewrite !length_app.
  destruct (notna (snd e)); simpl; lia.
Qed.

Lemma insert_entry_perm (x : C * R) (l : list (C * R)) :
  Permutation (insert_entry x l) (x :: l).
Proof.
  induction l as [|y l IH]; simpl; [reflexivity|].
  destruct (num_leb (snd x) (snd y)); [reflexivity|].
  rewrite IH. apply perm_swap.
Qed.

Lemma sort_entries_perm (l : list (C * R)) :
  Permutation (fold_right insert_entry [] l) l.
Proof.
  induction l as [|x l IH]; simpl; [constructor|].
  rewrite insert_entry_perm. constructor. assumption.
Qed.

Lemma sort_values_length (row : list (C * option R)) :
  List.length (sort_values row) = List.length row.
Proof.
  unfold sort_values. rewrite length_app, !length_map.
  rewrite (Permutation_length (sort_entries_perm (present row))).
  apply present_missing_length.
Qed.

Lemma series_tail_length {A : Type} (n : nat) (l : list A) :
  List.length (series_tail n l) = Nat.min n (List.length l).
Proof. unfold series_tail. rewrite length_skipn. lia. Qed.

Lemma series_tail_incl {A : Type} (n : nat) (l : list A) (a : A) :
  In a (series_tail n l) -> In a l.
Proof.
  unfold series_tail. intros H.
  rewrite <- (firstn_skipn (List.length l - n) l). apply in_or_app. auto.
Qed.

Lemma sort_values_incl (row : list (C * option R)) (e : C * option R) :
  In e (sort_values row) ->
  exists e', In e' row /\ fst e = fst e' /\ snd e = notna (snd e').
Proof.
  unfold sort_values. intros H. apply in_app_or in H. destruct H as [H | H].
  - apply in_map_iff in H. destruct H as ([k v] & <- & H).
    apply (Permutation_in _ (sort_entries_perm (present row))) in H.
    unfold present in H. apply in_flat_map in H. destruct H as (e' & He' & H).
    destruct (notna (snd e')) as [w|] eqn:Hw; [|destruct H].
    destruct H as [H | []]. injection H as <- <-. exists e'. auto.
  - apply in_map_iff in H. destruct H as (k & <- & H).
    unfold missing in H. apply in_flat_map in H. destruct H as (e' & He' & H).
    destruct (notna (snd e')) as [w|] eqn:Hw; [destruct H|].
    destruct H as [<- | []]. exists e'. auto.
Qed.

(** A row whose cells all hold a value sorts to its values in order. *)
Lemma sort_values_present (vs : list (C * R)) :
  (forall e, In e vs -> num_isnan (snd e) = false) ->
  sort_values (map (fun e => (fst e, Some (snd e))) vs)
  = map (fun e => (fst e, Some (snd e))) (fold_right insert_entry [] vs).
Proof.
  intros Hnan. unfold sort_values.
  assert (H : present (map (fun e => (fst e, Some (snd e))) vs) = vs
              /\ missing (map (fun e : C * R => (fst e, Some (snd e))) vs) = []).
  { induction vs as [|[k v] vs IH]; [split; reflexivity|].
    destruct IH as [IHp IHm]; [intros; apply Hnan; right; assumption|].
    unfold present, missing in *. simpl.
    pose proof (Hnan (k, v) (or_introl eq_refl)) as Hv. simpl in Hv.
    rewrite Hv. simpl. rewrite IHp, IHm. split; reflexivity. }
  destruct H as [-> ->]. simpl. apply app_nil_r.
Qed.

End RankShape.

Section RankOrder.

Context {C R : Type} {num : Num R}.
Variable P : R -> Prop.
Hypothesis leb_total :
  forall x y : R, P x -> P y -> num_leb x y = true \/ num_leb y x = true.
Hypothesis leb_trans :
  forall x y z : R, P x -> P y -> P z ->
    num_leb x y = true -> num_leb y z = true -> num_leb x z = true.

Lemma insert_entry_sorted (x : C * R) (l : list (C * R)) :
  P (snd x) -> Forall (fun e => P (snd e)) l ->
  StronglySorted entry_le l -> StronglySorted entry_le (insert_entry x l).
Proof using leb_total leb_trans.
  intros Hx HP H. induction H as [|y l Hl IH Hy]; simpl.
  - repeat constructor.
  - inversion HP as [|? ? Py Pl]; subst.
    destruct (num_leb (snd x) (snd y)) eqn:Hxy.
    + constructor; [constructor; assumption|].
      constructor; [exact Hxy|].
      apply Forall_forall. intros z Hz.
      apply (leb_trans (snd x) (snd y) (snd z) Hx Py); [| exact Hxy |].
      * exact (proj1 (Forall_forall _ _) Pl z Hz).
      * exact (proj1 (Forall_forall _ _) Hy z Hz).
    + constructor; [apply IH; assumption|].
      apply (Permutation_Forall (Permutation_sym (insert_entry_perm x l))).
      constructor; [|assumption].
      destruct (leb_total (snd x) (snd y) Hx Py) as [H | H];
        [congruence | exact H].
Qed.

Lemma sort_entries_sorted (l : list (C * R)) :
  Forall (fun e => P (snd e)) l ->
  StronglySorted entry_le (fold_right insert_entry [] l).
Proof using leb_total leb_trans.
  induction l as [|x l IH]; intros HP; simpl; [constructor|].
  inversion HP as [|? ? Px Pl]; subst.
  apply insert_entry_sorted; [assumption | | apply IH; assumption].
  apply (Permutation_Forall (Permutation_sym (sort_entries_perm l))). assumption.
Qed.

Lemma sorted_skipn (n : nat) (l : list (C * R)) :
  StronglySorted entry_le l -> StronglySorted entry_le (skipn n l).
Proof.
  revert l. induction n as [|n IH]; intros l H; [assumption|].
  destruct l as [|x l]; [constructor|]. simpl. apply IH.
  inversion H. assumption.
Qed.

Lemma sorted_last (l : list (C * R)) (b a : C * R) :
  P (snd b) ->
  StronglySorted entry_le (l ++ [b]) -> In a (l ++ [b]) -> entry_le a b.
Proof using leb_total.
  intros Hb. induction l as [|x l IH]; simpl; intros H Hin.
  - destruct Hin as [<- | []]. unfold entry_le.
    destruct (leb_total (snd b) (snd b) Hb Hb); assumption.
  - inversion H as [|? ? Hl Hx]. subst. destruct Hin as [<- | Hin].
    + rewrite Forall_forall in Hx. apply Hx. apply in_or_app. right. left.
      reflexivity.
    + apply IH; assumption.
Qed.

End RankOrder.

Lemma final_balances_In {K R T : Type} {num : Num R} (self : Optimizer K R T)
    (c : K * K * list R) (x : R) :
  In c (paths self) ->
  cell_at (n_rows (paths self) - 1) (snd c) = Some x ->
  In x (final_balances self).
Proof.
  intros Hc Hx. unfold final_balances, valid. apply in_flat_map.
  exists (Some x). split.
  - apply in_map_iff. exists c. auto.
  - unfold cell_at in Hx. apply notna_Some in Hx. destruct Hx as [_ Hnan].
    simpl. rewrite Hnan. left. reflexivity.
Qed.

(** X11.  [rank] raises [IndexError] when the balance paths have no row.
    Otherwise it holds 20 entries, or one per pair when there are fewer
    than 20 pairs, each the final balance of a pair; and when every pair
    has a final balance (none is NaN) and [<=] compares the final balances
    totally and transitively, as it does any floats that are not NaN, the
    entries are in ascending order and the last one is the highest final
    balance of all pairs. *)
Theorem rank_keeps_the_best_last {K R T : Type} {num : Num R}
    (self : Optimizer K R T) :
  (n_rows (paths self) = 0 -> rank self = Raise IndexError)
  /\ (forall r, rank self = Ok r ->
        List.length r = Nat.min 20 (List.length (paths self))
        /\ forall e, In e r ->
             exists col, In (fst e, col) (paths self)
                         /\ snd e = cell_at (n_rows (paths self) - 1) col)
  /\ ((forall x y : R,
         In x (final_balances self) -> In y (final_balances self) ->
         num_leb x y = true \/ num_leb y x = true) ->
      (forall x y z : R,
         In x (final_balances self) -> In y (final_balances self) ->
         In z (final_balances self) ->
         num_leb x y = true -> num_leb y z = true -> num_leb x z = true) ->
      (forall c, In c (paths self) ->
         exists v, cell_at (n_rows (paths self) - 1) (snd c) = Some v) ->
      forall r, rank self = Ok r ->
        exists vs front k best,
          r = map (fun e => (fst e, Some (snd e))) vs
          /\ StronglySorted (fun a b => num_leb (snd a) (snd b) = true) vs
          /\ r = front ++ [(k, Some best)]
          /\ forall c x, In c (paths self) ->
               cell_at (n_rows (paths self) - 1) (snd c) = Some x ->
               num_leb x best = true).
Proof.
  split; [|split].
  - unfold rank, last_row. intros ->. reflexivity.
  - unfold rank, last_row. intros r H.
    destruct (n_rows (paths self)) as [|t] eqn:Hrows; [discriminate|].
    simpl in H. injection H as <-. split.
    + rewrite series_tail_length, sort_values_length, length_map. reflexivity.
    + intros e He. apply series_tail_incl in He. apply sort_values_incl in He.
      destruct He as (e' & He' & Hfst & Hsnd).
      apply in_map_iff in He'. destruct He' as ([k col] & <- & Hin).
      simpl in *. exists col. rewrite Hfst. split; [assumption|].
      rewrite Hsnd. unfold cell_at. rewrite notna_idem.
      replace (t - 0) with t by lia. reflexivity.
  - intros Htotal Htrans Hall r H.
    pose proof (final_balances_In self) as Hfinal.
    unfold rank, last_row in H.
    destruct (n_rows (paths self)) as [|t] eqn:Hrows; [discriminate|].
    simpl in H. injection H as <-.
    replace (S t - 1) with t in * by lia.
    set (vs := map (fun c : K * K * list R => (fst c, nth t (snd c) num_zero))
                 (paths self)).
    assert (Hcell : forall c, In c (paths self) ->
              cell_at t (snd c) = Some (nth t (snd c) num_zero)
              /\ num_isnan (nth t (snd c) num_zero) = false).
    { intros c Hc. destruct (Hall c Hc) as (v & Hv). rewrite Hv.
      unfold cell_at in Hv. apply notna_Some in Hv. destruct Hv as [Hnth Hnan].
      rewrite (nth_error_nth _ _ _ Hnth). auto. }
    assert (Hvs : Forall (fun e : K * K * R => In (snd e) (final_balances self)) vs).
    { apply Forall_forall. intros e He. unfold vs in He.
      apply in_map_iff in He. destruct He as (c & <- & Hc). simpl.
      apply (Hfinal c _ Hc). exact (proj1 (Hcell c Hc)). }
    assert (Hrow : map (fun c : K * K * list R => (fst c, cell_at t (snd c)))
                     (paths self)
                   = map (fun e => (fst e, Some (snd e))) vs).
    { unfold vs. rewrite map_map. apply map_ext_in. intros c Hc. simpl.
      rewrite (proj1 (Hcell c Hc)). reflexivity. }
    rewrite Hrow, sort_values_present.
    2:{ intros e He. unfold vs in He. apply in_map_iff in He.
        destruct He as (c & <- & Hc). exact (proj2 (Hcell c Hc)). }
    set (sorted := fold_right insert_entry [] vs).
    assert (Hsorted : StronglySorted (@entry_le (K * K) R num) sorted)
      by (apply (sort_entries_sorted _ Htotal Htrans); assumption).
    assert (Htail : series_tail 20 (map (fun e : K * K * R => (fst e, Some (snd e))) sorted)
                    = map (fun e => (fst e, Some (snd e)))
                        (skipn (List.length sorted - 20) sorted)).
    { unfold series_tail. rewrite length_map, skipn_map. reflexivity. }
    rewrite Htail.
    set (kept := skipn (List.length sorted - 20) sorted).
    assert (Hlen : List.length sorted = List.length (paths self)).
    { unfold sorted. rewrite (Permutation_length (sort_entries_perm vs)).
      unfold vs. apply length_map. }
    assert (Hne : kept <> []).
    { intros Hnil. apply (f_equal (@List.length _)) in Hnil.
      unfold kept in Hnil. rewrite length_skipn in Hnil. simpl in Hnil.
      destruct (paths self) as [|c f]; [discriminate Hrows|].
      simpl in Hlen. lia. }
    destruct (exists_last Hne) as (front & [k best] & Hkept).
    exists kept, (map (fun e => (fst e, Some (snd e))) front), k, best.
    split; [reflexivity|].
    split; [apply sorted_skipn; assumption|].
    split; [rewrite Hkept, map_app; reflexivity|].
    intros c x Hc Hx.
    assert (Hin : In (fst c, x) sorted).
    { apply (Permutation_in _ (Permutation_sym (sort_entries_perm vs))).
      unfold vs. apply in_map_iff. exists c. split; [|assumption].
      rewrite (proj1 (Hcell c Hc)) in Hx. injection Hx as <-. reflexivity. }
    assert (Hdecomp : sorted
                      = (firstn (List.length sorted - 20) sorted ++ front)
                        ++ [(k, best)]).
    { rewrite <- app_assoc, <- Hkept. unfold kept.
      symmetry. apply firstn_skipn. }
    assert (Hbest : In best (final_balances self)).
    { assert (Hmem : In (k, best) vs).
      { apply (Permutation_in _ (sort_entries_perm vs)). fold sorted.
        rewrite Hdecomp. apply in_or_app. right. left. reflexivity. }
      exact (proj1 (Forall_forall _ _) Hvs _ Hmem). }
    rewrite Hdecomp in Hsorted, Hin.
    exact (sorted_last _ Htotal _ (k, best) _ Hbest Hsorted Hin).
Qed.

Lemma rank_keeps_the_best_last_witness :
  exists vs front k best,
    [((1, 2)%Z, Some 1.25%float); ((2, 1)%Z, Some 2%float);
     ((1, 1)%Z, Some 3.5%float)]
    = map (fun e => (fst e, Some (snd e))) vs
    /\ StronglySorted (fun a b => num_leb (snd a) (snd b) = true) vs
    /\ [((1, 2)%Z, Some 1.25%float); ((2, 1)%Z, Some 2%float);
        ((1, 1)%Z, Some 3.5%float)]
       = front ++ [(k, Some best)]
    /\ forall c x, In c (paths ranked_floats) ->
         cell_at (n_rows (paths ranked_floats) - 1) (snd c) = Some x ->
         num_leb x best = true.
Proof.
  refine (proj2 (proj2 (rank_keeps_the_best_last ranked_floats)) _ _ _ _ _).
  - intros x y Hx Hy. vm_compute in Hx, Hy.
    destruct Hx as [<- | [<- | [<- | []]]];
      destruct Hy as [<- | [<- | [<- | []]]]; vm_compute; auto.
  - intros x y z Hx Hy Hz. vm_compute in Hx, Hy, Hz.
    destruct Hx as [<- | [<- | [<- | []]]];
      destruct Hy as [<- | [<- | [<- | []]]];
      destruct Hz as [<- | [<- | [<- | []]]];
      vm_compute; intros; try discriminate; reflexivity.
  - intros c [<- | [<- | [<- | []]]]; eexists; vm_compute; reflexivity.
  - vm_compute. reflexivity.
Defined.

(** ** [combine] and [combine_paths] on missing values *)

Section Ragged.

Context {C R : Type} {num : Num R}.

Lemma n_rows_app (f g : TimeFrame C R) :
  n_rows (f ++ g) = Nat.max (n_rows f) (n_rows g).
Proof.
  induction f as [|c f IH]; simpl; [reflexivity|]. rewrite IH. lia.
Qed.

Lemma valid_app (a b : list (option R)) : valid (a ++ b) = valid a ++ valid b.
Proof. unfold valid. apply flat_map_app. Qed.

Lemma mean_axis1_without (f g : TimeFrame C R) (k : C) (col : list R) (t : nat) :
  cell_at t col = None -> t < n_rows (f ++ g) ->
  nth_error (mean_axis1 (f ++ (k, col) :: g)) t = nth_error (mean_axis1 (f ++ g)) t.
Proof.
  intros Hcell Ht. rewrite !mean_axis1_nth.
  - f_equal. unfold nanmean, row_at. rewrite !map_app, !valid_app. simpl.
    rewrite Hcell. unfold valid at 3. simpl. fold (valid (map (fun c => cell_at t (snd c)) g)).
    reflexivity.
  - assumption.
  - rewrite n_rows_app in *. simpl. lia.
Qed.

End Ragged.

(** X12.  A pair without a return at a time step (its series is shorter,
    or holds a NaN there) is left out of the combined return of that step,
    not counted as a zero: the combined return is the one of the grid
    without that pair. *)
Theorem combine_skips_missing_returns {K R T : Type} {num : Num R}
    (self : Optimizer K R T) (f g : TimeFrame (K * K) R) (k : K * K)
    (col : list R) (t : nat) :
  returns self = f ++ (k, col) :: g ->
  cell_at t col = None ->
  t < n_rows (f ++ g) ->
  nth_error (combine self) t = nth_error (mean_axis1 (f ++ g)) t.
Proof.
  intros Hret Hcell Ht. unfold combine. rewrite Hret.
  apply mean_axis1_without; assumption.
Qed.

Lemma combine_skips_missing_returns_witness :
  nth_error (combine ragged_object) 1
  = nth_error (mean_axis1 ([((1, 1)%Z, [1 # 10; 2 # 10]%Q)] ++ [])) 1.
Proof.
  apply (combine_skips_missing_returns ragged_object
           [((1, 1)%Z, [1 # 10; 2 # 10]%Q)] [] (1, 2)%Z [3 # 10]%Q 1).
  - reflexivity.
  - reflexivity.
  - simpl. lia.
Defined.

Lemma firstn_S_nth {A : Type} (l : list A) (n : nat) (a : A) :
  nth_error l n = Some a -> firstn (S n) l = firstn n l ++ [a].
Proof.
  revert n. induction l as [|x l IH]; intros [|n] H; try discriminate.
  - injection H as <-. reflexivity.
  - simpl in H. change (x :: firstn (S n) l = (x :: firstn n l) ++ [a]).
    rewrite (IH n H). reflexivity.
Qed.

(** X13.  [combine_paths] compounds step by step: where every step has a
    combined return, its first value is 1 + the first combined return and
    each later value is the value before it times (1 + the combined return
    of the step), with no law of arithmetic assumed. *)
Theorem combine_paths_compounds {K R T : Type} {num : Num R}
    (self : Optimizer K R T) (cs : list R) :
  combine self = map Some cs ->
  (forall c, In c cs -> num_isnan (num_add c num_one) = false) ->
  (forall c, nth_error cs 0 = Some c ->
     nth_error (combine_paths self) 0 = Some (Some (num_add c num_one)))
  /\ (forall t p c,
        nth_error (combine_paths self) t = Some (Some p) ->
        nth_error cs (S t) = Some c ->
        nth_error (combine_paths self) (S t)
        = Some (Some (num_mul p (num_add c num_one)))).
Proof.
  intros Hc Hnan. unfold combine_paths. rewrite Hc, map_map. simpl option_map.
  rewrite <- (map_map (fun c => num_add c num_one) Some).
  set (xs := map (fun c => num_add c num_one) cs).
  assert (Hxs : forall x, In x xs -> num_isnan x = false).
  { intros x Hx. unfold xs in Hx. apply in_map_iff in Hx.
    destruct Hx as (c & <- & Hin). auto. }
  assert (Hnth : forall t c, nth_error cs t = Some c ->
            nth_error xs t = Some (num_add c num_one)).
  { intros t c H. unfold xs. rewrite nth_error_map, H. reflexivity. }
  destruct xs as [|x xs'] eqn:Exs.
  - split.
    + intros c H. apply Hnth in H. discriminate.
    + intros t p c _ H. apply Hnth in H. destruct t; discriminate.
  - unfold cumprod. cbn [map cumprod_from notna].
    rewrite (Hxs x (or_introl eq_refl)). split.
    + intros c H. apply Hnth in H. simpl in H. injection H as <-. reflexivity.
    + intros t p c Hp H. apply Hnth in H. cbn [nth_error] in H |- *.
      assert (Hlt : t < List.length xs') by (apply nth_error_Some; congruence).
      rewrite cumprod_from_Some;
        [| intros; apply Hxs; right; assumption | assumption].
      rewrite (firstn_S_nth _ _ _ H), fold_left_app. simpl. do 3 f_equal.
      destruct t as [|t].
      * simpl in Hp. injection Hp as <-. reflexivity.
      * cbn [nth_error] in Hp.
        rewrite cumprod_from_Some in Hp;
          [| intros; apply Hxs; right; assumption | lia].
        injection Hp as <-. reflexivity.
Qed.

Lemma combine_paths_compounds_witness :
  (forall c, nth_error [0; 1 # 10; -1 # 20]%Q 0 = Some c ->
     nth_error (combine_paths rational_object) 0 = Some (Some (num_add c num_one)))
  /\ (forall t p c,
        nth_error (combine_paths rational_object) t = Some (Some p) ->
        nth_error [0; 1 # 10; -1 # 20]%Q (S t) = Some c ->
        nth_error (combine_paths rational_object) (S t)
        = Some (Some (num_mul p (num_add c num_one)))).
Proof.
  apply (combine_paths_compounds rational_object [0; 1 # 10; -1 # 20]%Q).
  - vm_compute. reflexivity.
  - intros c Hc. reflexivity.
Defined.

(** ** [return_mean] on a matrix without missing cells *)

Section RationalSums.

Local Open Scope Q_scope.

Lemma Qsum_fold_left (l : list Q) (a : Q) :
  fold_left Qplus l a == a + fold_right Qplus 0 l.
Proof.
  revert a. induction l as [|x l IH]; intros a; simpl.
  - rewrite Qplus_0_r. reflexivity.
  - rewrite IH. rewrite Qplus_assoc. reflexivity.
Qed.

Lemma Qtotal (l : list Q) : total l == fold_right Qplus 0 l.
Proof.
  unfold total. change (fold_left Qplus l 0 == fold_right Qplus 0 l).
  rewrite Qsum_fold_left. apply Qplus_0_l.
Qed.

Lemma Qsum_app (l1 l2 : list Q) :
  fold_right Qplus 0 (l1 ++ l2) == fold_right Qplus 0 l1 + fold_right Qplus 0 l2.
Proof.
  induction l1 as [|x l1 IH]; simpl.
  - rewrite Qplus_0_l. reflexivity.
  - rewrite IH. apply Qplus_assoc.
Qed.

Lemma Qsum_ext {A : Type} (f h : A -> Q) (l : list A) :
  (forall x, In x l -> f x == h x) ->
  fold_right Qplus 0 (map f l) == fold_right Qplus 0 (map h l).
Proof.
  induction l as [|x l IH]; intros H; simpl; [reflexivity|].
  rewrite (H x) by (left; reflexivity). rewrite IH; [reflexivity|].
  intros; apply H; right; assumption.
Qed.

Lemma Qsum_plus {A : Type} (f h : A -> Q) (l : list A) :
  fold_right Qplus 0 (map (fun x => f x + h x) l)
  == fold_right Qplus 0 (map f l) + fold_right Qplus 0 (map h l).
Proof.
  induction l as [|x l IH]; simpl; [reflexivity|].
  rewrite IH. ring.
Qed.

Lemma Qsum_scale {A : Type} (f : A -> Q) (k : Q) (l : list A) :
  fold_right Qplus 0 (map (fun x => f x * k) l)
  == fold_right Qplus 0 (map f l) * k.
Proof.
  induction l as [|x l IH]; simpl; [ring|].
  rewrite IH. ring.
Qed.

Lemma Qsum_zero {A : Type} (l : list A) :
  fold_right Qplus 0 (map (fun _ => 0) l) == 0.
Proof. induction l as [|x l IH]; simpl; [reflexivity | rewrite IH; ring]. Qed.

(** Summing a table row by row or column by column gives the same. *)
Lemma Qsum_swap {A B : Type} (g : A -> B -> Q) (rows : list A) (cols : list B) :
  fold_right Qplus 0 (flat_map (fun r => map (g r) cols) rows)
  == fold_right Qplus 0
       (map (fun c => fold_right Qplus 0 (map (fun r => g r c) rows)) cols).
Proof.
  induction rows as [|r rows IH]; simpl.
  - rewrite Qsum_zero. reflexivity.
  - rewrite Qsum_app, IH.
    rewrite (Qsum_plus (fun c => g r c)
               (fun c => fold_right Qplus 0 (map (fun r => g r c) rows))).
    reflexivity.
Qed.

Lemma flat_map_rows_length {A B C : Type} (g : A -> B -> C) (rows : list A)
    (cols : list B) :
  List.length (flat_map (fun r => map (g r) cols) rows)
  = (List.length rows * List.length cols)%nat.
Proof.
  induction rows as [|r rows IH]; simpl; [reflexivity|].
  rewrite length_app, length_map, IH. reflexivity.
Qed.

Lemma Qmean_of_means {A B : Type} (g : A -> B -> Q) (rows : list A) (cols : list B) :
  rows <> [] -> cols <> [] ->
  arithmetic_mean
    (map (fun c => arithmetic_mean (map (fun r => g r c) rows)) cols)
  == arithmetic_mean (flat_map (fun r => map (g r) cols) rows).
Proof.
  intros Hrows Hcols. unfold arithmetic_mean.
  change (@num_div Q Num_Q) with Qdiv.
  change (@num_of_nat Q Num_Q) with (fun n => inject_Z (Z.of_nat n)). cbv beta.
  rewrite !length_map, flat_map_rows_length. rewrite !Qtotal.
  rewrite (Qsum_ext _ (fun c => fold_right Qplus 0 (map (fun r => g r c) rows)
                                * / inject_Z (Z.of_nat (List.length rows)))).
  2:{ intros c _. cbv beta. rewrite Qtotal, length_map. unfold Qdiv.
      reflexivity. }
  rewrite Qsum_scale, <- Qsum_swap.
  rewrite Nat2Z.inj_mul, inject_Z_mult.
  assert (Hr : ~ inject_Z (Z.of_nat (List.length rows)) == 0).
  { destruct rows; [contradiction|]. simpl List.length.
    intros H. apply (Qeq_bool_iff _ _) in H. discriminate. }
  assert (Hc : ~ inject_Z (Z.of_nat (List.length cols)) == 0).
  { destruct cols; [contradiction|]. simpl List.length.
    intros H. apply (Qeq_bool_iff _ _) in H. discriminate. }
  field. split; assumption.
Qed.

End RationalSums.

(** X14.  On an annual-return matrix without missing cells the mean of
    means is the plain mean: over exact numbers [return_mean] equals the
    mean of all the cells taken at once. *)
Theorem return_mean_on_full_grid {K T : Type} {key : Key K}
    (self : Optimizer K Q T) (t : DataFrame K Q) (g : K -> K -> Q) :
  dict_get String.eqb "annual_return"%string (_table self) = Some t ->
  index t <> [] -> columns t <> [] ->
  (forall r c, In r (index t) -> In c (columns t) ->
     loc_get key_eqb (r, c) t = Some (g r c)) ->
  exists m, return_mean self = Ok (Some m)
            /\ (m == global_mean key_eqb t)%Q.
Proof.
  intros Ht Hrows Hcols Hfull.
  destruct (full_frame key_eqb t g Hrows Hfull) as [Hmean Hstack].
  unfold return_mean, dict_item. rewrite Ht. cbn [bind]. rewrite Hmean.
  rewrite <- (map_map (fun c => arithmetic_mean (map (fun r => g r c) (index t)))
                Some).
  rewrite nanmean_map_Some.
  - eexists. split; [reflexivity|].
    unfold global_mean. rewrite Hstack. apply Qmean_of_means; assumption.
  - destruct (columns t); [contradiction | discriminate].
  - intros v _. reflexivity.
Qed.

Lemma return_mean_on_full_grid_witness :
  exists m, return_mean (corner_object Q) = Ok (Some m)
            /\ (m == global_mean key_eqb (annual_return_matrix (corner_object Q)))%Q.
Proof.
  apply (return_mean_on_full_grid (corner_object Q)
           (annual_return_matrix (corner_object Q))
           (fun r c => if ((r =? 2) && (c =? 2))%Z then 1%Q else 0%Q)).
  - vm_compute. reflexivity.
  - vm_compute. discriminate.
  - vm_compute. discriminate.
  - intros r c Hr Hc. vm_compute in Hr, Hc.
    destruct Hr as [<- | [<- | []]]; destruct Hc as [<- | [<- | []]];
      vm_compute; reflexivity.
Defined.

(** ** The matrices of a cross-product grid *)

Section Distinct.

Context {K : Type}.
Variable keq : K -> K -> bool.

Lemma all_distinct_app (l l' : list K) :
  all_distinct keq l -> all_distinct keq l' ->
  (forall x y, In x l -> In y l' -> keq x y = false) ->
  all_distinct keq (l ++ l').
Proof.
  induction l as [|a l IH]; simpl; intros Hl Hl' Hcross; [assumption|].
  destruct Hl as [Ha Hl]. split.
  - intros k' Hk'. apply in_app_or in Hk'. destruct Hk' as [Hk' | Hk'];
      [apply Ha; assumption | apply Hcross; auto].
  - apply IH; auto.
Qed.

Lemma label_in_false (k : K) (l : list K) :
  (forall x, In x l -> keq x k = false) -> label_in keq k l = false.
Proof.
  intros H. unfold label_in. induction l as [|x l IH]; [reflexivity|].
  simpl. rewrite (H x) by (left; reflexivity). simpl.
  apply IH. intros; apply H; right; assumption.
Qed.

Lemma label_in_true (k : K) (l : list K) :
  (forall a, keq a a = true) -> In k l -> label_in keq k l = true.
Proof.
  intros Hrefl H. unfold label_in. apply existsb_exists. exists k. auto.
Qed.

(** Adding labels that are all there changes nothing. *)
Lemma add_labels_old {A : Type} (lab : A -> K) (ps : list A) (l : list K) :
  (forall p, In p ps -> label_in keq (lab p) l = true) ->
  fold_left (fun l p => add_label keq (lab p) l) ps l = l.
Proof.
  induction ps as [|p ps IH]; intros H; [reflexivity|].
  simpl. unfold add_label at 2. rewrite (H p) by (left; reflexivity).
  apply IH. intros; apply H; right; assumption.
Qed.

(** Adding labels that are new and pairwise different appends them. *)
Lemma add_labels_new (ks l : list K) :
  all_distinct keq ks ->
  (forall x k, In x l -> In k ks -> keq x k = false) ->
  fold_left (fun l k => add_label keq k l) ks l = l ++ ks.
Proof.
  revert l. induction ks as [|k ks IH]; intros l Hdist Hnew; simpl.
  - rewrite app_nil_r. reflexivity.
  - destruct Hdist as [Hk Hdist]. unfold add_label at 2.
    rewrite label_in_false by (intros; apply Hnew; [assumption | left; reflexivity]).
    rewrite IH; [rewrite <- app_assoc; reflexivity | assumption |].
    intros x k' Hx Hk'. apply in_app_or in Hx. destruct Hx as [Hx | [<- | []]].
    + apply Hnew; [assumption | right; assumption].
    + apply Hk. assumption.
Qed.

End Distinct.

Section GridLabels.

Context {K : Type} {key : Key K} {laws : KeyLaws K}.

Lemma get_pairs_distinct (l1 l2 : list K) :
  all_distinct key_eqb l1 -> all_distinct key_eqb l2 ->
  all_distinct (pair_eqb key_eqb) (get_pairs l1 l2).
Proof.
  intros H1 H2. induction l1 as [|a l1 IH]; [exact I|].
  destruct H1 as [Ha H1]. rewrite get_pairs_cons. apply all_distinct_app.
  - clear IH Ha. induction l2 as [|b l2 IHb]; [exact I|].
    destruct H2 as [Hb H2]. simpl. split; [|apply IHb; assumption].
    intros k' Hk'. apply in_map_iff in Hk'. destruct Hk' as (b' & <- & Hb').
    unfold pair_eqb. simpl. rewrite (Hb b' Hb'). apply andb_false_r.
  - apply IH. assumption.
  - intros x y Hx Hy. apply in_map_iff in Hx. destruct Hx as (b & <- & Hb).
    destruct y as [a' b']. apply get_pairs_In in Hy. destruct Hy as [Ha' _].
    unfold pair_eqb. simpl. rewrite (Ha a' Ha'). reflexivity.
Qed.

(** The row labels met along a cross-product grid are the values of the
    first list. *)
Lemma grid_row_labels (l1 l2 pre : list K) :
  all_distinct key_eqb l1 -> l2 <> [] ->
  (forall x a, In x pre -> In a l1 -> key_eqb x a = false) ->
  fold_left (fun l (p : K * K) => add_label key_eqb (fst p) l) (get_pairs l1 l2) pre
  = pre ++ l1.
Proof.
  intros H1 Hne. revert pre. induction l1 as [|a l1 IH]; intros pre Hpre.
  - simpl. rewrite app_nil_r. reflexivity.
  - destruct H1 as [Ha H1]. rewrite get_pairs_cons, fold_left_app.
    assert (Hblock :
      fold_left (fun l (p : K * K) => add_label key_eqb (fst p) l)
        (map (pair a) l2) pre = pre ++ [a]).
    { destruct l2 as [|b l2]; [contradiction|].
      change (fold_left (fun l (p : K * K) => add_label key_eqb (fst p) l)
                (map (pair a) l2) (add_label key_eqb a pre) = pre ++ [a]).
      assert (Hadd : add_label key_eqb a pre = pre ++ [a]).
      { unfold add_label. rewrite label_in_false; [reflexivity|].
        intros x Hx. apply Hpre; [assumption | left; reflexivity]. }
      rewrite Hadd. apply add_labels_old.
      intros p Hp. apply in_map_iff in Hp. destruct Hp as (b' & <- & _). simpl.
      unfold label_in. rewrite existsb_app. simpl.
      rewrite key_eqb_refl. rewrite orb_true_r. reflexivity. }
    rewrite Hblock.
    rewrite IH; [rewrite <- app_assoc; reflexivity | assumption |].
    intros x a' Hx Ha'. apply in_app_or in Hx. destruct Hx as [Hx | [<- | []]].
    + apply Hpre; [assumption | right; assumption].
    + apply Ha. assumption.
Qed.

(** The column labels are the values of the second list. *)
Lemma grid_column_labels (l1 l2 : list K) :
  all_distinct key_eqb l2 -> l1 <> [] ->
  fold_left (fun l (p : K * K) => add_label key_eqb (snd p) l) (get_pairs l1 l2) []
  = l2.
Proof.
  intros H2 Hne. destruct l1 as [|a l1]; [contradiction|].
  rewrite get_pairs_cons, fold_left_app.
  assert (Hfirst : fold_left (fun l (p : K * K) => add_label key_eqb (snd p) l)
                     (map (pair a) l2) [] = l2).
  { rewrite <- (add_labels_new key_eqb l2 [] H2) at 2 by (intros x k []).
    generalize (@nil K). induction l2 as [|b l2 IHb]; intros l; [reflexivity|].
    simpl. apply IHb. destruct H2. assumption. }
  rewrite Hfirst. apply add_labels_old.
  intros [a' b'] Hp. apply get_pairs_In in Hp. simpl.
  apply label_in_true; [apply key_eqb_refl | tauto].
Qed.

End GridLabels.

Section GridMatrices.

Context {K R T : Type} {key : Key K} {laws : KeyLaws K} {num : Num R}.

Lemma fold_left_over_map {A B C : Type} (f : A -> B -> A) (h : C -> B)
    (l : list C) (a : A) :
  fold_left f (map h l) a = fold_left (fun a x => f a (h x)) l a.
Proof.
  revert a. induction l as [|x l IH]; intros a; [reflexivity|]. simpl. apply IH.
Qed.

(** The loop over the pairs of [raw_stats], followed on one matrix: every
    pair assigns the cell of its metric value. *)
Lemma items_loop_explicit (trans : dict string string) (fs : list string)
    (items : dict (K * K) (Series R)) (table table' : dict string (DataFrame K R)) :
  foldM (fun table item =>
           foldM (record_field trans (fst item) (snd item)) fs table)
    items table = Ok table' ->
  (forall f, In f fs -> dict_get String.eqb f trans = Some (normalize_name f)) ->
  NoDup (map normalize_name fs) ->
  forall f frame, In f fs ->
    dict_get String.eqb (normalize_name f) table = Some frame ->
    dict_get String.eqb (normalize_name f) table'
    = Some (fold_left (fun fr (item : K * K * Series R) =>
                         loc_set key_eqb (fst item) (series_value f (snd item)) fr)
              items frame).
Proof.
  revert table. induction items as [|[k0 st0] items IH];
    intros table H Htrans Hnodup f frame Hf Hframe.
  - simpl in H. injection H as <-. assumption.
  - simpl in H. apply bind_ok in H. destruct H as (table1 & Hfields & Hrest).
    destruct (fields_loop _ _ _ _ _ _ Hfields Htrans) as (_ & _ & Hset).
    destruct (Hset Hnodup f Hf) as (v & frame0 & Hv & Hframe0 & Hframe1).
    rewrite Hframe in Hframe0. injection Hframe0 as <-.
    assert (Hval : series_value f st0 = v).
    { unfold series_value. unfold series_item, dict_item in Hv.
      destruct (dict_get String.eqb f st0);
        [injection Hv as ->; reflexivity | discriminate]. }
    cbn [fold_left fst snd]. rewrite Hval.
    apply (IH _ Hrest Htrans Hnodup f _ Hf Hframe1).
Qed.

(** The axes and the cells of a frame after a run of assignments. *)
Lemma loc_fold_axes {A : Type} (lab : A -> K * K) (val : A -> R) (l : list A)
    (fr : DataFrame K R) :
  index (fold_left (fun fr x => loc_set key_eqb (lab x) (val x) fr) l fr)
  = fold_left (fun i x => add_label key_eqb (fst (lab x)) i) l (index fr)
  /\ columns (fold_left (fun fr x => loc_set key_eqb (lab x) (val x) fr) l fr)
     = fold_left (fun c x => add_label key_eqb (snd (lab x)) c) l (columns fr)
  /\ cells (fold_left (fun fr x => loc_set key_eqb (lab x) (val x) fr) l fr)
     = fold_left (fun d x => dict_set (pair_eqb key_eqb) (lab x) (val x) d) l
         (cells fr).
Proof.
  revert fr. induction l as [|x l IH]; intros fr; [auto|].
  cbn [fold_left].
  destruct (IH (loc_set key_eqb (lab x) (val x) fr)) as (Hi & Hc & Hd).
  rewrite Hi, Hc, Hd. repeat split.
Qed.

Lemma dict_fold_distinct {A V : Type} (keq : A -> A -> bool) (g : A -> V)
    (ps : list A) (d : dict A V) :
  all_distinct keq ps ->
  (forall p, In p ps -> dict_get keq p d = None) ->
  fold_left (fun d p => dict_set keq p (g p) d) ps d
  = d ++ map (fun p => (p, g p)) ps.
Proof.
  revert d. induction ps as [|p ps IH]; intros d Hdist Hnew; simpl.
  - rewrite app_nil_r. reflexivity.
  - destruct Hdist as [Hp Hdist].
    rewrite dict_set_absent by (apply Hnew; left; reflexivity).
    rewrite IH; [rewrite <- app_assoc; reflexivity | assumption |].
    intros q Hq. rewrite dict_get_app_None by (apply Hnew; right; assumption).
    simpl. rewrite (Hp q Hq). reflexivity.
Qed.

Variable backtest : K -> K -> result (Out R T).
Variable out : K * K -> Out R T.

(** The matrix of a metric after a sweep over the cross product of two
    lists of pairwise different values. *)
Lemma grid_matrix (l1 l2 : list K) (obj : Optimizer K R T) :
  snd (sweep backtest (get_pairs l1 l2)) = Ok obj ->
  (forall a b, In a l1 -> In b l2 -> backtest a b = Ok (out (a, b))) ->
  all_distinct key_eqb l1 -> all_distinct key_eqb l2 ->
  NoDup (map normalize_name (_fields obj)) ->
  forall f, In f (_fields obj) ->
    l1 <> [] /\ l2 <> []
    /\ (forall p, In p (get_pairs l1 l2) ->
          dict_get String.eqb f (stats (out p)) <> None)
    /\ exists frame,
         dict_get String.eqb (normalize_name f) (_table obj) = Some frame
         /\ index frame = l1 /\ columns frame = l2
         /\ cells frame
            = map (fun p => (p, series_value f (stats (out p)))) (get_pairs l1 l2).
Proof.
  intros Hobj Hout H1 H2 Hnodup f Hf.
  destruct (sweep_ok_inv _ _ _ Hobj) as (self & self' & Hloop & Hstats & ->).
  cbn [extract_dailys _fields _table] in *.
  assert (Hout' : forall p, In p (get_pairs l1 l2) ->
                    backtest (fst p) (snd p) = Ok (out p)).
  { intros [a b] Hp. apply get_pairs_In in Hp. apply Hout; tauto. }
  pose proof (get_pairs_distinct l1 l2 H1 H2) as Hdist.
  destruct (calc_loop_distinct backtest out _ _ _ _ Hloop Hout' Hdist)
    as [Hs _]; try reflexivity.
  change (raw_stats self
          = map (fun p => (p, stats (out p))) (get_pairs l1 l2)) in Hs.
  destruct (extract_stats_ok _ _ Hstats)
    as (last_pair & reference & Hlast & _ & _ & Htrans & Hfields & _ & Hfold).
  rewrite (calc_loop_pairs backtest (new (get_pairs l1 l2)) _ Hloop) in Hlast.
  apply last_item_In in Hlast.
  change (In last_pair (get_pairs l1 l2)) in Hlast.
  destruct last_pair as [a0 b0]. apply get_pairs_In in Hlast.
  destruct Hlast as [Ha0 Hb0].
  assert (Hne1 : l1 <> []) by (intros ->; destruct Ha0).
  assert (Hne2 : l2 <> []) by (intros ->; destruct Hb0).
  assert (Htr : forall f0, In f0 (_fields self') ->
                  dict_get String.eqb f0 (field_trans self')
                  = Some (normalize_name f0)).
  { intros f0 Hf0. rewrite Htrans. apply table_comprehension_get. assumption. }
  pose proof (proj2 (field_trans_get _ _ _ Hstats Hf)) as Hin.
  pose proof (items_loop_explicit _ _ _ _ _ Hfold Htr Hnodup f empty_frame Hf
                (table_comprehension_get (fun _ => empty_frame) _ _ Hin))
    as Hframe.
  rewrite Hs in Hframe, Hfold.
  split; [assumption|]. split; [assumption|]. split.
  { intros p Hp.
    apply (items_loop_ok_all _ _ _ _ _ Hfold p (stats (out p)) f);
      [|assumption].
    apply (in_map (fun p => (p, stats (out p))) _ _ Hp). }
  eexists. split; [exact Hframe|].
  rewrite fold_left_over_map.
  pose proof (loc_fold_axes (fun p : K * K => p)
                (fun p => series_value f (stats (out p)))
                (get_pairs l1 l2) empty_frame) as (Hi & Hc & Hd).
  split; [|split].
  - refine (eq_trans Hi _).
    exact (grid_row_labels l1 l2 [] H1 Hne2 (fun x a (H : In x []) _ => match H with end)).
  - refine (eq_trans Hc _). exact (grid_column_labels l1 l2 H2 Hne1).
  - refine (eq_trans Hd _).
    exact (dict_fold_distinct (pair_eqb key_eqb)
             (fun p => series_value f (stats (out p))) (get_pairs l1 l2) []
             Hdist (fun _ _ => eq_refl)).
Qed.

End GridMatrices.

(** X15.  On the cross product of two lists of pairwise different values,
    when the normalized metric names are pairwise different, the matrix of
    every metric is a full rectangle: its rows are the values of the first
    list and its columns those of the second, in their order, and the cell
    at a row and a column holds the value of the metric in the summary
    table of that pair. *)
Theorem grid_matrices_are_rectangles {K R T : Type} {key : Key K}
    {laws : KeyLaws K} {num : Num R}
    (backtest : K -> K -> result (Out R T)) (out : K * K -> Out R T)
    (l1 l2 : list K) (obj : Optimizer K R T) :
  snd (sweep backtest (get_pairs l1 l2)) = Ok obj ->
  (forall a b, In a l1 -> In b l2 -> backtest a b = Ok (out (a, b))) ->
  all_distinct key_eqb l1 -> all_distinct key_eqb l2 ->
  NoDup (map normalize_name (_fields obj)) ->
  forall f, In f (_fields obj) ->
    exists frame,
      dict_get String.eqb (normalize_name f) (_table obj) = Some frame
      /\ index frame = l1 /\ columns frame = l2
      /\ forall a b, In a l1 -> In b l2 ->
           exists v, series_item f (stats (out (a, b))) = Ok v
                     /\ dict_get (pair_eqb key_eqb) (a, b) (cells frame) = Some v.
Proof.
  intros Hobj Hout H1 H2 Hnodup f Hf.
  destruct (grid_matrix backtest out l1 l2 obj Hobj Hout H1 H2 Hnodup f Hf)
    as (_ & _ & Hvals & frame & Hframe & Hi & Hc & Hd).
  exists frame. repeat (split; [assumption|]).
  intros a b Ha Hb.
  assert (Hp : In (a, b) (get_pairs l1 l2)) by (apply get_pairs_In; auto).
  exists (series_value f (stats (out (a, b)))). split.
  - specialize (Hvals _ Hp). unfold series_item, dict_item, series_value.
    destruct (dict_get String.eqb f (stats (out (a, b))));
      [reflexivity | contradiction].
  - rewrite Hd.
    apply (dict_get_map_distinct (pair_eqb key_eqb)
             (fun p => series_value f (stats (out p)))).
    + apply pair_eqb_refl.
    + apply get_pairs_distinct; assumption.
    + assumption.
Qed.

Lemma grid_matrices_are_rectangles_witness :
  exists frame,
    dict_get String.eqb (normalize_name "Annual return")
      (_table (built (sweep varying_backtest (get_pairs [1; 2]%Z [1; 2]%Z))))
    = Some frame
    /\ index frame = [1; 2]%Z /\ columns frame = [1; 2]%Z
    /\ forall a b, In a [1; 2]%Z -> In b [1; 2]%Z ->
         exists v, series_item "Annual return" (stats (varying_out (a, b))) = Ok v
                   /\ dict_get (pair_eqb key_eqb) (a, b) (cells frame) = Some v.
Proof.
  apply (grid_matrices_are_rectangles varying_backtest varying_out
           [1; 2]%Z [1; 2]%Z).
  - vm_compute. reflexivity.
  - intros a b _ _. reflexivity.
  - simpl. repeat split; intros k' H;
      repeat (destruct H as [<- | H]; [reflexivity|]); destruct H.
  - simpl. repeat split; intros k' H;
      repeat (destruct H as [<- | H]; [reflexivity|]); destruct H.
  - vm_compute. constructor; [intros [] | constructor].
  - vm_compute. left. reflexivity.
Defined.

Lemma flat_map_grid {A B C : Type} (val : A * B -> C) (l1 : list A) (l2 : list B) :
  flat_map (fun r => map (fun c => val (r, c)) l2) l1 = map val (get_pairs l1 l2).
Proof.
  induction l1 as [|a l1 IH]; [reflexivity|].
  rewrite get_pairs_cons, map_app, map_map. simpl. rewrite IH. reflexivity.
Qed.

(** X16.  With exact arithmetic, after a construction on the cross product
    of two lists of pairwise different values in which no matrix name
    rebinds an attribute or a method, [return_mean] is the plain average
    of the annual returns of all the pairs of the grid: the value of the
    metric whose name normalizes to [annual_return], summed over the pairs
    and divided by their number. *)
Theorem return_mean_averages_the_grid {K T : Type} {key : Key K}
    {laws : KeyLaws K}
    (backtest : K -> K -> result (Out Q T)) (out : K * K -> Out Q T)
    (l1 l2 : list K) (obj : Optimizer K Q T) (f : string) :
  snd (sweep backtest (get_pairs l1 l2)) = Ok obj ->
  keeps_attributes obj = true ->
  (forall a b, In a l1 -> In b l2 -> backtest a b = Ok (out (a, b))) ->
  all_distinct key_eqb l1 -> all_distinct key_eqb l2 ->
  NoDup (map normalize_name (_fields obj)) ->
  In f (_fields obj) -> normalize_name f = "annual_return"%string ->
  exists m,
    return_mean obj = Ok (Some m)
    /\ (m == arithmetic_mean
               (map (fun p => series_value f (stats (out p))) (get_pairs l1 l2)))%Q.
Proof.
  intros Hobj _ Hout H1 H2 Hnodup Hf Hname.
  destruct (grid_matrix backtest out l1 l2 obj Hobj Hout H1 H2 Hnodup f Hf)
    as (Hne1 & Hne2 & _ & frame & Hframe & Hi & Hc & Hd).
  rewrite Hname in Hframe.
  set (val := fun p : K * K => series_value f (stats (out p))) in *.
  assert (Hfull : forall r c, In r (index frame) -> In c (columns frame) ->
            loc_get key_eqb (r, c) frame = Some (val (r, c))).
  { intros r c Hr Hcol. rewrite Hi in Hr. rewrite Hc in Hcol.
    unfold loc_get. rewrite Hd.
    rewrite (dict_get_map_distinct (pair_eqb key_eqb) val).
    - reflexivity.
    - apply pair_eqb_refl.
    - apply get_pairs_distinct; assumption.
    - apply get_pairs_In. auto. }
  assert (Hrows : index frame <> []) by (rewrite Hi; assumption).
  destruct (full_frame key_eqb frame (fun r c => val (r, c)) Hrows Hfull)
    as [Hmean _].
  unfold return_mean, dict_item. rewrite Hframe. cbn [bind]. rewrite Hmean.
  rewrite <- (map_map (fun c => arithmetic_mean
                                  (map (fun r => val (r, c)) (index frame))) Some).
  rewrite nanmean_map_Some.
  - eexists. split; [reflexivity|].
    rewrite Hi, Hc, <- flat_map_grid.
    apply (Qmean_of_means (fun r c => val (r, c))); assumption.
  - rewrite Hc. destruct l2; [contradiction | discriminate].
  - intros v _. reflexivity.
Qed.

Lemma return_mean_averages_the_grid_witness :
  exists m,
    return_mean (built (sweep varying_backtest (get_pairs [1; 2]%Z [1; 2]%Z)))
    = Ok (Some m)
    /\ (m == arithmetic_mean
               (map (fun p => series_value "Annual return" (stats (varying_out p)))
                  (get_pairs [1; 2]%Z [1; 2]%Z)))%Q.
Proof.
  apply (return_mean_averages_the_grid varying_backtest varying_out
           [1; 2]%Z [1; 2]%Z).
  - vm_compute. reflexivity.
  - vm_compute. reflexivity.
  - intros a b _ _. reflexivity.
  - simpl. repeat split; intros k' H;
      repeat (destruct H as [<- | H]; [reflexivity|]); destruct H.
  - simpl. repeat split; intros k' H;
      repeat (destruct H as [<- | H]; [reflexivity|]); destruct H.
  - vm_compute. constructor; [intros [] | constructor].
  - vm_compute. left. reflexivity.
  - vm_compute. reflexivity.
Defined.

(** ** Pairs that cannot key a dictionary *)

(** X17.  A pair with a component that cannot be hashed (for Python values
    a list, or a tuple that holds one) cannot key the stores: its backtest
    is run and returns, then storing the result raises [TypeError]; the
    construction ends there and no later pair is backtested. *)
Theorem unhashable_pair_raises {K R T : Type} {key : Key K} {num : Num R}
    (backtest : K -> K -> result (Out R T))
    (before after : list (K * K)) (p : K * K) (o : Out R T) :
  (forall q s, In q before -> is_ok (calc backtest s (fst q) (snd q)) = true) ->
  backtest (fst p) (snd p) = Ok o ->
  hashable (fst p) && hashable (snd p) = false ->
  sweep backtest (before ++ p :: after) = (before ++ [p], Raise TypeError).
Proof.
  intros Hok Hp Hhash. unfold sweep.
  rewrite (calc_loop_stops backtest _ before after p TypeError Hok);
    [reflexivity|].
  intros s. unfold calc, hash_key. rewrite Hp. cbn [bind fst snd].
  rewrite Hhash. reflexivity.
Qed.

Lemma unhashable_pair_raises_witness :
  sweep sample_backtest
    ([(PInt 1, PInt 2)] ++ (PList [PInt 3], PInt 4) :: [(PInt 5, PInt 6)])
  = ([(PInt 1, PInt 2)] ++ [(PList [PInt 3], PInt 4)], Raise TypeError).
Proof.
  apply (unhashable_pair_raises sample_backtest [(PInt 1, PInt 2)]
           [(PInt 5, PInt 6)] (PList [PInt 3], PInt 4) sample_out).
  - intros q s [<- | []]. reflexivity.
  - reflexivity.
  - reflexivity.
Defined.
